(** * virtinst/cli.py: the compound option-string engine

    A shallow embedding of the option-string machinery of
    [virtinst/cli.py] (lines 871-1414): the tokenizer
    [parse_optstr_tuples], the descriptor record
    [_VirtCLIArgumentStatic], the dictionary builder
    [_parse_optstr_to_dict], the bound argument [_VirtCLIArgument] with
    its two modes [parse_param] / [lookup_param], and the family parser
    [VirtCLIParser].

    Conventions.
    - Python [str] is modelled by [string] (sequences of 8-bit
      characters); [None] by [option] or by the constructor [PNone].
    - A Python exception is a value of [exn]; a computation that may
      raise returns [res A].
    - [while] loops that are not structurally recursive carry a fuel
      argument; each comes with a lemma showing that the fuel the caller
      supplies is never exhausted. *)

From Stdlib Require Import List String Ascii Bool Arith Lia.
From Stdlib Require Import Sorting.Permutation Sorting.Sorted.
Import ListNotations.

Local Open Scope string_scope.
Local Open Scope list_scope.

Set Implicit Arguments.
Set Warnings "-register-all".

(** ** Exceptions and the error monad *)

Inductive exn : Type :=
| ValueError (msg : string)          (* shlex: unterminated quoting *)
| RuntimeError (msg : string)
| TypeError (msg : string)
| AttributeError (msg : string)
| IndexError
| KeyError (k : string)
| SystemExit (f : failure)           (* [fail]: log the message, sys.exit(1) *)
| OutOfFuel                          (* artefact of the embedding only *)

(** The messages handed to [fail], kept structured instead of
    formatted. *)
with failure : Type :=
| MustBeYesOrNo (key : string)
    (* "%(key)s must be 'yes' or 'no'" *)
| UnknownOptions (flag : string) (keys : list string)
    (* "Unknown %s options: %s" % (cli_flag_name(), list(optdict.keys())) *)
| ErrorIn (flag : string) (options : option string) (err : exn).
    (* "Error: %(cli_flag_name)s %(options)s: %(err)s" *)

Inductive res (A : Type) : Type :=
| Ok (a : A)
| Raise (e : exn).

Arguments Ok {A} a.
Arguments Raise {A} e.

Definition bind {A B : Type} (m : res A) (k : A -> res B) : res B :=
  match m with
  | Ok a => k a
  | Raise e => Raise e
  end.

Notation "x <- m ;; k" := (bind m (fun x => k))
  (at level 61, m at next level, right associativity).
Notation "' p <- m ;; k" := (bind m (fun x => let p := x in k))
  (at level 61, p pattern, m at next level, right associativity).

(** ** Python string helpers *)

Module PyStr.

(** [c in s] for a one-character string [c]. *)
Fixpoint mem (c : ascii) (s : string) : bool :=
  match s with
  | EmptyString => false
  | String d s' => Ascii.eqb c d || mem c s'
  end.

(** [s.split(sep, 1)] for a one-character separator occurring in [s]:
    the text before the first [sep] and the text after it; [None]
    when [sep] does not occur. *)
Fixpoint split1 (sep : ascii) (s : string) : option (string * string) :=
  match s with
  | EmptyString => None
  | String c s' =>
      if Ascii.eqb c sep then Some (EmptyString, s')
      else match split1 sep s' with
           | Some (a, b) => Some (String c a, b)
           | None => None
           end
  end.

(** [s.startswith(p)] *)
Fixpoint startswith (p s : string) : bool :=
  match p, s with
  | EmptyString, _ => true
  | String a p', String b s' => Ascii.eqb a b && startswith p' s'
  | String _ _, EmptyString => false
  end.

Definition lower_char (c : ascii) : ascii :=
  let n := nat_of_ascii c in
  if Nat.leb 65 n && Nat.leb n 90 then ascii_of_nat (n + 32) else c.

(** [s.lower()] *)
Fixpoint lower (s : string) : string :=
  match s with
  | EmptyString => EmptyString
  | String c s' => String (lower_char c) (lower s')
  end.

(** [a < b] on strings: lexicographic on character codes. *)
Fixpoint ltb (a b : string) : bool :=
  match a, b with
  | EmptyString, EmptyString => false
  | EmptyString, String _ _ => true
  | String _ _, EmptyString => false
  | String x a', String y b' =>
      if Nat.ltb (nat_of_ascii x) (nat_of_ascii y) then true
      else if Nat.ltb (nat_of_ascii y) (nat_of_ascii x) then false
      else ltb a' b'
  end.

(** [s.replace(a, b)] for one-character [a] and [b]. *)
Fixpoint replace_char (a b : ascii) (s : string) : string :=
  match s with
  | EmptyString => EmptyString
  | String c s' =>
      String (if Ascii.eqb c a then b else c) (replace_char a b s')
  end.

(** Truth value of a string: non-empty. *)
Definition truthy (s : string) : bool :=
  match s with EmptyString => false | _ => true end.

(** [s in l] for a list of strings. *)
Definition in_list (s : string) (l : list string) : bool :=
  existsb (String.eqb s) l.

End PyStr.

(** ** The tokenizer

    [parse_optstr_tuples] drives a [shlex.shlex(optstr, posix=True)]
    whose [commenters] are emptied, whose [whitespace] is the single
    character [","] and whose [whitespace_split] is set.  [Shlex] follows
    [read_token] of the Python library branch by branch under that
    configuration ([punctuation_chars] is empty, so state ['c'] never
    arises; with [whitespace_split] the [wordchars] test and the
    fall-through test lead to the same assignment). *)

Module Shlex.

Definition whitespace : string := ",".
Definition dquote : ascii := "034"%char.
Definition quotes : string := String "'" (String dquote EmptyString).
Definition escape : string := "\".
Definition escapedquotes : string := String dquote EmptyString.

(** [self.state]: [None], [' '], ['a'], a quote character or an
    escape character.  [escapedstate] ranges over the same values. *)
Inductive state : Type :=
| SNone
| SSpace
| SWord
| SQuote (q : ascii)
| SEscape (e : ascii).

(** [escapedstate in self.quotes] *)
Definition is_quote_state (s : state) : bool :=
  match s with SQuote _ => true | _ => false end.

(** [nextchar != escapedstate], for a one-character [nextchar] *)
Definition char_is_state (c : ascii) (s : state) : bool :=
  match s with
  | SQuote q => Ascii.eqb c q
  | SEscape e => Ascii.eqb c e
  | SSpace => Ascii.eqb c " "
  | SWord => Ascii.eqb c "a"
  | SNone => false
  end.

Definition snoc (tok : string) (c : ascii) : string :=
  tok ++ String c EmptyString.

(** What one call of [read_token] leaves behind: the token (or [None]
    for end of input), the lexer state, and the unread input. *)
Record outcome : Type := {
  result : option string;
  next_state : state;
  unread : list ascii
}.

(** The [break] at the end of the [while True] loop: [result] is the
    token, turned into [None] when it is empty and nothing was
    quoted. *)
Definition finish (st : state) (quoted : bool) (token : string)
    (input : list ascii) : res outcome :=
  Ok {| result := if negb quoted && negb (PyStr.truthy token)
                  then None else Some token;
        next_state := st;
        unread := input |}.

Fixpoint read_loop (st escapedstate : state) (quoted : bool)
    (token : string) (input : list ascii) {struct input} : res outcome :=
  match st with
  | SNone =>
      (* past end of file: [self.token = ''; break] *)
      finish SNone quoted EmptyString (tl input)
  | SSpace =>
      match input with
      | [] => finish SNone quoted token []
      | c :: rest =>
          if PyStr.mem c whitespace then
            if PyStr.truthy token || quoted
            then finish SSpace quoted token rest
            else read_loop SSpace escapedstate quoted token rest
          else if PyStr.mem c escape then
            read_loop (SEscape c) SWord quoted token rest
          else if PyStr.mem c quotes then
            read_loop (SQuote c) escapedstate quoted token rest
          else
            read_loop SWord escapedstate quoted (String c EmptyString) rest
      end
  | SQuote q =>
      match input with
      | [] => Raise (ValueError "No closing quotation")
      | c :: rest =>
          if Ascii.eqb c q then
            read_loop SWord escapedstate true token rest
          else if PyStr.mem c escape && PyStr.mem q escapedquotes then
            read_loop (SEscape c) (SQuote q) true token rest
          else
            read_loop (SQuote q) escapedstate true (snoc token c) rest
      end
  | SEscape e =>
      match input with
      | [] => Raise (ValueError "No escaped character")
      | c :: rest =>
          let token' :=
            if is_quote_state escapedstate
               && negb (Ascii.eqb c e)
               && negb (char_is_state c escapedstate)
            then snoc token e else token in
          read_loop escapedstate escapedstate quoted (snoc token' c) rest
      end
  | SWord =>
      match input with
      | [] => finish SNone quoted token []
      | c :: rest =>
          if PyStr.mem c whitespace then
            if PyStr.truthy token || quoted
            then finish SSpace quoted token rest
            else read_loop SSpace escapedstate quoted token rest
          else if PyStr.mem c quotes then
            read_loop (SQuote c) escapedstate quoted token rest
          else if PyStr.mem c escape then
            read_loop (SEscape c) SWord quoted token rest
          else
            read_loop SWord escapedstate quoted (snoc token c) rest
      end
  end.

(** [read_token]: [quoted = False], [escapedstate = ' '], and
    [self.token] is empty on entry. *)
Definition read_token (st : state) (input : list ascii) : res outcome :=
  read_loop st SSpace false EmptyString input.

(** One step of [list(argsplitter)]: a token is kept and the iteration
    goes on with [k]; [None] ends it. *)
Definition emit (k : state -> list ascii -> res (list string))
    (r : res outcome) : res (list string) :=
  o <- r ;;
  match result o with
  | None => Ok []
  | Some tok =>
      more <- k (next_state o) (unread o) ;;
      Ok (tok :: more)
  end.

(** [list(argsplitter)]: call [get_token] until it returns [None]. *)
Fixpoint tokens (fuel : nat) (st : state) (input : list ascii)
  : res (list string) :=
  match fuel with
  | O => Raise OutOfFuel
  | S fuel' => emit (tokens fuel') (read_token st input)
  end.

Definition split (s : string) : res (list string) :=
  let input := list_ascii_of_string s in
  tokens (S (List.length input)) SSpace input.

End Shlex.

(** An option token: the name and its value, [None] when the token was
    written without ["="]. *)
Definition opttuple : Type := (string * option string)%type.

(** The body of the [for opt in list(argsplitter)] loop. *)
Definition split_opt (opt : string) : list opttuple :=
  if negb (PyStr.truthy opt) then []
  else match PyStr.split1 "=" opt with
       | Some (cliname, val) => [(cliname, Some val)]
       | None => [(opt, None)]
       end.

(** [parse_optstr_tuples(optstr)]; [optstr or ""] maps [None] to the
    empty string. *)
Definition parse_optstr_tuples (optstr : option string)
  : res (list opttuple) :=
  let s := match optstr with Some s => s | None => "" end in
  toks <- Shlex.split s ;;
  Ok (flat_map split_opt toks).


(** ** Regular expressions

    [match_name] and the callbacks of [_make_find_inst_cb] call Python's
    [re] library.  The engine below is taken as a parameter; [Re] gives a
    concrete matcher for the fragment the option tables of [cli.py] use
    (literal characters, ["."], bracket classes such as ["[0-9]"], the
    postfix star, and the anchors ["^"] and ["$"]), so that examples can
    be evaluated. *)

Module Re.

Inductive atom : Type :=
| Lit (c : ascii)
| AnyChar                                  (* "." : anything but newline *)
| Class (ranges : list (ascii * ascii)).   (* "[a-bc-d...]" *)

Inductive item : Type :=
| One (a : atom)
| Star (a : atom)
| EndAnchor.                               (* "$" *)

Definition newline : ascii := "010"%char.

Definition in_range (c : ascii) (r : ascii * ascii) : bool :=
  Nat.leb (nat_of_ascii (fst r)) (nat_of_ascii c)
  && Nat.leb (nat_of_ascii c) (nat_of_ascii (snd r)).

Definition atom_ok (a : atom) (c : ascii) : bool :=
  match a with
  | Lit d => Ascii.eqb c d
  | AnyChar => negb (Ascii.eqb c newline)
  | Class ranges => existsb (in_range c) ranges
  end.

(** The inside of a bracket class, up to the closing bracket. *)
Fixpoint parse_class (p : list ascii)
  : option (list (ascii * ascii) * list ascii) :=
  match p with
  | [] => None
  | c :: rest =>
      if Ascii.eqb c "]" then Some ([], rest)
      else
        match rest with
        | d :: hi :: rest' =>
            if Ascii.eqb d "-" && negb (Ascii.eqb hi "]") then
              match parse_class rest' with
              | Some (rs, k) => Some ((c, hi) :: rs, k)
              | None => None
              end
            else
              match parse_class rest with
              | Some (rs, k) => Some ((c, c) :: rs, k)
              | None => None
              end
        | _ =>
            match parse_class rest with
            | Some (rs, k) => Some ((c, c) :: rs, k)
            | None => None
            end
        end
  end.

Definition special : string := "\()|+?{}^*".

Definition quantify (a : atom) (rest : list ascii) : item * list ascii :=
  match rest with
  | c :: rest' => if Ascii.eqb c "*" then (Star a, rest') else (One a, rest)
  | [] => (One a, rest)
  end.

(** [None] on syntax outside the fragment. *)
Fixpoint parse (fuel : nat) (p : list ascii) : option (list item) :=
  match fuel with
  | O => match p with [] => Some [] | _ => None end
  | S fuel' =>
      match p with
      | [] => Some []
      | c :: rest =>
          if Ascii.eqb c "$" then
            match rest with [] => Some [EndAnchor] | _ => None end
          else if PyStr.mem c special then None
          else
            let atom_rest :=
              if Ascii.eqb c "." then Some (AnyChar, rest)
              else if Ascii.eqb c "[" then
                match parse_class rest with
                | Some (rs, k) => Some (Class rs, k)
                | None => None
                end
              else Some (Lit c, rest) in
            match atom_rest with
            | None => None
            | Some (a, k) =>
                let (it, k') := quantify a k in
                match parse fuel' k' with
                | Some its => Some (it :: its)
                | None => None
                end
            end
      end
  end.

Definition at_end (s : list ascii) : bool :=
  match s with
  | [] => true
  | [c] => Ascii.eqb c newline
  | _ => false
  end.

(** All the ways [items] can match a prefix of [s], as the remaining
    inputs, in the order a backtracking matcher tries them (a star is
    greedy). *)
Fixpoint run (items : list item) (s : list ascii) {struct items}
  : list (list ascii) :=
  match items with
  | [] => [s]
  | EndAnchor :: r => if at_end s then run r s else []
  | One a :: r =>
      match s with
      | c :: s' => if atom_ok a c then run r s' else []
      | [] => []
      end
  | Star a :: r =>
      (fix star (s : list ascii) : list (list ascii) :=
         match s with
         | c :: s' => (if atom_ok a c then star s' else []) ++ run r s
         | [] => run r s
         end) s
  end.

Definition compile (pattern : string) : option (list item) :=
  let p := list_ascii_of_string pattern in
  let p := match p with
           | c :: rest => if Ascii.eqb c "^" then rest else p
           | [] => p
           end in
  parse (List.length p) p.

(** [re.match(pattern, subject) is not None] *)
Definition match_ (pattern subject : string) : bool :=
  match compile pattern with
  | Some items =>
      match run items (list_ascii_of_string subject) with
      | [] => false
      | _ :: _ => true
      end
  | None => false
  end.

Definition is_digit (c : ascii) : bool :=
  Nat.leb 48 (nat_of_ascii c) && Nat.leb (nat_of_ascii c) 57.

(** [int(d)] for the longest run of digits heading [s], given the
    value [acc] of the digits already read. *)
Fixpoint read_int (acc : nat) (s : list ascii) : nat :=
  match s with
  | c :: s' =>
      if is_digit c then read_int (10 * acc + (nat_of_ascii c - 48)) s'
      else acc
  | [] => acc
  end.

Definition starts_with_digit (s : list ascii) : bool :=
  match s with c :: _ => is_digit c | [] => false end.

Fixpoint search_from (items : list item) (s : list ascii) : option nat :=
  match find starts_with_digit (run items s) with
  | Some k => Some (read_int 0 k)
  | None =>
      match s with
      | _ :: s' => search_from items s'
      | [] => None
      end
  end.

(** [reg = re.search(r"%s(\d+)" % cliarg, key)], then
    [int(reg.groups()[0])]; [None] when there is no match. *)
Definition search_index (cliarg key : string) : option nat :=
  match parse (String.length cliarg) (list_ascii_of_string cliarg) with
  | Some items => search_from items (list_ascii_of_string key)
  | None => None
  end.

End Re.

(** ** Values and the target object graph *)

(** The value carried by a bound argument and stored in attributes. *)
Inductive pyval : Type :=
| PNone
| PStr (s : string)
| PBool (b : bool).

Definition pyval_eqb (a b : pyval) : bool :=
  match a, b with
  | PNone, PNone => true
  | PStr x, PStr y => String.eqb x y
  | PBool x, PBool y => Bool.eqb x y
  | _, _ => false
  end.

(** Association lists keyed by strings; [assoc_set] is item assignment
    on an ordered dictionary: an existing key keeps its position. *)
Fixpoint assoc_get {A : Type} (k : string) (l : list (string * A))
  : option A :=
  match l with
  | [] => None
  | (k', v) :: l' => if String.eqb k k' then Some v else assoc_get k l'
  end.

Fixpoint assoc_set {A : Type} (k : string) (v : A) (l : list (string * A))
  : list (string * A) :=
  match l with
  | [] => [(k, v)]
  | (k', v') :: l' =>
      if String.eqb k k' then (k, v) :: l' else (k', v') :: assoc_set k v l'
  end.

(** [d.pop(k)] without the value: the first entry for [k] removed. *)
Fixpoint assoc_del {A : Type} (k : string) (l : list (string * A))
  : list (string * A) :=
  match l with
  | [] => []
  | (k', v') :: l' =>
      if String.eqb k k' then l' else (k', v') :: assoc_del k l'
  end.

Definition keys {A : Type} (l : list (string * A)) : list string :=
  map fst l.

Fixpoint list_set {A : Type} (l : list A) (i : nat) (x : A) : list A :=
  match l, i with
  | [], _ => []
  | _ :: l', O => x :: l'
  | y :: l', S i' => y :: list_set l' i' x
  end.

(** Modelled from the spec: the target object graph.  The virtinst
    objects the engine mutates are declared outside [cli.py]; the spec
    gives them path-based get/set of attributes, and for a repeating
    collection a current length, indexing, and a create-new-child
    operation.  An object has attributes, keyed by their path, and
    repeating collections; each collection knows the default entry that
    [add_new] appends. *)
Inductive obj : Type :=
| Obj (props : list (string * pyval))
      (lists : list (string * (obj * list obj))).

Definition props (o : obj) : list (string * pyval) :=
  match o with Obj p _ => p end.

Definition lists (o : obj) : list (string * (obj * list obj)) :=
  match o with Obj _ l => l end.

(** A reference to an object of the graph: the path from the root, as
    (collection name, index) steps.  Python hands such objects around by
    reference; a sub-object found through a reference is the one stored
    in the graph. *)
Definition ref : Type := list (string * nat).

(** Modelled from the spec: [util.get_prop_path], [util.set_prop_path]
    and the list operations of the graph ([len], indexing, [add_new]),
    which live outside [cli.py].  A missing attribute is an
    [AttributeError], an index past the end an [IndexError]. *)
Module Graph.

Fixpoint resolve (o : obj) (r : ref) : option obj :=
  match r with
  | [] => Some o
  | (l, i) :: r' =>
      match assoc_get l (lists o) with
      | Some (_, items) =>
          match nth_error items i with
          | Some c => resolve c r'
          | None => None
          end
      | None => None
      end
  end.

Fixpoint update (o : obj) (r : ref) (f : obj -> res obj) : res obj :=
  match r with
  | [] => f o
  | (l, i) :: r' =>
      match assoc_get l (lists o) with
      | Some (proto, items) =>
          match nth_error items i with
          | Some c =>
              c' <- update c r' f ;;
              Ok (Obj (props o)
                      (assoc_set l (proto, list_set items i c') (lists o)))
          | None => Raise IndexError
          end
      | None => Raise (AttributeError l)
      end
  end.

Definition deref (heap : obj) (inst : option ref) : res obj :=
  match inst with
  | None => Raise (AttributeError "NoneType")
  | Some r =>
      match resolve heap r with
      | Some o => Ok o
      | None => Raise IndexError
      end
  end.

(** [util.get_prop_path(inst, propname)] *)
Definition get_prop_path (heap : obj) (inst : option ref)
    (propname : option string) : res pyval :=
  o <- deref heap inst ;;
  match propname with
  | None => Raise (AttributeError "NoneType")
  | Some p =>
      match assoc_get p (props o) with
      | Some v => Ok v
      | None => Raise (AttributeError p)
      end
  end.

(** [util.set_prop_path(inst, propname, val)] *)
Definition set_prop_path (heap : obj) (inst : option ref)
    (propname : option string) (val : pyval) : res obj :=
  match inst, propname with
  | Some r, Some p =>
      update heap r (fun o =>
        match assoc_get p (props o) with
        | Some _ => Ok (Obj (assoc_set p val (props o)) (lists o))
        | None => Raise (AttributeError p)
        end)
  | _, _ => Raise (AttributeError "NoneType")
  end.

(** [getattr(inst, list_propname)], the items of the collection *)
Definition get_list (heap : obj) (inst : option ref)
    (list_propname : string) : res (list obj) :=
  o <- deref heap inst ;;
  match assoc_get list_propname (lists o) with
  | Some (_, items) => Ok items
  | None => Raise (AttributeError list_propname)
  end.

(** [getattr(inst, list_propname).add_new()] *)
Definition add_new (heap : obj) (inst : option ref)
    (list_propname : string) : res obj :=
  match inst with
  | None => Raise (AttributeError "NoneType")
  | Some r =>
      update heap r (fun o =>
        match assoc_get list_propname (lists o) with
        | Some (proto, items) =>
            Ok (Obj (props o)
                    (assoc_set list_propname (proto, items ++ [proto])
                               (lists o)))
        | None => Raise (AttributeError list_propname)
        end)
  end.

End Graph.

(** ** Boolean normalization *)

Definition tvalues : list string := ["y"; "yes"; "1"; "true"; "t"; "on"].
Definition fvalues : list string := ["n"; "no"; "0"; "false"; "f"; "off"].

(** [_raw_on_off_convert(s)]: [True], [False] or [None]. *)
Definition _raw_on_off_convert (s : option string) : option bool :=
  let s := PyStr.lower (match s with Some x => x | None => "" end) in
  if PyStr.in_list s tvalues then Some true
  else if PyStr.in_list s fvalues then Some false
  else None.

(** [_on_off_convert(key, val)] *)
Definition _on_off_convert (key : string) (val : option string)
  : res (option bool) :=
  match val with
  | None => Ok None
  | Some _ =>
      match _raw_on_off_convert val with
      | Some b => Ok (Some b)
      | None => Raise (SystemExit (MustBeYesOrNo key))
      end
  end.

(** ** Argument descriptors *)

(** What a callback can read of the parser it is called by. *)
Record parser_view : Type := {
  pv_optstr : option string;
  pv_guest_propname : option string;
  pv_cli_arg_name : string;
  pv_optdict : list (string * option string)
}.

(** What a callback can read of the bound argument it is called for. *)
Record arginfo : Type := {
  ai_key : string;
  ai_cliname : string;
  ai_propname : option string
}.

(** [cb(parser, inst, val, virtarg)]: mutates the graph. *)
Definition cb_t : Type :=
  parser_view -> obj -> option ref -> pyval -> arginfo -> res obj.

(** [lookup_cb(parser, inst, val, virtarg)]: the result of the match. *)
Definition lookup_cb_t : Type :=
  parser_view -> obj -> option ref -> pyval -> arginfo -> res pyval.

(** [find_inst_cb(parser, inst, val, virtarg, can_edit)]: the object to
    work on, [None] when there is none. *)
Definition find_inst_cb_t : Type :=
  parser_view -> obj -> option ref -> pyval -> arginfo -> bool ->
  res (obj * option ref).

Record _VirtCLIArgumentStatic : Type := {
  cliname : string;
  propname : option string;
  cb : option cb_t;
  can_comma : option bool;
  ignore_default : bool;
  aliases : list string;
  is_onoff : bool;
  lookup_cb : option lookup_cb_t;
  find_inst_cb : option find_inst_cb_t
}.

(** The [lookup_cb] argument of the constructor: the default [-1], an
    explicit [None], or a callback. *)
Inductive lookup_arg : Type :=
| LookupUnspecified
| LookupNone
| LookupCb (f : lookup_cb_t).

(** The arguments of [_VirtCLIArgumentStatic.__init__]. *)
Record argspec : Type := {
  s_cliname : string;
  s_propname : option string;
  s_cb : option cb_t;
  s_can_comma : option bool;
  s_ignore_default : bool;
  s_aliases : list string;
  s_is_onoff : bool;
  s_lookup_cb : lookup_arg;
  s_find_inst_cb : option find_inst_cb_t
}.

(** [cliname, propname] with every keyword argument at its default. *)
Definition positional (cliname : string) (propname : option string)
  : argspec :=
  {| s_cliname := cliname; s_propname := propname; s_cb := None;
     s_can_comma := None; s_ignore_default := false; s_aliases := [];
     s_is_onoff := false; s_lookup_cb := LookupUnspecified;
     s_find_inst_cb := None |}.

(** Truth value of [propname]: neither [None] nor empty. *)
Definition has_propname (p : option string) : bool :=
  match p with Some s => PyStr.truthy s | None => false end.

Definition is_some {A : Type} (o : option A) : bool :=
  match o with Some _ => true | None => false end.

Definition is_unspecified (l : lookup_arg) : bool :=
  match l with LookupUnspecified => true | _ => false end.

Definition _VirtCLIArgumentStatic__init__ (a : argspec)
  : res _VirtCLIArgumentStatic :=
  if negb (has_propname (s_propname a)) && negb (is_some (s_cb a)) then
    Raise (RuntimeError "programming error: propname or cb must be specified.")
  else if negb (has_propname (s_propname a))
          && is_unspecified (s_lookup_cb a) then
    Raise (RuntimeError
      "programming error: propname is None but lookup_cb is not specified.")
  else
    Ok {| cliname := s_cliname a;
          propname := s_propname a;
          cb := s_cb a;
          can_comma := s_can_comma a;
          ignore_default := s_ignore_default a;
          aliases := s_aliases a;
          is_onoff := s_is_onoff a;
          lookup_cb := match s_lookup_cb a with
                       | LookupCb f => Some f
                       | LookupNone | LookupUnspecified => None
                       end;
          find_inst_cb := s_find_inst_cb a |}.

(** ** Bound arguments *)

Record _VirtCLIArgument : Type := {
  val : pyval;
  key : string;
  _virtarg : _VirtCLIArgumentStatic
}.

Definition info (a : _VirtCLIArgument) : arginfo :=
  {| ai_key := key a;
     ai_cliname := cliname (_virtarg a);
     ai_propname := propname (_virtarg a) |}.

Definition _VirtCLIArgument__init__ (virtarg : _VirtCLIArgumentStatic)
    (key : string) (val : option string) : res _VirtCLIArgument :=
  match val with
  | None => Raise (RuntimeError ("Option '" ++ key ++ "' had no value set."))
  | Some v =>
      let val := if String.eqb v "" then None else Some v in
      val <- (if is_onoff virtarg then
                b <- _on_off_convert key val ;;
                Ok (match b with Some b => PBool b | None => PNone end)
              else
                Ok (match val with Some s => PStr s | None => PNone end)) ;;
      Ok {| val := val; key := key; _virtarg := virtarg |}
  end.

(** [parse_param(parser, inst)] *)
Definition parse_param (parser : parser_view) (self : _VirtCLIArgument)
    (heap : obj) (inst : option ref) : res obj :=
  if pyval_eqb (val self) (PStr "default") && ignore_default (_virtarg self)
  then Ok heap
  else
    '(heap, inst) <-
       match find_inst_cb (_virtarg self) with
       | Some f => f parser heap inst (val self) (info self) true
       | None => Ok (heap, inst)
       end ;;
    _ <- (if has_propname (propname (_virtarg self)) then
            match Graph.get_prop_path heap inst (propname (_virtarg self)) with
            | Raise (AttributeError _) =>
                Raise (RuntimeError
                         "programming error: obj does not have member")
            | r => r
            end
          else Ok PNone) ;;
    match cb (_virtarg self) with
    | Some f => f parser heap inst (val self) (info self)
    | None =>
        Graph.set_prop_path heap inst (propname (_virtarg self)) (val self)
    end.

(** The end of [lookup_param], once the object to compare is known. *)
Definition lookup_compare (parser : parser_view) (self : _VirtCLIArgument)
    (heap : obj) (inst : option ref) : res (obj * pyval) :=
  match lookup_cb (_virtarg self) with
  | Some f =>
      r <- f parser heap inst (val self) (info self) ;;
      Ok (heap, r)
  | None =>
      v <- Graph.get_prop_path heap inst (propname (_virtarg self)) ;;
      Ok (heap, PBool (pyval_eqb v (val self)))
  end.

(** [lookup_param(parser, inst)]: the graph, which a [find_inst_cb] may
    have touched, and the returned value. *)
Definition lookup_param (parser : parser_view) (self : _VirtCLIArgument)
    (heap : obj) (inst : option ref) : res (obj * pyval) :=
  if negb (has_propname (propname (_virtarg self)))
     && negb (is_some (lookup_cb (_virtarg self)))
  then Raise (RuntimeError "Don't know how to match device type property")
  else
    match find_inst_cb (_virtarg self) with
    | Some f =>
        '(heap, inst) <- f parser heap inst (val self) (info self) false ;;
        match inst with
        | None => Ok (heap, PBool false)
        | Some _ => lookup_compare parser self heap inst
        end
    | None => lookup_compare parser self heap inst
    end.

(** ** The engine, over a regular-expression library *)

Section Engine.

(** [re.match(pattern, s) is not None] *)
Variable re_match : string -> string -> bool.

(** [re.search(r"%s(\d+)" % cliarg, key)] followed by
    [int(reg.groups()[0])]; [None] when the search finds nothing. *)
Variable re_search_index : string -> string -> option nat.

(** [match_name(cliname)]: some name of the descriptor, the canonical
    one or an alias, matches as an anchored pattern. *)
Definition match_name (self : _VirtCLIArgumentStatic) (name : string)
  : bool :=
  existsb (fun argname => re_match ("^" ++ argname ++ "$")%string name)
          (cliname self :: aliases self).

(** *** The dictionary builder *)

(** An [OrderedDict] from option names to raw values. *)
Definition optdict_t : Type := list (string * option string).

Definition _lookup_virtarg (virtargs : list _VirtCLIArgumentStatic)
    (name : string) : option _VirtCLIArgumentStatic :=
  find (fun virtarg => match_name virtarg name) virtargs.

(** [_consume_comma_arg(commaopt)]: the updated [commaopt] and what is
    left of [opttuples].  [commaopt[1] += ...] on a [None] value is a
    [TypeError]. *)
Fixpoint _consume_comma_arg (virtargs : list _VirtCLIArgumentStatic)
    (commaopt : opttuple) (opttuples : list opttuple)
  : res (opttuple * list opttuple) :=
  match opttuples with
  | [] => Ok (commaopt, [])
  | (name, val) :: rest =>
      if is_some (_lookup_virtarg virtargs name) then
        Ok (commaopt, opttuples)
      else
        match snd commaopt with
        | None => Raise (TypeError "unsupported operand type(s) for +=")
        | Some cur =>
            let cur := (cur ++ "," ++ name)%string in
            let cur := match val with
                       | Some v =>
                           if PyStr.truthy v then (cur ++ "=" ++ v)%string else cur
                       | None => cur
                       end in
            _consume_comma_arg virtargs (fst commaopt, Some cur) rest
        end
  end.

(** "Splice in remove_first names upfront". *)
Fixpoint splice_remove_first (opttuples : list opttuple)
    (remove_first : list string) : list opttuple :=
  match opttuples with
  | (name, None) :: rest =>
      match remove_first with
      | first :: remove_first' =>
          (first, Some name) :: splice_remove_first rest remove_first'
      | [] => opttuples
      end
  | _ => opttuples
  end.

Definition truthy_flag (b : option bool) : bool :=
  match b with Some true => true | _ => false end.

(** The main [while opttuples] loop. *)
Fixpoint build_optdict (fuel : nat)
    (virtargs : list _VirtCLIArgumentStatic)
    (opttuples : list opttuple) (optdict : optdict_t) : res optdict_t :=
  match opttuples with
  | [] => Ok optdict
  | (name, val) :: rest =>
      match fuel with
      | O => Raise OutOfFuel
      | S fuel' =>
          match _lookup_virtarg virtargs name with
          | None =>
              build_optdict fuel' virtargs rest (assoc_set name val optdict)
          | Some virtarg =>
              if truthy_flag (can_comma virtarg) then
                '(commaopt, rest') <-
                   _consume_comma_arg virtargs (name, val) rest ;;
                build_optdict fuel' virtargs rest'
                  (assoc_set (fst commaopt) (snd commaopt) optdict)
              else
                build_optdict fuel' virtargs rest
                  (assoc_set name val optdict)
          end
      end
  end.

Definition _parse_optstr_to_dict (optstr : option string)
    (virtargs : list _VirtCLIArgumentStatic) (remove_first : list string)
  : res optdict_t :=
  opttuples <- parse_optstr_tuples optstr ;;
  let opttuples := splice_remove_first opttuples remove_first in
  build_optdict (List.length opttuples) virtargs opttuples [].

(** *** Indexed sub-objects *)

(** [while len(getattr(inst, list_propname)) < (num + 1): add_new()] *)
Fixpoint grow (fuel : nat) (heap : obj) (inst : option ref)
    (list_propname : string) (num : nat) : res obj :=
  items <- Graph.get_list heap inst list_propname ;;
  if Nat.ltb (List.length items) (num + 1) then
    match fuel with
    | O => Raise OutOfFuel
    | S fuel' =>
        heap <- Graph.add_new heap inst list_propname ;;
        grow fuel' heap inst list_propname num
    end
  else Ok heap.

Definition _make_find_inst_cb (cliarg list_propname : string)
  : find_inst_cb_t :=
  fun parser heap inst val virtarg can_edit =>
    let num := match re_search_index cliarg (ai_key virtarg) with
               | Some n => n
               | None => 0
               end in
    heap <- (if can_edit then grow (num + 1) heap inst list_propname num
             else Ok heap) ;;
    items <- Graph.get_list heap inst list_propname ;;
    match nth_error items num with
    | Some _ =>
        Ok (heap,
            match inst with
            | Some r => Some (r ++ [(list_propname, num)])
            | None => None
            end)
    | None => if negb can_edit then Ok (heap, None) else Raise IndexError
    end.

(** *** The family parser *)

(** The class attributes of a [VirtCLIParser] subclass. *)
Record VirtCLIParser_class : Type := {
  guest_propname : option string;
  remove_first : list string;
  stub_none : bool;
  cli_arg_name : string;
  _virtargs : list _VirtCLIArgumentStatic
}.

(** [cli_flag_name()] *)
Definition flag_name (cli_arg_name : string) : string :=
  ("--" ++ PyStr.replace_char "_" "-" cli_arg_name)%string.

Definition cli_flag_name (cls : VirtCLIParser_class) : string :=
  flag_name (cli_arg_name cls).

(** Modelled from the spec: [inst.clear(leave_stub=...)] of the
    objects of the graph, declared outside [cli.py]; "clear existing
    configuration" resets every attribute and empties every
    collection.  The stub only concerns the serialized form, which the
    graph does not carry. *)
Definition clear (leave_stub : bool) (o : obj) : res obj :=
  Ok (Obj (map (fun kv => (fst kv, PNone)) (props o))
          (map (fun kl => (fst kl, (fst (snd kl), []))) (lists o))).

(** [_clearxml_cb(self, inst, val, virtarg)] *)
Definition _clearxml_cb : cb_t :=
  fun parser heap inst val virtarg =>
    if negb (has_propname (pv_guest_propname parser)) then
      Raise (RuntimeError ("Don't know how to clearxml for "
                           ++ flag_name (pv_cli_arg_name parser)))
    else if negb (pyval_eqb val (PBool true)) then Ok heap
    else
      match pv_optstr parser, inst with
      | Some optstr, Some r =>
          Graph.update heap r (clear (PyStr.mem "," optstr))
      | None, _ => Raise (TypeError "argument of type 'NoneType'")
      | _, None => Raise (AttributeError "clear")
      end.

(** The descriptor [add_arg] puts in front of every registry. *)
Definition clearxml_args : argspec :=
  {| s_cliname := "clearxml"; s_propname := None;
     s_cb := Some _clearxml_cb; s_can_comma := None;
     s_ignore_default := false; s_aliases := [];
     s_is_onoff := true; s_lookup_cb := LookupNone;
     s_find_inst_cb := None |}.

(** [add_arg(cls, *args, **kwargs)]: the registry afterwards, and
    whether a constructor raised. *)
Definition add_arg (virtargs : list _VirtCLIArgumentStatic) (a : argspec)
  : list _VirtCLIArgumentStatic * res unit :=
  let first :=
    match virtargs with
    | [] => c <- _VirtCLIArgumentStatic__init__ clearxml_args ;; Ok [c]
    | _ :: _ => Ok virtargs
    end in
  match first with
  | Raise e => (virtargs, Raise e)
  | Ok virtargs =>
      match _VirtCLIArgumentStatic__init__ a with
      | Ok s => (virtargs ++ [s], Ok tt)
      | Raise e => (virtargs, Raise e)
      end
  end.

(** A run of [add_arg] calls, as in [_init_class]; stops at the first
    that raises. *)
Fixpoint add_args (virtargs : list _VirtCLIArgumentStatic)
    (l : list argspec) : list _VirtCLIArgumentStatic * res unit :=
  match l with
  | [] => (virtargs, Ok tt)
  | a :: l' =>
      match add_arg virtargs a with
      | (virtargs, Ok _) => add_args virtargs l'
      | (virtargs, Raise e) => (virtargs, Raise e)
      end
  end.

(** *** Introspection *)

Definition _sortkey (virtarg : _VirtCLIArgumentStatic) : string :=
  let prefix := "" in
  let prefix :=
    if String.eqb (cliname virtarg) "clearxml" then "0" else prefix in
  let prefix :=
    if PyStr.startswith "address." (cliname virtarg) then "1"
    else prefix in
  (prefix ++ cliname virtarg)%string.

(** [sorted(l, key=key)]: a stable sort, comparing keys with [<]. *)
Fixpoint insert_by {A : Type} (key : A -> string) (x : A) (l : list A)
  : list A :=
  match l with
  | [] => [x]
  | y :: l' =>
      if PyStr.ltb (key y) (key x) then y :: insert_by key x l'
      else x :: y :: l'
  end.

Definition sorted {A : Type} (key : A -> string) (l : list A) : list A :=
  fold_right (insert_by key) [] l.

(** The names in the order [print_introspection] prints them. *)
Definition introspection_names (cls : VirtCLIParser_class) : list string :=
  map cliname (sorted _sortkey (_virtargs cls)).

(** [print_introspection()]: the lines printed. *)
Definition print_introspection (cls : VirtCLIParser_class) : list string :=
  [(cli_flag_name cls ++ " options:")%string]
  ++ map (fun name => ("  " ++ name)%string) (introspection_names cls)
  ++ [""].

(** *** Binding *)

(** A [VirtCLIParser] instance: its class, the raw option string and
    the dictionary built from it by [__init__]. *)
Record VirtCLIParser : Type := {
  cls : VirtCLIParser_class;
  optstr : option string;
  optdict : optdict_t
}.

Definition VirtCLIParser__init__ (cls : VirtCLIParser_class)
    (optstr : option string) : res VirtCLIParser :=
  optdict <- _parse_optstr_to_dict optstr (_virtargs cls)
                                   (remove_first cls) ;;
  Ok {| cls := cls; optstr := optstr; optdict := optdict |}.

Definition view (self : VirtCLIParser) : parser_view :=
  {| pv_optstr := optstr self;
     pv_guest_propname := guest_propname (cls self);
     pv_cli_arg_name := cli_arg_name (cls self);
     pv_optdict := optdict self |}.

(** The inner loop of [_optdict_to_param_list], over the snapshot
    [list(optdict.keys())]: a key the descriptor matches is popped and
    bound. *)
Fixpoint claim_keys (virtargstatic : _VirtCLIArgumentStatic)
    (snapshot : list string) (optdict : optdict_t)
    (ret : list _VirtCLIArgument)
  : res (list _VirtCLIArgument * optdict_t) :=
  match snapshot with
  | [] => Ok (ret, optdict)
  | k :: snapshot' =>
      if match_name virtargstatic k then
        match assoc_get k optdict with
        | None => Raise (KeyError k)
        | Some v =>
            arginst <- _VirtCLIArgument__init__ virtargstatic k v ;;
            claim_keys virtargstatic snapshot' (assoc_del k optdict)
                       (ret ++ [arginst])
        end
      else claim_keys virtargstatic snapshot' optdict ret
  end.

(** The outer loop, over the registry. *)
Fixpoint claim_all (virtargs : list _VirtCLIArgumentStatic)
    (optdict : optdict_t) (ret : list _VirtCLIArgument)
  : res (list _VirtCLIArgument * optdict_t) :=
  match virtargs with
  | [] => Ok (ret, optdict)
  | virtargstatic :: virtargs' =>
      '(ret, optdict) <-
         claim_keys virtargstatic (keys optdict) optdict ret ;;
      claim_all virtargs' optdict ret
  end.

(** [_optdict_to_param_list(optdict)]: the bound arguments, and
    [optdict] as the pops have left it. *)
Definition _optdict_to_param_list (self : VirtCLIParser)
    (optdict : optdict_t) : res (list _VirtCLIArgument * optdict_t) :=
  claim_all (_virtargs (cls self)) optdict [].

(** [_check_leftover_opts(optdict)] *)
Definition _check_leftover_opts (self : VirtCLIParser)
    (optdict : optdict_t) : res unit :=
  match optdict with
  | [] => Ok tt
  | _ :: _ =>
      Raise (SystemExit
               (UnknownOptions (cli_flag_name (cls self)) (keys optdict)))
  end.

(** [for param in ...: param.parse_param(self, inst)] *)
Fixpoint parse_params (parser : parser_view)
    (params : list _VirtCLIArgument) (heap : obj) (inst : option ref)
  : res obj :=
  match params with
  | [] => Ok heap
  | param :: params' =>
      heap <- parse_param parser param heap inst ;;
      parse_params parser params' heap inst
  end.

(** [_parse(inst)] *)
Definition _parse (self : VirtCLIParser) (heap : obj) (inst : option ref)
  : res obj :=
  let optdict := optdict self in
  '(params, optdict) <- _optdict_to_param_list self optdict ;;
  heap <- parse_params (view self) params heap inst ;;
  _ <- _check_leftover_opts self optdict ;;
  Ok heap.

(** The [for param in ...] loop of [lookup_child_from_option_string]:
    [valid] turns false, and the loop stops, at the first parameter
    whose lookup returns [False]. *)
Fixpoint lookup_params (parser : parser_view)
    (params : list _VirtCLIArgument) (heap : obj) (inst : option ref)
  : res (obj * bool) :=
  match params with
  | [] => Ok (heap, true)
  | param :: params' =>
      '(heap, paramret) <- lookup_param parser param heap inst ;;
      if pyval_eqb paramret (PBool false) then Ok (heap, false)
      else lookup_params parser params' heap inst
  end.

(** The [for inst in objlist] loop. *)
Fixpoint lookup_children (self : VirtCLIParser) (objlist : list ref)
    (heap : obj) (ret : list ref) : res (obj * list ref) :=
  match objlist with
  | [] => Ok (heap, ret)
  | inst :: objlist' =>
      let optdict := optdict self in
      '(params, optdict) <- _optdict_to_param_list self optdict ;;
      '(heap, valid) <- lookup_params (view self) params heap (Some inst) ;;
      let ret := if valid : bool then ret ++ [inst] else ret in
      _ <- _check_leftover_opts self optdict ;;
      lookup_children self objlist' heap ret
  end.

(** [except Exception as e: fail("Error: ...")]: [SystemExit] is not
    an [Exception] and passes through. *)
Definition wrap_errors {A : Type} (self : VirtCLIParser) (m : res A)
  : res A :=
  match m with
  | Ok a => Ok a
  | Raise (SystemExit f) => Raise (SystemExit f)
  | Raise OutOfFuel => Raise OutOfFuel
  | Raise e =>
      Raise (SystemExit (ErrorIn (cli_flag_name (cls self)) (optstr self) e))
  end.

(** [lookup_child_from_option_string()], given the candidates
    [util.listify(self.lookup_prop(self.guest))]. *)
Definition lookup_child_from_option_string (self : VirtCLIParser)
    (heap : obj) (objlist : list ref) : res (obj * list ref) :=
  wrap_errors self (lookup_children self objlist heap []).

End Engine.

(** * Statements and example families *)

(** Some descriptor of the registry matches the name: the test
    [if _lookup_virtarg(cliname)]. *)
Definition known_name (re_match : string -> string -> bool)
    (virtargs : list _VirtCLIArgumentStatic) (name : string) : bool :=
  existsb (fun virtarg => match_name re_match virtarg name) virtargs.

(** The reading of boolean normalization under which every value outside
    the two token lists is an error. *)
Definition every_other_value_fails : Prop :=
  forall (d : _VirtCLIArgumentStatic) (k v : string),
    is_onoff d = true ->
    PyStr.in_list (PyStr.lower v) tvalues = false ->
    PyStr.in_list (PyStr.lower v) fvalues = false ->
    exists e, _VirtCLIArgument__init__ d k (Some v) = Raise e.

(** A boolean-normalized attribute descriptor, as the option tables
    declare them: [add_arg("relabel", "relabel", is_onoff=True)]. *)
Definition relabel_static : _VirtCLIArgumentStatic :=
  {| cliname := "relabel"; propname := Some "relabel"; cb := None;
     can_comma := None; ignore_default := false; aliases := [];
     is_onoff := true; lookup_cb := None; find_inst_cb := None |}.


(** The keys in the order the registry claims them: descriptor after
    descriptor, each taking, in mapping order, the keys it matches among
    those no earlier descriptor has taken. *)
Fixpoint claimed_in_registry_order (re_match : string -> string -> bool)
    (virtargs : list _VirtCLIArgumentStatic) (ks : list string)
  : list string :=
  match virtargs with
  | [] => []
  | virtarg :: virtargs' =>
      filter (match_name re_match virtarg) ks
      ++ claimed_in_registry_order re_match virtargs'
           (filter (fun k => negb (match_name re_match virtarg k)) ks)
  end.

(** The keys no descriptor of the registry matches, in mapping order. *)
Definition unknown_keys (re_match : string -> string -> bool)
    (virtargs : list _VirtCLIArgumentStatic) (ks : list string)
  : list string :=
  filter (fun k => negb (known_name re_match virtargs k)) ks.

(** The descriptor the constructor builds from [clearxml_args]. *)
Definition clearxml_static : _VirtCLIArgumentStatic :=
  {| cliname := "clearxml"; propname := None; cb := Some _clearxml_cb;
     can_comma := None; ignore_default := false; aliases := [];
     is_onoff := true; lookup_cb := None; find_inst_cb := None |}.

(** The reading under which registration rejects a descriptor that
    matches a name an already registered descriptor matches. *)
Definition ambiguity_rejected_at_registration
    (re_match : string -> string -> bool) : Prop :=
  forall (virtargs : list _VirtCLIArgumentStatic) (a : argspec)
         (d : _VirtCLIArgumentStatic) (name : string),
    _VirtCLIArgumentStatic__init__ a = Ok d ->
    known_name re_match virtargs name = true ->
    match_name re_match d name = true ->
    exists e, snd (add_arg virtargs a) = Raise e.

(** The reading under which no registered descriptor lacks both an
    attribute path and a lookup callback. *)
Definition equality_test_always_registered : Prop :=
  forall (virtargs : list _VirtCLIArgumentStatic) (l : list argspec)
         (d : _VirtCLIArgumentStatic),
    In d (fst (add_args virtargs l)) ->
    (forall d', In d' virtargs ->
                has_propname (propname d') || is_some (lookup_cb d') = true) ->
    has_propname (propname d) || is_some (lookup_cb d) = true.

(** *** Example families, after the option tables of [cli.py] *)

Definition with_onoff (a : argspec) : argspec :=
  {| s_cliname := s_cliname a; s_propname := s_propname a; s_cb := s_cb a;
     s_can_comma := s_can_comma a; s_ignore_default := s_ignore_default a;
     s_aliases := s_aliases a; s_is_onoff := true;
     s_lookup_cb := s_lookup_cb a; s_find_inst_cb := s_find_inst_cb a |}.

Definition with_can_comma (a : argspec) : argspec :=
  {| s_cliname := s_cliname a; s_propname := s_propname a; s_cb := s_cb a;
     s_can_comma := Some true; s_ignore_default := s_ignore_default a;
     s_aliases := s_aliases a; s_is_onoff := s_is_onoff a;
     s_lookup_cb := s_lookup_cb a; s_find_inst_cb := s_find_inst_cb a |}.

Definition with_find_inst_cb (f : find_inst_cb_t) (a : argspec) : argspec :=
  {| s_cliname := s_cliname a; s_propname := s_propname a; s_cb := s_cb a;
     s_can_comma := s_can_comma a; s_ignore_default := s_ignore_default a;
     s_aliases := s_aliases a; s_is_onoff := s_is_onoff a;
     s_lookup_cb := s_lookup_cb a; s_find_inst_cb := Some f |}.

(** [ParserSecurity]: type, model, relabel, label, baselabel. *)
Definition ParserSecurity_args : list argspec :=
  [ positional "type" (Some "type");
    positional "model" (Some "model");
    with_onoff (positional "relabel" (Some "relabel"));
    with_can_comma (positional "label" (Some "label"));
    with_can_comma (positional "baselabel" (Some "baselabel")) ].

Definition ParserSecurity : VirtCLIParser_class :=
  {| guest_propname := Some "seclabels";
     remove_first := [];
     stub_none := true;
     cli_arg_name := "security";
     _virtargs := fst (add_args [] ParserSecurity_args) |}.

(** A seclabel object with nothing set. *)
Definition empty_seclabel : obj :=
  Obj [("type", PNone); ("model", PNone); ("relabel", PNone);
       ("label", PNone); ("baselabel", PNone)] [].

(** [ParserCPU.cell_find_inst_cb] *)
Definition cell_find_inst_cb : find_inst_cb_t :=
  _make_find_inst_cb Re.search_index "cell" "cells".

(** The options of [ParserCPU] for [CPU.cells], after two plain ones. *)
Definition ParserCPU_args : list argspec :=
  [ positional "mode" (Some "mode");
    positional "match" (Some "match");
    with_find_inst_cb cell_find_inst_cb
      (positional "cell[0-9]*.id" (Some "id"));
    with_find_inst_cb cell_find_inst_cb
      (with_can_comma (positional "cell[0-9]*.cpus" (Some "cpus")));
    with_find_inst_cb cell_find_inst_cb
      (positional "cell[0-9]*.memory" (Some "memory")) ].

Definition ParserCPU : VirtCLIParser_class :=
  {| guest_propname := Some "cpu";
     remove_first := ["model"];
     stub_none := false;
     cli_arg_name := "cpu";
     _virtargs := fst (add_args [] ParserCPU_args) |}.

(** The descriptor [add_arg("cell[0-9]*.id", "id", find_inst_cb=...)]
    registers. *)
Definition cell_id_static : _VirtCLIArgumentStatic :=
  {| cliname := "cell[0-9]*.id"; propname := Some "id"; cb := None;
     can_comma := None; ignore_default := false; aliases := [];
     is_onoff := false; lookup_cb := None;
     find_inst_cb := Some cell_find_inst_cb |}.

(** The bound argument for ["cell3.id=5"]. *)
Definition cell3_id_5 : _VirtCLIArgument :=
  {| val := PStr "5"; key := "cell3.id"; _virtarg := cell_id_static |}.

(** A cell with nothing set, and a CPU object without cells. *)
Definition empty_cell : obj :=
  Obj [("id", PNone); ("cpus", PNone); ("memory", PNone)] [].

Definition cpu_without_cells : obj :=
  Obj [("mode", PNone); ("match", PNone)] [("cells", (empty_cell, []))].

(** An excerpt of [ParserDisk]: two address options, three plain ones. *)
Definition ParserDisk_args : list argspec :=
  [ positional "address.type" (Some "address.type");
    positional "address.bus" (Some "address.bus");
    positional "path" (Some "path");
    positional "device" (Some "device");
    positional "bus" (Some "bus") ].

Definition ParserDisk : VirtCLIParser_class :=
  {| guest_propname := Some "devices.disk";
     remove_first := ["path"];
     stub_none := false;
     cli_arg_name := "disk";
     _virtargs := fst (add_args [] ParserDisk_args) |}.

(** Two descriptors under one name. *)
Definition path_static : _VirtCLIArgumentStatic :=
  {| cliname := "path"; propname := Some "path"; cb := None;
     can_comma := None; ignore_default := false; aliases := [];
     is_onoff := false; lookup_cb := None; find_inst_cb := None |}.

Definition source_path_static : _VirtCLIArgumentStatic :=
  {| cliname := "path"; propname := Some "source_path"; cb := None;
     can_comma := None; ignore_default := false; aliases := [];
     is_onoff := false; lookup_cb := None; find_inst_cb := None |}.

Definition TwoPaths : VirtCLIParser_class :=
  {| guest_propname := None;
     remove_first := [];
     stub_none := true;
     cli_arg_name := "two_paths";
     _virtargs := [clearxml_static; path_static; source_path_static] |}.

(** *** Comma continuation *)

(** The text a continuation token is rejoined as: [",name=value"] when
    the token carries a value, [",name"] when its value is absent. *)
Definition rejoined (t : opttuple) : string :=
  match snd t with
  | Some v => ("," ++ fst t ++ "=" ++ v)%string
  | None => ("," ++ fst t)%string
  end.

(** The rejoined text of a run of continuation tokens. *)
Fixpoint rejoin_all (l : list opttuple) : string :=
  match l with
  | [] => EmptyString
  | t :: l' => (rejoined t ++ rejoin_all l')%string
  end.

(** The value of a token is absent or not empty. *)
Definition value_not_empty (t : opttuple) : bool :=
  match snd t with
  | Some v => PyStr.truthy v
  | None => true
  end.

(** The first of the remaining tokens, if any, is for a descriptor. *)
Definition stops_absorbing (re_match : string -> string -> bool)
    (virtargs : list _VirtCLIArgumentStatic) (rest : list opttuple) : bool :=
  match rest with
  | [] => true
  | (name, _) :: _ => known_name re_match virtargs name
  end.

(** *** Introspection order *)

(** The three groups of option names the sort key sets apart. *)
Definition name_class (name : string) : nat :=
  if PyStr.startswith "address." name then 1
  else if String.eqb name "clearxml" then 0
  else 2.

(** The name starts with a character that sorts after ["1"]; every
    letter does. *)
Definition starts_after_one (name : string) : bool :=
  match name with
  | String c _ => Nat.ltb 49 (nat_of_ascii c)
  | EmptyString => false
  end.

(** [a <= b] on strings, as [not (b < a)]. *)
Definition str_le (a b : string) : Prop := PyStr.ltb b a = false.

(** The order [sorted] establishes: by key. *)
Definition key_le {A : Type} (key : A -> string) (x y : A) : Prop :=
  str_le (key x) (key y).

(** The listing under which nothing but address options follows an
    address option. *)
Definition address_options_last (names : list string) : Prop :=
  forall pre name post,
    names = pre ++ name :: post ->
    PyStr.startswith "address." name = true ->
    Forall (fun m => PyStr.startswith "address." m = true) post.

(** The listing with [clearxml] first and the address options last, for
    every family whose registry [add_arg] has filled. *)
Definition clearxml_first_address_last : Prop :=
  forall (c : VirtCLIParser_class) (a : argspec) (l : list argspec),
    _virtargs c = fst (add_args [] (a :: l)) ->
    (exists rest, introspection_names c = "clearxml" :: rest)
    /\ address_options_last (introspection_names c).

(** *** The tokenizer, as the spec words it *)

Module TokenSpec.

Definition comma : ascii := ","%char.

(** The comma-separated fields of a text without quoting, the
    field under construction being [cur]: [n] commas make [n + 1]
    fields. *)
Fixpoint fields (cur : string) (l : list ascii) : list string :=
  match l with
  | [] => [cur]
  | c :: l' =>
      if Ascii.eqb c comma then cur :: fields EmptyString l'
      else fields (Shlex.snoc cur c) l'
  end.

(** Where the scan of a raw option string stands with respect to shell
    quoting: outside any quoting, inside a quotation opened by [q], or
    right after an escape character met outside ([None]) or inside a
    quotation. *)
Inductive qmode : Type :=
| Unquoted
| Quoted (q : ascii)
| Escaped (back : option ascii).

(** The number of commas that are not inside shell quoting. *)
Fixpoint top_level_commas_from (m : qmode) (l : list ascii) : nat :=
  match l with
  | [] => 0
  | c :: l' =>
      match m with
      | Unquoted =>
          if Ascii.eqb c comma then S (top_level_commas_from Unquoted l')
          else if PyStr.mem c Shlex.escape then
            top_level_commas_from (Escaped None) l'
          else if PyStr.mem c Shlex.quotes then
            top_level_commas_from (Quoted c) l'
          else top_level_commas_from Unquoted l'
      | Quoted q =>
          if Ascii.eqb c q then top_level_commas_from Unquoted l'
          else if PyStr.mem c Shlex.escape
                  && PyStr.mem q Shlex.escapedquotes then
            top_level_commas_from (Escaped (Some q)) l'
          else top_level_commas_from (Quoted q) l'
      | Escaped None => top_level_commas_from Unquoted l'
      | Escaped (Some q) => top_level_commas_from (Quoted q) l'
      end
  end.

(** The quoting mode the lexer is in, from [self.state] and
    [escapedstate]. *)
Definition mode (st escapedstate : Shlex.state) : qmode :=
  match st with
  | Shlex.SNone | Shlex.SSpace | Shlex.SWord => Unquoted
  | Shlex.SQuote q => Quoted q
  | Shlex.SEscape _ =>
      match escapedstate with
      | Shlex.SQuote q => Escaped (Some q)
      | _ => Escaped None
      end
  end.

(** [escapedstate] is only ever [' '], ['a'] or a quote character. *)
Definition esc_ok (escapedstate : Shlex.state) : bool :=
  match escapedstate with
  | Shlex.SEscape _ | Shlex.SNone => false
  | _ => true
  end.

Definition top_level_commas (s : string) : nat :=
  top_level_commas_from Unquoted (list_ascii_of_string s).

(** The escape character. *)
Definition backslash : ascii := "\"%char.

(** The top-level fields of a raw option string: the text between two
    consecutive top-level commas, or between an end of the string and
    the nearest top-level comma, with its quoting removed.  [cur] is the
    field under construction and [m] the quoting mode of the scan.
    Inside single quotes every character is kept; inside double quotes
    an escape character only escapes itself and the double quote, and is
    kept before any other character; outside quotes the character after
    an escape character is kept, whatever it is. *)
Fixpoint top_level_fields_from (m : qmode) (cur : string) (l : list ascii)
  : list string :=
  match l with
  | [] => [cur]
  | c :: l' =>
      match m with
      | Unquoted =>
          if Ascii.eqb c comma then
            cur :: top_level_fields_from Unquoted EmptyString l'
          else if PyStr.mem c Shlex.escape then
            top_level_fields_from (Escaped None) cur l'
          else if PyStr.mem c Shlex.quotes then
            top_level_fields_from (Quoted c) cur l'
          else top_level_fields_from Unquoted (Shlex.snoc cur c) l'
      | Quoted q =>
          if Ascii.eqb c q then top_level_fields_from Unquoted cur l'
          else if PyStr.mem c Shlex.escape
                  && PyStr.mem q Shlex.escapedquotes then
            top_level_fields_from (Escaped (Some q)) cur l'
          else top_level_fields_from (Quoted q) (Shlex.snoc cur c) l'
      | Escaped None =>
          top_level_fields_from Unquoted (Shlex.snoc cur c) l'
      | Escaped (Some q) =>
          let cur' :=
            if negb (Ascii.eqb c backslash) && negb (Ascii.eqb c q)
            then Shlex.snoc cur backslash else cur in
          top_level_fields_from (Quoted q) (Shlex.snoc cur' c) l'
      end
  end.

Definition top_level_fields (s : string) : list string :=
  top_level_fields_from Unquoted EmptyString (list_ascii_of_string s).

(** No quote and no escape character. *)
Definition plain_char (c : ascii) : bool :=
  negb (PyStr.mem c Shlex.quotes) && negb (PyStr.mem c Shlex.escape).

Definition plain (s : string) : bool :=
  forallb plain_char (list_ascii_of_string s).

(** The fields of a raw option string without quoting. *)
Definition fields_of (s : string) : list string :=
  fields EmptyString (list_ascii_of_string s).

(** The fields that are not empty. *)
Definition words (cur : string) (l : list ascii) : list string :=
  filter PyStr.truthy (fields cur l).

(** A non-empty name made of characters that are neither quoting, nor
    the separator, nor ["="]. *)
Definition bare_char (c : ascii) : bool :=
  plain_char c && negb (Ascii.eqb c comma) && negb (Ascii.eqb c "=").

Definition bare_name (name : string) : bool :=
  PyStr.truthy name && forallb bare_char (list_ascii_of_string name).

(** The count the tokenizer is said to produce: one token more than
    there are top-level commas. *)
Definition one_more_than_commas : Prop :=
  forall (s : string) (toks : list opttuple),
    parse_optstr_tuples (Some s) = Ok toks ->
    List.length toks = top_level_commas s + 1.

End TokenSpec.

(** * Further statements *)

(** The text of the token a tuple was split from. *)
Definition token_text (t : opttuple) : string :=
  match snd t with
  | Some v => (fst t ++ "=" ++ v)%string
  | None => fst t
  end.

(** A character that is neither quoting nor the separator. *)
Definition word_char (c : ascii) : bool :=
  TokenSpec.plain_char c && negb (Ascii.eqb c TokenSpec.comma).

(** No single quote in the text. *)
Definition no_single_quote (s : string) : bool :=
  negb (PyStr.mem "'" s).

(** Item assignment, token after token. *)
Definition store_all (toks : list opttuple) (d : list (string * option string))
  : list (string * option string) :=
  fold_left (fun d t => assoc_set (fst t) (snd t) d) toks d.

(** The value of the last token named [k], if there is one. *)
Fixpoint last_value (k : string) (toks : list opttuple)
  : option (option string) :=
  match toks with
  | [] => None
  | (name, v) :: rest =>
      match last_value k rest with
      | Some x => Some x
      | None => if String.eqb k name then Some v else None
      end
  end.

(** A token without a value. *)
Definition bare_token (b : string) : opttuple := (b, None).

(** The tokens do not start with a token without a value. *)
Definition starts_with_value (toks : list opttuple) : bool :=
  match toks with
  | (_, None) :: _ => false
  | _ => true
  end.

(** ** Binding through plain descriptors *)

(** The descriptor assigns an attribute directly: it has an attribute
    path, no callback and no object finder. *)
Definition plain_descriptor (d : _VirtCLIArgumentStatic) : bool :=
  has_propname (propname d) && negb (is_some (cb d))
  && negb (is_some (find_inst_cb d)).

(** [parse_param] returns at once: the value is ["default"] and the
    descriptor ignores it. *)
Definition skipped (a : _VirtCLIArgument) : bool :=
  pyval_eqb (val a) (PStr "default") && ignore_default (_virtarg a).

(** The attribute path of a bound argument. *)
Definition prop_of (a : _VirtCLIArgument) : string :=
  match propname (_virtarg a) with Some p => p | None => "" end.

(** The object has the attribute the bound argument names. *)
Definition has_attribute (o : obj) (a : _VirtCLIArgument) : bool :=
  is_some (assoc_get (prop_of a) (props o)).

(** What [parse_param] needs to assign without a callback. *)
Definition assignable (o : obj) (a : _VirtCLIArgument) : bool :=
  skipped a || (plain_descriptor (_virtarg a) && has_attribute o a).

(** The value of the last bound argument that assigns attribute [p], if
    there is one. *)
Fixpoint last_assigned (p : string) (params : list _VirtCLIArgument)
  : option pyval :=
  match params with
  | [] => None
  | a :: rest =>
      match last_assigned p rest with
      | Some v => Some v
      | None =>
          if negb (skipped a) && String.eqb p (prop_of a) then Some (val a)
          else None
      end
  end.

(** The descriptor is compared by attribute equality: an attribute
    path, no match callback and no object finder. *)
Definition comparable (d : _VirtCLIArgumentStatic) : bool :=
  has_propname (propname d) && negb (is_some (lookup_cb d))
  && negb (is_some (find_inst_cb d)).

(** The attribute the bound argument names holds its value. *)
Definition attr_equal (o : obj) (a : _VirtCLIArgument) : bool :=
  match assoc_get (prop_of a) (props o) with
  | Some v => pyval_eqb v (val a)
  | None => false
  end.

(** The candidate holds the value of every bound argument. *)
Definition matches_all (heap : obj) (params : list _VirtCLIArgument)
    (inst : ref) : bool :=
  match Graph.resolve heap inst with
  | Some o => forallb (attr_equal o) params
  | None => false
  end.

(** The candidate is an object of the graph that has the attribute of
    every bound argument. *)
Definition candidate_ok (heap : obj) (params : list _VirtCLIArgument)
    (inst : ref) : bool :=
  match Graph.resolve heap inst with
  | Some o => forallb (has_attribute o) params
  | None => false
  end.

(** The index an option name carries for [_make_find_inst_cb]: the
    number found after [cliarg], [0] when there is none. *)
Definition index_in_key (re_search_index : string -> string -> option nat)
    (cliarg key : string) : nat :=
  match re_search_index cliarg key with Some n => n | None => 0 end.

(** *** Example objects for the binder *)

(** The descriptor [add_arg("bus", "bus")] registers. *)
Definition bus_static : _VirtCLIArgumentStatic :=
  {| cliname := "bus"; propname := Some "bus"; cb := None;
     can_comma := None; ignore_default := false; aliases := [];
     is_onoff := false; lookup_cb := None; find_inst_cb := None |}.

(** A disk with the attributes of the [ParserDisk] excerpt, on the given
    bus. *)
Definition disk_on (bus : pyval) : obj :=
  Obj [("address.type", PNone); ("address.bus", PNone); ("path", PNone);
       ("device", PNone); ("bus", bus)] [].

(** A guest with three disks. *)
Definition guest_three_disks : obj :=
  Obj [] [("devices.disk",
           (disk_on PNone,
            [disk_on (PStr "ide"); disk_on (PStr "virtio");
             disk_on (PStr "ide")]))].

Definition three_disks : list ref :=
  [[("devices.disk", 0)]; [("devices.disk", 1)]; [("devices.disk", 2)]].

(** The parser instance [ParserDisk("bus=ide")]. *)
Definition disk_bus_ide : VirtCLIParser :=
  {| cls := ParserDisk; optstr := Some "bus=ide";
     optdict := [("bus", Some "ide")] |}.

(** The parser instance [ParserDisk("colour=red")]. *)
Definition disk_colour_red : VirtCLIParser :=
  {| cls := ParserDisk; optstr := Some "colour=red";
     optdict := [("colour", Some "red")] |}.

(** A CPU object with two cells. *)
Definition cpu_two_cells : obj :=
  Obj [("mode", PNone); ("match", PNone)]
      [("cells",
        (empty_cell,
         [Obj [("id", PStr "0"); ("cpus", PNone); ("memory", PNone)] [];
          Obj [("id", PStr "1"); ("cpus", PNone); ("memory", PNone)] []]))].

(** ** The entry point, on an object of the caller *)

(** Modelled from the spec: [util.listify] on one object, which is not
    a list: the list that holds it. *)
Definition listify_one (inst : ref) : list ref := [inst].

Section Entry.

Variable re_match : string -> string -> bool.

(** [parse(inst)] for an [inst] the caller passes: an object of the
    graph, true as every object without [__bool__] and [__len__] is.
    The branch that looks the object up on the guest
    ([self.guest_propname and not inst]) is then not taken, [new_object]
    stays [False] and [_parse] is applied to [inst]
    ([inst is None and self.guest or inst]).  The result is the graph
    and what [parse] returns: [None], or the list [ret]. *)
Definition parse (self : VirtCLIParser) (heap : obj) (inst : ref)
  : res (obj * option (list ref)) :=
  if negb (match optstr self with
           | Some s => PyStr.truthy s
           | None => false
           end) then Ok (heap, None)
  else if stub_none (cls self)
          && match optstr self with
             | Some s => String.eqb s "none"
             | None => false
             end then Ok (heap, None)
  else
    heap <- wrap_errors self (_parse re_match self heap (Some inst)) ;;
    Ok (heap, Some ([] ++ listify_one inst)).

End Entry.

(** *** [--location] *)

(** [ParserLocation]: location, kernel, initrd, each with comma
    continuation. *)
Definition ParserLocation_args : list argspec :=
  [ with_can_comma (positional "location" (Some "location"));
    with_can_comma (positional "kernel" (Some "kernel"));
    with_can_comma (positional "initrd" (Some "initrd")) ].

Definition ParserLocation : VirtCLIParser_class :=
  {| guest_propname := None;
     remove_first := ["location"];
     stub_none := true;
     cli_arg_name := "location";
     _virtargs := fst (add_args [] ParserLocation_args) |}.

(** [LocationData()] *)
Definition LocationData : obj :=
  Obj [("location", PNone); ("kernel", PNone); ("initrd", PNone)] [].

(** [optstr or None] *)
Definition or_none (optstr : option string) : option string :=
  match optstr with
  | Some s => if PyStr.truthy s then Some s else None
  | None => None
  end.

(** [parse_location(optstr)] *)
Definition parse_location (optstr : option string)
  : res (pyval * pyval * pyval) :=
  let parsedata := LocationData in
  parser <- VirtCLIParser__init__ Re.match_ ParserLocation (or_none optstr) ;;
  '(parsedata, _) <- parse Re.match_ parser parsedata [] ;;
  location <- Graph.get_prop_path parsedata (Some []) (Some "location") ;;
  kernel <- Graph.get_prop_path parsedata (Some []) (Some "kernel") ;;
  initrd <- Graph.get_prop_path parsedata (Some []) (Some "initrd") ;;
  Ok (location, kernel, initrd).

(** The descriptor [add_arg("location", "location", can_comma=True)]
    registers. *)
Definition location_static : _VirtCLIArgumentStatic :=
  {| cliname := "location"; propname := Some "location"; cb := None;
     can_comma := Some true; ignore_default := false; aliases := [];
     is_onoff := false; lookup_cb := None; find_inst_cb := None |}.

(** ** Global option handling *)

(** [_GlobalState]: [all_checks] is [None], [True] or [False]; the
    dictionary of validation checks is keyed by check name. *)
Record _GlobalState : Type := {
  quiet : bool;
  all_checks : pyval;
  _validation_checks : list (string * pyval)
}.

Definition _GlobalState__init__ : _GlobalState :=
  {| quiet := false; all_checks := PNone; _validation_checks := [] |}.

Definition set_validation_check (self : _GlobalState) (checkname : string)
    (val : pyval) : _GlobalState :=
  {| quiet := quiet self;
     all_checks := all_checks self;
     _validation_checks := assoc_set checkname val (_validation_checks self) |}.

Definition get_validation_check (self : _GlobalState) (checkname : string)
  : pyval :=
  match all_checks self with
  | PNone =>
      match assoc_get checkname (_validation_checks self) with
      | Some v => v
      | None => PBool true
      end
  | v => v
  end.

(** The checks set one after the other. *)
Definition set_validation_checks (self : _GlobalState)
    (l : list (string * pyval)) : _GlobalState :=
  fold_left (fun st kv => set_validation_check st (fst kv) (snd kv)) l self.

(** The value of the last pair named [k], if there is one. *)
Fixpoint last_set (k : string) (l : list (string * pyval)) : option pyval :=
  match l with
  | [] => None
  | (name, v) :: rest =>
      match last_set k rest with
      | Some x => Some x
      | None => if String.eqb k name then Some v else None
      end
  end.

(** ** bash completion helpers *)

(** [s.split(",")]: [n] commas make [n + 1] fields, empty ones kept. *)
Definition split_comma (s : string) : list string :=
  TokenSpec.fields_of s.

(** [l.remove(x)] for an [x] in [l]: the first occurrence goes. *)
Fixpoint list_remove (x : string) (l : list string) : list string :=
  match l with
  | [] => []
  | y :: l' => if String.eqb x y then l' else y :: list_remove x l'
  end.

(** [option[: pos + 1]] for [pos = option.find("=")], when [pos > 0]:
    the name that was entered, with its ["="]. *)
Definition entered_name (opt : string) : option string :=
  match PyStr.split1 "=" opt with
  | Some (name, _) =>
      if PyStr.truthy name then Some (name ++ "=")%string else None
  | None => None
  end.

(** The first loop of [_virtparser_completer]: the options of the
    parser classes for the destination [kwargs['action'].dest], each
    with ["="] appended; [parsers] is what [_get_completer_parsers()]
    returns. *)
Definition sub_options_of (parsers : list VirtCLIParser_class)
    (dest : string) : list string :=
  flat_map (fun parserclass =>
              if String.eqb dest (cli_arg_name parserclass) then
                map (fun arg => (cliname arg ++ "=")%string)
                    (sorted cliname (_virtargs parserclass))
              else [])
           parsers.

(** [_virtparser_completer(prefix, **kwargs)] *)
Definition _virtparser_completer (parsers : list VirtCLIParser_class)
    (dest prefix : string) : list string :=
  let sub_options := sub_options_of parsers dest in
  let entered_options := split_comma prefix in
  fold_left (fun sub_options opt =>
               match entered_name opt with
               | Some name =>
                   if PyStr.in_list name sub_options then
                     list_remove name sub_options
                   else sub_options
               | None => sub_options
               end)
            entered_options sub_options.

(** [_completer_validator(current_input, keyword_to_check_against)]:
    [True], [False], or [None] when the function falls off its end. *)
Definition _completer_validator (current_input keyword_to_check_against : string)
  : option bool :=
  let entered_options := split_comma keyword_to_check_against in
  if String.eqb keyword_to_check_against "" then Some true
  else if Nat.leb 1 (List.length entered_options)
          && negb (PyStr.mem "=" (last entered_options "")) then
    if String.eqb (last entered_options "") "" then Some true
    else Some (PyStr.startswith (last entered_options "") current_input)
  else None.

(** The names that were entered with a value, in order. *)
Definition entered_names (prefix : string) : list string :=
  flat_map (fun opt => match entered_name opt with
                          | Some name => [name]
                          | None => []
                          end)
           (split_comma prefix).

(** No comma in the text. *)
Definition comma_free (s : string) : bool :=
  negb (PyStr.mem TokenSpec.comma s).
(** * Properties *)

(** ** The tokenizer *)

Module ShlexFacts.
Import Shlex TokenSpec.

Lemma mem_whitespace (c : ascii) :
  PyStr.mem c whitespace = Ascii.eqb c comma.
Proof. unfold whitespace; simpl. apply orb_false_r. Qed.

Lemma truthy_snoc (tok : string) (c : ascii) :
  PyStr.truthy (snoc tok c) = true.
Proof. destruct tok; reflexivity. Qed.

Lemma plain_char_inv (c : ascii) :
  plain_char c = true ->
  PyStr.mem c quotes = false /\ PyStr.mem c escape = false.
Proof.
  unfold plain_char. rewrite andb_true_iff, !negb_true_iff. tauto.
Qed.

(** The branches of [read_loop] on a non-empty input. *)
Lemma read_loop_space (esc : state) (quoted : bool) (tok : string)
    (c : ascii) (rest : list ascii) :
  read_loop SSpace esc quoted tok (c :: rest) =
    if PyStr.mem c whitespace then
      if PyStr.truthy tok || quoted
      then finish SSpace quoted tok rest
      else read_loop SSpace esc quoted tok rest
    else if PyStr.mem c escape then
      read_loop (SEscape c) SWord quoted tok rest
    else if PyStr.mem c quotes then
      read_loop (SQuote c) esc quoted tok rest
    else read_loop SWord esc quoted (String c EmptyString) rest.
Proof. reflexivity. Qed.

Lemma read_loop_word (esc : state) (quoted : bool) (tok : string)
    (c : ascii) (rest : list ascii) :
  read_loop SWord esc quoted tok (c :: rest) =
    if PyStr.mem c whitespace then
      if PyStr.truthy tok || quoted
      then finish SSpace quoted tok rest
      else read_loop SSpace esc quoted tok rest
    else if PyStr.mem c quotes then
      read_loop (SQuote c) esc quoted tok rest
    else if PyStr.mem c escape then
      read_loop (SEscape c) SWord quoted tok rest
    else read_loop SWord esc quoted (snoc tok c) rest.
Proof. reflexivity. Qed.

Lemma fields_cons (cur : string) (c : ascii) (l : list ascii) :
  fields cur (c :: l) =
    if Ascii.eqb c comma then cur :: fields EmptyString l
    else fields (snoc cur c) l.
Proof. reflexivity. Qed.

(** On a text without quoting the lexer returns the non-empty fields,
    whether it stands inside a word ([SWord], with a non-empty token)
    or between words ([SSpace]). *)
Lemma tokens_plain (l : list ascii) :
  forallb plain_char l = true ->
  (forall fuel esc tok,
      List.length l + 1 <= fuel -> PyStr.truthy tok = true ->
      emit (tokens fuel) (read_loop SWord esc false tok l)
      = Ok (words tok l))
  /\ (forall fuel esc,
      List.length l <= fuel ->
      emit (tokens fuel) (read_loop SSpace esc false EmptyString l)
      = Ok (words EmptyString l)).
Proof.
  induction l as [|c l IH]; intros Hplain.
  - split.
    + intros fuel esc tok Hfuel Htok.
      unfold words, emit; simpl. rewrite !Htok; simpl.
      destruct fuel as [|fuel]; [simpl in Hfuel; lia|]. reflexivity.
    + intros fuel esc _. reflexivity.
  - simpl in Hplain. apply andb_true_iff in Hplain as [Hc Hl].
    destruct (IH Hl) as [IHword IHspace].
    destruct (plain_char_inv _ Hc) as [Hq He].
    split.
    + intros fuel esc tok Hfuel Htok. simpl in Hfuel.
      unfold words. rewrite read_loop_word, fields_cons.
      rewrite mem_whitespace, Hq, He.
      destruct (Ascii.eqb c comma) eqn:Hcomma.
      * rewrite Htok. cbn [orb filter].
        unfold finish, emit. cbn [bind result next_state unread].
        rewrite Htok. cbn [negb andb].
        destruct fuel as [|fuel]; [lia|]. cbn [tokens].
        unfold read_token. rewrite (IHspace fuel SSpace) by lia.
        reflexivity.
      * apply IHword; [lia | apply truthy_snoc].
    + intros fuel esc Hfuel. simpl in Hfuel.
      unfold words. rewrite read_loop_space, fields_cons.
      rewrite mem_whitespace, Hq, He.
      destruct (Ascii.eqb c comma) eqn:Hcomma.
      * cbn [PyStr.truthy orb filter]. apply IHspace. lia.
      * apply (IHword fuel esc (String c EmptyString)); [lia | reflexivity].
Qed.

(** The lexer on an option string without quoting. *)
Lemma split_plain (s : string) :
  plain s = true -> split s = Ok (filter PyStr.truthy (fields_of s)).
Proof.
  intros Hplain. unfold split. simpl tokens. unfold read_token.
  apply (proj2 (tokens_plain _ Hplain)). lia.
Qed.

Lemma read_loop_quote (q : ascii) (esc : state) (quoted : bool)
    (tok : string) (c : ascii) (rest : list ascii) :
  read_loop (SQuote q) esc quoted tok (c :: rest) =
    if Ascii.eqb c q then read_loop SWord esc true tok rest
    else if PyStr.mem c escape && PyStr.mem q escapedquotes then
      read_loop (SEscape c) (SQuote q) true tok rest
    else read_loop (SQuote q) esc true (snoc tok c) rest.
Proof. reflexivity. Qed.

Lemma read_loop_escape (e : ascii) (esc : state) (quoted : bool)
    (tok : string) (c : ascii) (rest : list ascii) :
  exists tok',
    read_loop (SEscape e) esc quoted tok (c :: rest)
    = read_loop esc esc quoted tok' rest.
Proof. eexists. reflexivity. Qed.

Lemma read_loop_none (esc : state) (quoted : bool) (tok : string)
    (l : list ascii) :
  read_loop SNone esc quoted tok l = finish SNone quoted EmptyString (tl l).
Proof. destruct l; reflexivity. Qed.

Lemma read_loop_nil (st esc : state) (quoted : bool) (tok : string) :
  read_loop st esc quoted tok [] =
    match st with
    | SNone => finish SNone quoted EmptyString []
    | SSpace | SWord => finish SNone quoted tok []
    | SQuote _ => Raise (ValueError "No closing quotation")
    | SEscape _ => Raise (ValueError "No escaped character")
    end.
Proof. destruct st; reflexivity. Qed.

(** Once the lexer has seen the end of its input it returns no further
    token. *)
Lemma tokens_after_eof (fuel : nat) (l : list ascii) (toks : list string) :
  tokens fuel SNone l = Ok toks -> toks = [].
Proof.
  destruct fuel as [|fuel]; [discriminate|].
  cbn [tokens]. unfold read_token. rewrite read_loop_none.
  unfold finish, emit; simpl. congruence.
Qed.

Lemma emit_finish_inv (k : state -> list ascii -> res (list string))
    (st : state) (quoted : bool) (tok : string) (rest : list ascii)
    (toks : list string) :
  emit k (finish st quoted tok rest) = Ok toks ->
  toks = []
  \/ exists more, k st rest = Ok more /\ toks = tok :: more.
Proof.
  unfold emit, finish; cbn [bind result next_state unread].
  destruct (negb quoted && negb (PyStr.truthy tok)).
  - intros H; left; congruence.
  - destruct (k st rest) as [more|e] eqn:Hk; simpl; [|discriminate].
    intros H; right; exists more; split; congruence.
Qed.

Lemma escape_not_quote (c : ascii) :
  PyStr.mem c escape = true -> PyStr.mem c quotes = false.
Proof.
  unfold escape, quotes; simpl. rewrite orb_false_r.
  intros H; apply Ascii.eqb_eq in H; subst; reflexivity.
Qed.

(** The lexer breaks a token off only at a comma outside quoting or at
    the end of the input, so it returns at most one token more than
    there are top-level commas. *)
Lemma tokens_le_commas (l : list ascii) :
  forall st esc quoted tok fuel toks,
    esc_ok esc = true ->
    emit (tokens fuel) (read_loop st esc quoted tok l) = Ok toks ->
    List.length toks <= top_level_commas_from (mode st esc) l + 1.
Proof.
  induction l as [|c l IH]; intros st esc quoted tok fuel toks Hesc H.
  - rewrite read_loop_nil in H.
    destruct st; try discriminate H;
      (apply emit_finish_inv in H as [->|[more [Hmore ->]]];
       [simpl; lia | apply tokens_after_eof in Hmore; subst; simpl; lia]).
  - destruct st as [| | |q|e].
    + rewrite read_loop_none in H.
      apply emit_finish_inv in H as [->|[more [Hmore ->]]];
        [simpl; lia | apply tokens_after_eof in Hmore; subst; simpl; lia].
    + rewrite read_loop_space, mem_whitespace in H.
      cbn [mode top_level_commas_from].
      destruct (Ascii.eqb c comma) eqn:Hcomma.
      * destruct (PyStr.truthy tok || quoted).
        -- apply emit_finish_inv in H as [->|[more [Hmore ->]]];
             [simpl; lia|].
           destruct fuel as [|fuel]; [discriminate|].
           cbn [tokens] in Hmore. unfold read_token in Hmore.
           apply IH in Hmore; [|reflexivity].
           cbn [mode] in Hmore. simpl; lia.
        -- apply IH in H; [|assumption]. cbn [mode] in H. lia.
      * destruct (PyStr.mem c escape) eqn:He.
        -- apply IH in H; [|reflexivity]. exact H.
        -- destruct (PyStr.mem c quotes) eqn:Hq.
           ++ apply IH in H; [|assumption]. exact H.
           ++ apply IH in H; [|assumption]. exact H.
    + rewrite read_loop_word, mem_whitespace in H.
      cbn [mode top_level_commas_from].
      destruct (Ascii.eqb c comma) eqn:Hcomma.
      * destruct (PyStr.truthy tok || quoted).
        -- apply emit_finish_inv in H as [->|[more [Hmore ->]]];
             [simpl; lia|].
           destruct fuel as [|fuel]; [discriminate|].
           cbn [tokens] in Hmore. unfold read_token in Hmore.
           apply IH in Hmore; [|reflexivity].
           cbn [mode] in Hmore. simpl; lia.
        -- apply IH in H; [|assumption]. cbn [mode] in H. lia.
      * destruct (PyStr.mem c escape) eqn:He.
        -- rewrite (escape_not_quote _ He) in H.
           apply IH in H; [|reflexivity]. exact H.
        -- destruct (PyStr.mem c quotes) eqn:Hq.
           ++ apply IH in H; [|assumption]. exact H.
           ++ apply IH in H; [|assumption]. exact H.
    + rewrite read_loop_quote in H.
      cbn [mode top_level_commas_from].
      destruct (Ascii.eqb c q).
      * apply IH in H; [|assumption]. exact H.
      * destruct (PyStr.mem c escape && PyStr.mem q escapedquotes).
        -- apply IH in H; [|reflexivity]. exact H.
        -- apply IH in H; [|assumption]. exact H.
    + destruct (read_loop_escape e esc quoted tok c l) as [tok' Heq].
      rewrite Heq in H. apply IH in H; [|assumption].
      destruct esc; try discriminate Hesc; exact H.
Qed.

Lemma split_le_commas (s : string) (toks : list string) :
  split s = Ok toks -> List.length toks <= top_level_commas s + 1.
Proof.
  unfold split. cbn [tokens]. unfold read_token.
  intros H. apply tokens_le_commas in H; [exact H | reflexivity].
Qed.

(** *** The fuel of [split] is never exhausted *)

Lemma tokens_eof (fuel : nat) (l : list ascii) :
  tokens (S fuel) SNone l = Ok [].
Proof.
  cbn [tokens]. unfold read_token. rewrite read_loop_none. reflexivity.
Qed.

Lemma emit_finish_raise (k : state -> list ascii -> res (list string))
    (st : state) (quoted : bool) (tok : string) (rest : list ascii)
    (e : exn) :
  emit k (finish st quoted tok rest) = Raise e -> k st rest = Raise e.
Proof.
  unfold emit, finish; cbn [bind result next_state unread].
  destruct (negb quoted && negb (PyStr.truthy tok)); [discriminate|].
  destruct (k st rest); simpl; congruence.
Qed.

Lemma tokens_fuel (l : list ascii) :
  (forall st esc quoted tok fuel,
      List.length l + 1 <= fuel ->
      emit (tokens fuel) (read_loop st esc quoted tok l) <> Raise OutOfFuel)
  /\ (forall esc fuel,
      List.length l <= fuel ->
      emit (tokens fuel) (read_loop SSpace esc false EmptyString l)
      <> Raise OutOfFuel).
Proof.
  induction l as [|c l [IHany IHspace]].
  - split.
    + intros st esc quoted tok fuel Hfuel H.
      destruct fuel as [|fuel]; [simpl in Hfuel; lia|].
      rewrite read_loop_nil in H.
      destruct st; try discriminate H;
        apply emit_finish_raise in H; rewrite tokens_eof in H;
        discriminate H.
    + intros esc fuel _. discriminate.
  - assert (Hbreak : forall quoted tok fuel,
               List.length l + 2 <= fuel ->
               emit (tokens fuel) (finish SSpace quoted tok l)
               <> Raise OutOfFuel).
    { intros quoted tok fuel Hfuel H. apply emit_finish_raise in H.
      destruct fuel as [|fuel]; [lia|]. cbn [tokens] in H.
      unfold read_token in H. apply IHspace in H; [exact H | lia]. }
    split.
    + intros st esc quoted tok fuel Hfuel. simpl in Hfuel.
      destruct st as [| | |q|e].
      * rewrite read_loop_none. intros H. apply emit_finish_raise in H.
        destruct fuel as [|fuel]; [lia|]. rewrite tokens_eof in H.
        discriminate H.
      * rewrite read_loop_space.
        repeat match goal with
               | |- context [if ?b then _ else _] => destruct b
               end;
          try (apply Hbreak; lia); apply IHany; lia.
      * rewrite read_loop_word.
        repeat match goal with
               | |- context [if ?b then _ else _] => destruct b
               end;
          try (apply Hbreak; lia); apply IHany; lia.
      * rewrite read_loop_quote.
        repeat match goal with
               | |- context [if ?b then _ else _] => destruct b
               end; apply IHany; lia.
      * destruct (read_loop_escape e esc quoted tok c l) as [tok' ->].
        apply IHany; lia.
    + intros esc fuel Hfuel. simpl in Hfuel.
      rewrite read_loop_space. cbn [PyStr.truthy orb].
      repeat match goal with
             | |- context [if ?b then _ else _] => destruct b
             end;
        try (apply IHspace; lia); apply IHany; lia.
Qed.

Lemma split_fuel (s : string) : split s <> Raise OutOfFuel.
Proof.
  unfold split. cbn [tokens]. unfold read_token.
  apply (proj2 (tokens_fuel _)). lia.
Qed.

(** *** Fields and commas *)

Lemma fields_length (l : list ascii) :
  forallb plain_char l = true ->
  forall cur,
    List.length (fields cur l) = top_level_commas_from Unquoted l + 1.
Proof.
  induction l as [|c l IH]; intros Hplain cur; [reflexivity|].
  simpl in Hplain. apply andb_true_iff in Hplain as [Hc Hl].
  destruct (plain_char_inv _ Hc) as [Hq He].
  rewrite fields_cons. cbn [top_level_commas_from].
  rewrite Hq, He.
  destruct (Ascii.eqb c comma); [simpl; rewrite IH by assumption; lia|].
  apply IH; assumption.
Qed.

Lemma split_opt_length (opt : string) :
  List.length (split_opt opt) = if PyStr.truthy opt then 1 else 0.
Proof.
  unfold split_opt. destruct (PyStr.truthy opt); [|reflexivity].
  cbn [negb]. destruct (PyStr.split1 "=" opt) as [[name v]|]; reflexivity.
Qed.

Lemma flat_map_split_opt_length (toks : list string) :
  List.length (flat_map split_opt toks)
  = List.length (filter PyStr.truthy toks).
Proof.
  induction toks as [|t toks IH]; [reflexivity|].
  cbn [flat_map filter]. rewrite length_app, split_opt_length, IH.
  destruct (PyStr.truthy t); reflexivity.
Qed.

Lemma filter_length_le {A : Type} (f : A -> bool) (l : list A) :
  List.length (filter f l) <= List.length l.
Proof.
  induction l as [|x l IH]; simpl; [lia|].
  destruct (f x); simpl; lia.
Qed.

Lemma filter_all {A : Type} (f : A -> bool) (l : list A) :
  forallb f l = true -> filter f l = l.
Proof.
  induction l as [|x l IH]; simpl; [reflexivity|].
  intros H. apply andb_true_iff in H as [Hx Hl].
  rewrite Hx, IH by assumption. reflexivity.
Qed.

Lemma filter_idem {A : Type} (f : A -> bool) (l : list A) :
  filter f (filter f l) = filter f l.
Proof.
  induction l as [|x l IH]; simpl; [reflexivity|].
  destruct (f x) eqn:Hx; simpl; rewrite ?Hx, IH; reflexivity.
Qed.

(** *** Top-level fields *)

Lemma emit_finish_cases (k : state -> list ascii -> res (list string))
    (st : state) (quoted : bool) (tok : string) (rest : list ascii)
    (toks : list string) :
  emit k (finish st quoted tok rest) = Ok toks ->
  (PyStr.truthy tok || quoted = false /\ toks = [])
  \/ (PyStr.truthy tok || quoted = true
      /\ exists more, k st rest = Ok more /\ toks = tok :: more).
Proof.
  unfold emit, finish; cbn [bind result next_state unread].
  destruct (PyStr.truthy tok), quoted; cbn [negb andb orb];
    try (intros H; left; split; [reflexivity|congruence]);
    (destruct (k st rest) as [more|e] eqn:Hk; cbn [bind]; [|discriminate];
     intros H; right; split; [reflexivity|];
     exists more; split; congruence).
Qed.

Lemma mem_escape (c : ascii) :
  PyStr.mem c escape = true -> c = backslash.
Proof.
  unfold escape; simpl. rewrite orb_false_r. apply Ascii.eqb_eq.
Qed.

Lemma falsy_empty (tok : string) :
  PyStr.truthy tok = false -> tok = EmptyString.
Proof. destruct tok; [reflexivity|discriminate]. Qed.

(** The lexer and the scan for top-level fields agree: the tokens the
    lexer returns from a state are, empty ones left aside, the fields
    the scan returns from the corresponding quoting mode. *)
Lemma tokens_fields (l : list ascii) :
  forall st esc quoted tok fuel toks,
    esc_ok esc = true ->
    match st with
    | SNone => False
    | SSpace => tok = EmptyString
    | SEscape e => e = backslash /\ esc <> SSpace
    | _ => True
    end ->
    emit (tokens fuel) (read_loop st esc quoted tok l) = Ok toks ->
    filter PyStr.truthy toks
    = filter PyStr.truthy (top_level_fields_from (mode st esc) tok l).
Proof.
  induction l as [|c l IH]; intros st esc quoted tok fuel toks Hesc Hst H.
  - rewrite read_loop_nil in H.
    destruct st; try discriminate H; try contradiction;
      (apply emit_finish_cases in H
         as [[Hor ->]|[_ [more [Hmore ->]]]];
       [apply orb_false_iff in Hor as [Htok _];
        cbn [mode top_level_fields_from filter]; rewrite Htok; reflexivity
       |apply tokens_after_eof in Hmore; subst more; reflexivity]).
  - assert (Hbreak : forall toks',
               PyStr.truthy tok || quoted = true ->
               emit (tokens fuel) (finish SSpace quoted tok l) = Ok toks' ->
               filter PyStr.truthy toks'
               = filter PyStr.truthy
                   (tok :: top_level_fields_from Unquoted EmptyString l)).
    { intros toks' Hor H'.
      apply emit_finish_cases in H'
        as [[Hor' _]|[_ [more [Hmore ->]]]]; [congruence|].
      destruct fuel as [|fuel]; [discriminate|].
      cbn [tokens] in Hmore. unfold read_token in Hmore.
      apply IH in Hmore; [|reflexivity|reflexivity].
      cbn [mode] in Hmore. cbn [filter]. rewrite Hmore. reflexivity. }
    assert (Hskip : forall toks',
               PyStr.truthy tok || quoted = false ->
               emit (tokens fuel) (read_loop SSpace esc quoted tok l)
               = Ok toks' ->
               filter PyStr.truthy toks'
               = filter PyStr.truthy
                   (tok :: top_level_fields_from Unquoted EmptyString l)).
    { intros toks' Hor H'.
      apply orb_false_iff in Hor as [Htok _].
      pose proof (falsy_empty _ Htok) as ->.
      apply IH in H'; [|assumption|reflexivity].
      cbn [mode] in H'. cbn [filter PyStr.truthy]. exact H'. }
    destruct st as [| | |q|e].
    + contradiction.
    + subst tok. rewrite read_loop_space, mem_whitespace in H.
      cbn [mode top_level_fields_from].
      destruct (Ascii.eqb c comma) eqn:Hcomma.
      * destruct (PyStr.truthy EmptyString || quoted) eqn:Hor;
          [exact (Hbreak _ eq_refl H) | exact (Hskip _ eq_refl H)].
      * destruct (PyStr.mem c escape) eqn:He.
        -- apply IH in H; [exact H|reflexivity|].
           split; [exact (mem_escape _ He)|discriminate].
        -- destruct (PyStr.mem c quotes) eqn:Hq.
           ++ apply IH in H; [exact H|assumption|exact I].
           ++ apply IH in H; [exact H|assumption|exact I].
    + rewrite read_loop_word, mem_whitespace in H.
      cbn [mode top_level_fields_from].
      destruct (Ascii.eqb c comma) eqn:Hcomma.
      * destruct (PyStr.truthy tok || quoted) eqn:Hor;
          [exact (Hbreak _ eq_refl H) | exact (Hskip _ eq_refl H)].
      * destruct (PyStr.mem c escape) eqn:He.
        -- rewrite (escape_not_quote _ He) in H.
           apply IH in H; [exact H|reflexivity|].
           split; [exact (mem_escape _ He)|discriminate].
        -- destruct (PyStr.mem c quotes) eqn:Hq.
           ++ apply IH in H; [exact H|assumption|exact I].
           ++ apply IH in H; [exact H|assumption|exact I].
    + rewrite read_loop_quote in H.
      cbn [mode top_level_fields_from].
      destruct (Ascii.eqb c q).
      * apply IH in H; [exact H|assumption|exact I].
      * destruct (PyStr.mem c escape && PyStr.mem q escapedquotes) eqn:He.
        -- apply andb_true_iff in He as [He _].
           apply IH in H; [exact H|reflexivity|].
           split; [exact (mem_escape _ He)|discriminate].
        -- apply IH in H; [exact H|assumption|exact I].
    + destruct Hst as [-> Hnot].
      destruct esc as [| | |q|e']; try discriminate Hesc;
        [contradiction| |].
      * cbn [read_loop is_quote_state andb] in H.
        apply IH in H; [exact H|reflexivity|exact I].
      * cbn [read_loop is_quote_state char_is_state andb] in H.
        apply IH in H; [exact H|reflexivity|exact I].
Qed.

Lemma split_fields (s : string) (raw : list string) :
  split s = Ok raw ->
  filter PyStr.truthy raw = filter PyStr.truthy (top_level_fields s).
Proof.
  unfold split. cbn [tokens]. unfold read_token. intros H.
  apply tokens_fields in H; [exact H|reflexivity|reflexivity].
Qed.

Lemma top_level_fields_length (l : list ascii) :
  forall m cur,
    List.length (top_level_fields_from m cur l)
    = top_level_commas_from m l + 1.
Proof.
  induction l as [|c l IH]; intros m cur; [reflexivity|].
  cbn [top_level_fields_from top_level_commas_from].
  destruct m as [|q|[q|]].
  - destruct (Ascii.eqb c comma); [cbn [List.length]; rewrite IH; lia|].
    destruct (PyStr.mem c escape); [apply IH|].
    destruct (PyStr.mem c quotes); apply IH.
  - destruct (Ascii.eqb c q); [apply IH|].
    destruct (PyStr.mem c escape && PyStr.mem q escapedquotes); apply IH.
  - apply IH.
  - apply IH.
Qed.

Lemma top_level_fields_plain (l : list ascii) :
  forallb plain_char l = true ->
  forall cur, top_level_fields_from Unquoted cur l = fields cur l.
Proof.
  induction l as [|c l IH]; intros Hplain cur; [reflexivity|].
  simpl in Hplain. apply andb_true_iff in Hplain as [Hc Hl].
  destruct (plain_char_inv _ Hc) as [Hq He].
  rewrite fields_cons. cbn [top_level_fields_from]. rewrite Hq, He.
  destruct (Ascii.eqb c comma); [f_equal|]; apply IH; assumption.
Qed.

Lemma flat_map_split_opt_filter (toks : list string) :
  flat_map split_opt toks = flat_map split_opt (filter PyStr.truthy toks).
Proof.
  induction toks as [|t toks IH]; [reflexivity|].
  cbn [flat_map filter]. destruct (PyStr.truthy t) eqn:Ht.
  - cbn [flat_map]. rewrite IH. reflexivity.
  - unfold split_opt at 1. rewrite Ht. cbn [negb app]. exact IH.
Qed.

Lemma filter_length_all {A : Type} (f : A -> bool) (l : list A) :
  List.length (filter f l) = List.length l -> forallb f l = true.
Proof.
  induction l as [|x l IH]; [reflexivity|].
  cbn [filter forallb]. destruct (f x); cbn [List.length andb].
  - intros H. apply IH. lia.
  - intros H. pose proof (filter_length_le f l). lia.
Qed.

End ShlexFacts.

(** C3, counterexample: ["a,,b"] has two top-level commas and quotes
    nothing, and the tokenizer returns two tokens, not three. *)
Lemma adjacent_commas_make_no_token : ~ TokenSpec.one_more_than_commas.
Proof.
  intros H.
  specialize (H "a,,b" [("a", None); ("b", None)] eq_refl).
  vm_compute in H. discriminate H.
Qed.

(** C3, amended: on every raw option string the tokenizer accepts, its
    tokens are exactly the top-level fields that are not empty, in
    order, each split at its first ["="]; a top-level field is the text
    between two consecutive commas outside shell quoting, or between an
    end of the string and the nearest such comma, with its quoting
    removed.  With N commas outside shell quoting there are N+1
    top-level fields, so the tokenizer produces as many tokens as there
    are non-empty top-level fields, at most N+1, and exactly N+1 if and
    only if no top-level field is empty.  On a string without quote or
    escape characters the tokenizer succeeds and the top-level fields
    are the comma-separated fields. *)
Theorem tokenizer_count (s : string) :
  List.length (TokenSpec.top_level_fields s)
  = TokenSpec.top_level_commas s + 1
  /\ (forall toks,
      parse_optstr_tuples (Some s) = Ok toks ->
      toks = flat_map split_opt
                      (filter PyStr.truthy (TokenSpec.top_level_fields s))
      /\ List.length toks
         = List.length (filter PyStr.truthy (TokenSpec.top_level_fields s))
      /\ List.length toks <= TokenSpec.top_level_commas s + 1
      /\ (List.length toks = TokenSpec.top_level_commas s + 1
          <-> forallb PyStr.truthy (TokenSpec.top_level_fields s) = true))
  /\ (TokenSpec.plain s = true ->
      TokenSpec.top_level_fields s = TokenSpec.fields_of s
      /\ exists toks,
        parse_optstr_tuples (Some s) = Ok toks
        /\ toks = flat_map split_opt
                           (filter PyStr.truthy (TokenSpec.fields_of s))
        /\ List.length toks
           = List.length (filter PyStr.truthy (TokenSpec.fields_of s))
        /\ List.length (TokenSpec.fields_of s)
           = TokenSpec.top_level_commas s + 1
        /\ (forallb PyStr.truthy (TokenSpec.fields_of s) = true ->
            List.length toks = TokenSpec.top_level_commas s + 1)).
Proof.
  assert (Hfields : List.length (TokenSpec.top_level_fields s)
                    = TokenSpec.top_level_commas s + 1)
    by apply ShlexFacts.top_level_fields_length.
  split; [exact Hfields|]. split.
  - intros toks H. unfold parse_optstr_tuples in H.
    destruct (Shlex.split s) as [raw|e] eqn:Hsplit; [|discriminate].
    cbn [bind] in H. injection H as <-.
    pose proof (@ShlexFacts.split_fields s raw Hsplit) as Hraw.
    assert (Hlen : List.length (flat_map split_opt raw)
                   = List.length
                       (filter PyStr.truthy (TokenSpec.top_level_fields s)))
      by (rewrite ShlexFacts.flat_map_split_opt_length, Hraw; reflexivity).
    pose proof (ShlexFacts.filter_length_le
                  PyStr.truthy (TokenSpec.top_level_fields s)) as Hle.
    split; [|split; [exact Hlen|split; [lia|]]].
    + rewrite ShlexFacts.flat_map_split_opt_filter, Hraw. reflexivity.
    + rewrite Hlen, <- Hfields. split.
      * apply ShlexFacts.filter_length_all.
      * intros Hall. rewrite (ShlexFacts.filter_all _ _ Hall). reflexivity.
  - intros Hplain.
    assert (Hsame : TokenSpec.top_level_fields s = TokenSpec.fields_of s)
      by (apply ShlexFacts.top_level_fields_plain; exact Hplain).
    split; [exact Hsame|].
    exists (flat_map split_opt (filter PyStr.truthy (TokenSpec.fields_of s))).
    assert (Hlen : List.length (TokenSpec.fields_of s)
                   = TokenSpec.top_level_commas s + 1)
      by (apply ShlexFacts.fields_length; exact Hplain).
    assert (Htoks : List.length
                      (flat_map split_opt
                         (filter PyStr.truthy (TokenSpec.fields_of s)))
                    = List.length
                        (filter PyStr.truthy (TokenSpec.fields_of s)))
      by (rewrite ShlexFacts.flat_map_split_opt_length,
            ShlexFacts.filter_idem; reflexivity).
    repeat split.
    + unfold parse_optstr_tuples.
      rewrite (ShlexFacts.split_plain _ Hplain). reflexivity.
    + exact Htoks.
    + exact Hlen.
    + intros Hall. rewrite Htoks, (ShlexFacts.filter_all _ _ Hall).
      exact Hlen.
Qed.

Lemma tokenizer_count_witness :
  (parse_optstr_tuples (Some "path='/tmp/a,b.img',size=5")
   = Ok [("path", Some "/tmp/a,b.img"); ("size", Some "5")]
   /\ TokenSpec.top_level_commas "path='/tmp/a,b.img',size=5" = 1
   /\ TokenSpec.top_level_fields "path='/tmp/a,b.img',size=5"
      = ["path=/tmp/a,b.img"; "size=5"]
   /\ List.length [("path", Some "/tmp/a,b.img"); ("size", Some "5")]
      = TokenSpec.top_level_commas "path='/tmp/a,b.img',size=5" + 1)
  /\ (parse_optstr_tuples (Some "a,'',b")
      = Ok [("a", None); ("b", None)]
      /\ List.length [("a", None); ("b", @None string)]
         = List.length
             (filter PyStr.truthy (TokenSpec.top_level_fields "a,'',b")))
  /\ (TokenSpec.plain "path=foo,size=5,bus=virtio" = true
      /\ exists toks,
        parse_optstr_tuples (Some "path=foo,size=5,bus=virtio") = Ok toks
        /\ List.length toks
           = TokenSpec.top_level_commas "path=foo,size=5,bus=virtio" + 1).
Proof.
  split; [|split].
  - split; [reflexivity|]. split; [reflexivity|]. split; [reflexivity|].
    destruct (proj1 (proj2 (tokenizer_count "path='/tmp/a,b.img',size=5"))
                [("path", Some "/tmp/a,b.img"); ("size", Some "5")] eq_refl)
      as [_ [_ [_ Hexact]]].
    exact (proj2 Hexact eq_refl).
  - split; [reflexivity|].
    destruct (proj1 (proj2 (tokenizer_count "a,'',b"))
                [("a", None); ("b", None)] eq_refl)
      as [_ [Hlen _]].
    exact Hlen.
  - split; [reflexivity|].
    destruct (proj2 (proj2 (tokenizer_count "path=foo,size=5,bus=virtio"))
                eq_refl)
      as [_ [toks [Hparse [_ [_ [_ Hexact]]]]]].
    exists toks. split; [exact Hparse | exact (Hexact eq_refl)].
Defined.

(** ** Boolean normalization *)

(** The two token lists do not overlap, so at most one of the two
    branches of [_raw_on_off_convert] applies to a value. *)
Lemma tvalues_fvalues_disjoint (s : string) :
  PyStr.in_list s tvalues = true -> PyStr.in_list s fvalues = false.
Proof.
  unfold PyStr.in_list, tvalues, fvalues; simpl.
  rewrite !orb_false_r, !orb_true_iff, !String.eqb_eq.
  intros H; decompose [or] H; subst; reflexivity.
Qed.

(** C5, counterexample: the empty value ["relabel="] is in neither token
    list, yet binding it on a boolean-normalized descriptor succeeds,
    with the unset marker as value. *)
Lemma onoff_empty_value_does_not_fail : ~ every_other_value_fails.
Proof.
  intros H.
  destruct (H relabel_static "relabel" "" eq_refl eq_refl eq_refl) as [e He].
  discriminate He.
Qed.

(** C5, amended: on a boolean-normalized descriptor a non-empty value
    converts to true when its lowercase form is one of y, yes, 1, true,
    t, on, to false when it is one of n, no, 0, false, f, off, and
    otherwise fails with the "must be 'yes' or 'no'" error; the empty
    value does not fail and yields the unset marker.  In particular
    ["relabel=maybe"] fails. *)
Theorem onoff_normalization (d : _VirtCLIArgumentStatic) (k v : string) :
  is_onoff d = true ->
  _VirtCLIArgument__init__ d k (Some v) =
    (if String.eqb v "" then
       Ok {| val := PNone; key := k; _virtarg := d |}
     else if PyStr.in_list (PyStr.lower v) tvalues then
       Ok {| val := PBool true; key := k; _virtarg := d |}
     else if PyStr.in_list (PyStr.lower v) fvalues then
       Ok {| val := PBool false; key := k; _virtarg := d |}
     else Raise (SystemExit (MustBeYesOrNo k)))
  /\ _VirtCLIArgument__init__ d "relabel" (Some "maybe")
     = Raise (SystemExit (MustBeYesOrNo "relabel")).
Proof.
  intros Honoff.
  unfold _VirtCLIArgument__init__, _on_off_convert, _raw_on_off_convert.
  rewrite Honoff. split.
  - destruct (String.eqb v "") eqn:Hv; [reflexivity|].
    destruct (PyStr.in_list (PyStr.lower v) tvalues); [reflexivity|].
    destruct (PyStr.in_list (PyStr.lower v) fvalues); reflexivity.
  - reflexivity.
Qed.

Lemma onoff_normalization_witness :
  is_onoff relabel_static = true
  /\ _VirtCLIArgument__init__ relabel_static "relabel" (Some "Yes")
     = Ok {| val := PBool true; key := "relabel";
             _virtarg := relabel_static |}.
Proof.
  split; [reflexivity|].
  exact (proj1 (onoff_normalization relabel_static "relabel" "Yes" eq_refl)).
Defined.

(** ** Association lists and the object graph *)

Lemma assoc_get_set {A : Type} (k : string) (v : A) (l : list (string * A)) :
  assoc_get k (assoc_set k v l) = Some v.
Proof.
  induction l as [|[k' v'] l IH]; simpl.
  - rewrite String.eqb_refl. reflexivity.
  - destruct (String.eqb k k') eqn:Hk; simpl.
    + rewrite String.eqb_refl. reflexivity.
    + rewrite Hk. exact IH.
Qed.

Lemma assoc_set_set {A : Type} (k : string) (v w : A)
    (l : list (string * A)) :
  assoc_set k w (assoc_set k v l) = assoc_set k w l.
Proof.
  induction l as [|[k' v'] l IH]; simpl.
  - rewrite String.eqb_refl. reflexivity.
  - destruct (String.eqb k k') eqn:Hk; simpl.
    + rewrite String.eqb_refl. reflexivity.
    + rewrite Hk, IH. reflexivity.
Qed.

Lemma nth_error_list_set {A : Type} (l : list A) (i : nat) (x y : A) :
  nth_error l i = Some y -> nth_error (list_set l i x) i = Some x.
Proof.
  revert i; induction l as [|z l IH]; intros [|i]; simpl;
    try discriminate; auto.
Qed.

(** Updating the object a reference leads to leaves the reference valid,
    and it then leads to the updated object. *)
Lemma update_resolve (r : ref) :
  forall (heap o o' : obj) (f : obj -> res obj),
    Graph.resolve heap r = Some o -> f o = Ok o' ->
    exists heap',
      Graph.update heap r f = Ok heap' /\ Graph.resolve heap' r = Some o'.
Proof.
  induction r as [|[l i] r IH]; intros heap o o' f Hres Hf.
  - simpl in *. injection Hres as ->. exists o'. split; [exact Hf | reflexivity].
  - simpl in *.
    destruct (assoc_get l (lists heap)) as [[proto items]|];
      [|discriminate].
    destruct (nth_error items i) as [c|] eqn:Hnth; [|discriminate].
    destruct (IH c o o' f Hres Hf) as [c' [Hupd Hres']].
    rewrite Hupd. cbn [bind]. eexists. split; [reflexivity|].
    simpl. rewrite assoc_get_set.
    rewrite (nth_error_list_set _ _ _ Hnth). exact Hres'.
Qed.

(** ** Absent and empty values *)

Lemma split1_none (opt : string) :
  PyStr.mem "=" opt = false -> PyStr.split1 "=" opt = None.
Proof.
  induction opt as [|c opt IH]; [reflexivity|].
  cbn [PyStr.mem PyStr.split1]. rewrite (Ascii.eqb_sym "=" c).
  destruct (Ascii.eqb c "="); cbn [orb]; [discriminate|].
  intros H. rewrite (IH H). reflexivity.
Qed.

Lemma split1_first (name v : string) :
  PyStr.mem "=" name = false ->
  PyStr.split1 "=" (name ++ String "=" v) = Some (name, v).
Proof.
  induction name as [|c name IH]; [reflexivity|].
  cbn [PyStr.mem PyStr.split1 String.append].
  rewrite (Ascii.eqb_sym "=" c).
  destruct (Ascii.eqb c "="); cbn [orb]; [discriminate|].
  intros H. rewrite (IH H). reflexivity.
Qed.

Lemma truthy_append (a b : string) :
  PyStr.truthy b = true -> PyStr.truthy (a ++ b) = true.
Proof. destruct a; simpl; auto. Qed.

(** A token without ["="] has an absent value; otherwise the value is
    the text after the first ["="], possibly empty. *)
Lemma split_opt_spec :
  (forall opt,
      PyStr.truthy opt = true -> PyStr.mem "=" opt = false ->
      split_opt opt = [(opt, None)])
  /\ (forall name v,
      PyStr.mem "=" name = false ->
      split_opt (name ++ String "=" v) = [(name, Some v)]).
Proof.
  split.
  - intros opt Hopt Heq. unfold split_opt.
    rewrite Hopt, (split1_none _ Heq). reflexivity.
  - intros name v Hname. unfold split_opt.
    rewrite truthy_append by reflexivity.
    rewrite (split1_first _ _ Hname). reflexivity.
Qed.

(** ** Ordered dictionaries *)

Lemma in_keys_assoc_set {A : Type} (k k' : string) (v : A)
    (l : list (string * A)) :
  In k' (keys (assoc_set k v l)) <-> k' = k \/ In k' (keys l).
Proof.
  induction l as [|[k0 v0] l IH]; simpl.
  - intuition congruence.
  - destruct (String.eqb k k0) eqn:Hk; simpl.
    + apply String.eqb_eq in Hk. subst k0. intuition congruence.
    + unfold keys in IH. rewrite IH. intuition congruence.
Qed.

(** Item assignment keeps the keys of a dictionary distinct. *)
Lemma nodup_keys_assoc_set {A : Type} (k : string) (v : A)
    (l : list (string * A)) :
  NoDup (keys l) -> NoDup (keys (assoc_set k v l)).
Proof.
  induction l as [|[k0 v0] l IH]; simpl; intros Hnd.
  - constructor; [intros [] | constructor].
  - inversion Hnd as [|? ? Hnotin Hnd']; subst.
    destruct (String.eqb k k0) eqn:Hk; simpl.
    + apply String.eqb_eq in Hk. subst k0. constructor; assumption.
    + constructor; [|apply IH; assumption].
      intros Hin. apply in_keys_assoc_set in Hin as [->|Hin].
      * rewrite String.eqb_refl in Hk. discriminate.
      * exact (Hnotin Hin).
Qed.

Lemma in_keys {A : Type} (k : string) (v : A) (l : list (string * A)) :
  In (k, v) l -> In k (keys l).
Proof. intros H. apply (in_map fst) in H. exact H. Qed.

Lemma keys_filter {A : Type} (f : string -> bool) (l : list (string * A)) :
  keys (filter (fun kv => f (fst kv)) l) = filter f (keys l).
Proof.
  unfold keys.
  induction l as [|[k v] l IH]; simpl; [reflexivity|].
  destruct (f k); simpl; rewrite IH; reflexivity.
Qed.

Lemma nodup_filter {A : Type} (f : A -> bool) (l : list A) :
  NoDup l -> NoDup (filter f l).
Proof.
  induction 1 as [|x l Hnotin Hnd IH]; simpl; [constructor|].
  destruct (f x); [constructor|]; auto.
  intros Hin. apply filter_In in Hin as [Hin _]. exact (Hnotin Hin).
Qed.

Lemma filter_none {A : Type} (f : A -> bool) (l : list A) :
  (forall x, In x l -> f x = true) -> filter f l = l.
Proof.
  induction l as [|x l IH]; simpl; intros H; [reflexivity|].
  rewrite (H x (or_introl eq_refl)), IH; auto.
Qed.

Lemma filter_filter {A : Type} (f g : A -> bool) (l : list A) :
  filter f (filter g l) = filter (fun x => g x && f x) l.
Proof.
  induction l as [|x l IH]; simpl; [reflexivity|].
  destruct (g x); simpl; [destruct (f x)|]; rewrite IH; reflexivity.
Qed.

Lemma filter_ext_on {A : Type} (f g : A -> bool) (l : list A) :
  (forall x, In x l -> f x = g x) -> filter f l = filter g l.
Proof.
  induction l as [|x l IH]; simpl; intros H; [reflexivity|].
  rewrite (H x (or_introl eq_refl)), IH; auto.
Qed.

(** With distinct keys, [pop] removes every entry for the key. *)
Lemma assoc_del_filter {A : Type} (k : string) (l : list (string * A)) :
  NoDup (keys l) ->
  assoc_del k l = filter (fun kv => negb (String.eqb k (fst kv))) l.
Proof.
  induction l as [|[k0 v0] l IH]; simpl; intros Hnd; [reflexivity|].
  inversion Hnd as [|? ? Hnotin Hnd']; subst.
  destruct (String.eqb k k0) eqn:Hk; simpl.
  - apply String.eqb_eq in Hk. subst k0.
    symmetry. apply filter_none. intros [k1 v1] Hin. simpl.
    destruct (String.eqb k k1) eqn:Hk1; [|reflexivity].
    apply String.eqb_eq in Hk1. subst k1.
    exfalso. apply Hnotin. exact (in_keys _ _ _ Hin).
  - rewrite IH by assumption. reflexivity.
Qed.

Lemma assoc_get_in {A : Type} (k : string) (v : A) (l : list (string * A)) :
  assoc_get k l = Some v -> In (k, v) l.
Proof.
  induction l as [|[k0 v0] l IH]; simpl; [discriminate|].
  destruct (String.eqb k k0) eqn:Hk.
  - apply String.eqb_eq in Hk. subst k0. intros H. injection H as ->.
    left; reflexivity.
  - intros H. right. exact (IH H).
Qed.

Lemma in_assoc_get {A : Type} (k : string) (v : A) (l : list (string * A)) :
  NoDup (keys l) -> In (k, v) l -> assoc_get k l = Some v.
Proof.
  induction l as [|[k0 v0] l IH]; simpl; intros Hnd Hin; [contradiction|].
  inversion Hnd as [|? ? Hnotin Hnd']; subst.
  destruct Hin as [Heq|Hin].
  - injection Heq as -> ->. rewrite String.eqb_refl. reflexivity.
  - destruct (String.eqb k k0) eqn:Hk; [|auto].
    apply String.eqb_eq in Hk. subst k0.
    exfalso. apply Hnotin. exact (in_keys _ _ _ Hin).
Qed.

Lemma in_list_iff (s : string) (l : list string) :
  PyStr.in_list s l = true <-> In s l.
Proof.
  unfold PyStr.in_list. rewrite existsb_exists. split.
  - intros [x [Hin Heq]]. apply String.eqb_eq in Heq. subst. exact Hin.
  - intros Hin. exists s. split; [exact Hin | apply String.eqb_refl].
Qed.

(** ** Claiming the entries of the option mapping *)

Lemma bound_argument_inv (va : _VirtCLIArgumentStatic) (k : string)
    (v : option string) (a : _VirtCLIArgument) :
  _VirtCLIArgument__init__ va k v = Ok a ->
  key a = k /\ _virtarg a = va /\ exists s, v = Some s.
Proof.
  unfold _VirtCLIArgument__init__. destruct v as [s|]; [|discriminate].
  destruct (is_onoff va).
  - destruct (_on_off_convert k (if String.eqb s "" then None else Some s));
      cbn [bind]; [|discriminate].
    intros H; injection H as <-. simpl. eauto.
  - cbn [bind]. intros H; injection H as <-. simpl. eauto.
Qed.

Section BinderFacts.

Variable re_match : string -> string -> bool.

Lemma lookup_virtarg_known (regs : list _VirtCLIArgumentStatic)
    (name : string) :
  is_some (_lookup_virtarg re_match regs name) = known_name re_match regs name.
Proof.
  unfold _lookup_virtarg, known_name.
  induction regs as [|va regs IH]; simpl; [reflexivity|].
  destruct (match_name re_match va name); simpl; [reflexivity | exact IH].
Qed.

(** The first descriptor of the registry that matches decides. *)
Lemma lookup_virtarg_first (done todo : list _VirtCLIArgumentStatic)
    (va : _VirtCLIArgumentStatic) (name : string) :
  known_name re_match done name = false ->
  match_name re_match va name = true ->
  _lookup_virtarg re_match (done ++ va :: todo) name = Some va.
Proof.
  unfold _lookup_virtarg, known_name.
  induction done as [|d done IH]; simpl; intros Hdone Hva.
  - rewrite Hva. reflexivity.
  - apply orb_false_iff in Hdone as [Hd Hdone]. rewrite Hd. auto.
Qed.

Lemma known_name_app (a b : list _VirtCLIArgumentStatic) (name : string) :
  known_name re_match (a ++ b) name
  = known_name re_match a name || known_name re_match b name.
Proof. unfold known_name. apply existsb_app. Qed.

(** One descriptor, run over a snapshot of the keys: the entries it
    matches leave the mapping, and each becomes one bound argument, in
    the order of the snapshot. *)
Lemma claim_keys_spec (va : _VirtCLIArgumentStatic) (ks : list string) :
  forall d ret ret' d',
    NoDup (keys d) ->
    claim_keys re_match va ks d ret = Ok (ret', d') ->
    d' = filter (fun kv => negb (match_name re_match va (fst kv)
                                 && PyStr.in_list (fst kv) ks)) d
    /\ exists new,
        ret' = ret ++ new
        /\ map key new = filter (match_name re_match va) ks
        /\ Forall (fun a => _virtarg a = va
                            /\ exists s,
                                assoc_get (key a) d = Some (Some s)) new.
Proof.
  induction ks as [|k ks IH]; intros d ret ret' d' Hnd H.
  - simpl in H. injection H as <- <-. split.
    + symmetry. apply filter_none. intros kv _.
      rewrite andb_false_r. reflexivity.
    + exists []. rewrite app_nil_r. repeat split. constructor.
  - cbn [claim_keys] in H.
    destruct (match_name re_match va k) eqn:Hmatch.
    + destruct (assoc_get k d) as [v|] eqn:Hget; [|discriminate].
      destruct (_VirtCLIArgument__init__ va k v) as [a|e] eqn:Hinit;
        [|discriminate].
      cbn [bind] in H.
      destruct (bound_argument_inv _ _ _ Hinit) as [Hkey [Hva [s ->]]].
      assert (Hnd' : NoDup (keys (assoc_del k d))).
      { rewrite assoc_del_filter by assumption.
        rewrite (keys_filter (fun x => negb (String.eqb k x))).
        apply nodup_filter. assumption. }
      destruct (IH _ _ _ _ Hnd' H) as [Hd' [new [Hret [Hkeys Hall]]]].
      split.
      * rewrite Hd', assoc_del_filter by assumption.
        rewrite filter_filter. apply filter_ext_on. intros [k1 v1] _.
        cbn [fst PyStr.in_list existsb].
        rewrite (String.eqb_sym k1 k).
        destruct (String.eqb k k1) eqn:Hk1; cbn [negb andb orb].
        -- apply String.eqb_eq in Hk1. subst k1. rewrite Hmatch.
           reflexivity.
        -- reflexivity.
      * exists (a :: new). repeat split.
        -- rewrite Hret, <- app_assoc. reflexivity.
        -- cbn [map filter]. rewrite Hmatch, Hkey, Hkeys. reflexivity.
        -- constructor.
           ++ split; [exact Hva|]. exists s. rewrite Hkey. exact Hget.
           ++ eapply Forall_impl; [|exact Hall].
              intros b [Hb [s' Hs']]. split; [exact Hb|]. exists s'.
              apply in_assoc_get; [assumption|].
              apply assoc_get_in in Hs'.
              rewrite assoc_del_filter in Hs' by assumption.
              apply filter_In in Hs' as [Hin _]. exact Hin.
    + destruct (IH _ _ _ _ Hnd H) as [Hd' [new [Hret [Hkeys Hall]]]].
      split.
      * rewrite Hd'. apply filter_ext_on. intros [k1 v1] _.
        cbn [fst PyStr.in_list existsb].
        destruct (String.eqb k1 k) eqn:Hk1; [|reflexivity].
        apply String.eqb_eq in Hk1. subst k1. rewrite Hmatch. reflexivity.
      * exists new. repeat split; try assumption.
        cbn [filter]. rewrite Hmatch. exact Hkeys.
Qed.

(** The registry run over the mapping.  [done] are the descriptors that
    have already had their turn: none of them matches a key that is
    still in the mapping. *)
Lemma claim_all_spec (todo : list _VirtCLIArgumentStatic) :
  forall done d ret params d',
    NoDup (keys d) ->
    (forall k, In k (keys d) -> known_name re_match done k = false) ->
    claim_all re_match todo d ret = Ok (params, d') ->
    d' = filter (fun kv => negb (known_name re_match todo (fst kv))) d
    /\ exists new,
        params = ret ++ new
        /\ NoDup (map key new)
        /\ Forall (fun a =>
                     (exists s, assoc_get (key a) d = Some (Some s))
                     /\ _lookup_virtarg re_match (done ++ todo) (key a)
                        = Some (_virtarg a)) new
        /\ (forall k, In k (keys d) ->
                      known_name re_match todo k = true ->
                      In k (map key new))
        /\ map key new = claimed_in_registry_order re_match todo (keys d).
Proof.
  induction todo as [|va todo IH]; intros done d ret params d' Hnd Hdone H.
  - simpl in H. injection H as <- <-. split.
    + symmetry. apply filter_none. reflexivity.
    + exists []. rewrite app_nil_r. repeat split; try constructor.
      intros k _ Hk. discriminate Hk.
  - cbn [claim_all] in H.
    destruct (claim_keys re_match va (keys d) d ret) as [[ret1 d1]|e]
      eqn:Hclaim; [|discriminate].
    cbn [bind] in H.
    destruct (claim_keys_spec _ _ _ _ Hnd Hclaim)
      as [Hd1 [new1 [Hret1 [Hkeys1 Hall1]]]].
    assert (Hd1' : d1 = filter (fun kv => negb (match_name re_match va
                                                          (fst kv))) d).
    { rewrite Hd1. apply filter_ext_on. intros [k v] Hin. cbn [fst].
      replace (PyStr.in_list k (keys d)) with true;
        [rewrite andb_true_r; reflexivity|].
      symmetry. apply in_list_iff. exact (in_keys _ _ _ Hin). }
    clear Hd1.
    assert (Hkd1 : keys d1 = filter (fun k => negb (match_name re_match va k))
                                    (keys d)).
    { rewrite Hd1'.
      apply (keys_filter (fun k => negb (match_name re_match va k))). }
    assert (Hnd1 : NoDup (keys d1)).
    { rewrite Hkd1. apply nodup_filter. exact Hnd. }
    assert (Hdone1 : forall k, In k (keys d1) ->
                               known_name re_match (done ++ [va]) k = false).
    { intros k Hk. rewrite Hkd1 in Hk. apply filter_In in Hk as [Hk Hva].
      rewrite known_name_app, (Hdone k Hk). simpl.
      apply negb_true_iff in Hva. rewrite Hva. reflexivity. }
    destruct (IH _ _ _ _ _ Hnd1 Hdone1 H)
      as [Hd' [new2 [Hparams [Hnd2 [Hall2 [Hbound2 Horder2]]]]]].
    split.
    + rewrite Hd', Hd1', filter_filter. apply filter_ext_on.
      intros [k v] _. cbn [fst known_name existsb].
      rewrite negb_orb. reflexivity.
    + exists (new1 ++ new2). repeat split.
      * rewrite Hparams, Hret1, app_assoc. reflexivity.
      * rewrite map_app. apply NoDup_app.
        -- rewrite Hkeys1. apply nodup_filter. exact Hnd.
        -- exact Hnd2.
        -- intros k Hin1 Hin2. rewrite Hkeys1 in Hin1.
           apply filter_In in Hin1 as [_ Hva].
           apply in_map_iff in Hin2 as [a [Hka Ha]].
           rewrite Forall_forall in Hall2.
           destruct (Hall2 a Ha) as [[s Hs] _].
           apply assoc_get_in, in_keys in Hs. rewrite Hka, Hkd1 in Hs.
           apply filter_In in Hs as [_ Hnot].
           rewrite Hva in Hnot. discriminate Hnot.
      * apply Forall_app. split.
        -- rewrite Forall_forall in *. intros a Ha.
           destruct (Hall1 a Ha) as [Hva [s Hs]]. split; [eauto|].
           rewrite <- Hva. apply lookup_virtarg_first.
           ++ apply Hdone. exact (in_keys _ _ _ (assoc_get_in _ _ Hs)).
           ++ assert (Hin : In (key a) (filter (match_name re_match va)
                                               (keys d))).
              { rewrite <- Hkeys1. apply in_map. exact Ha. }
              apply filter_In in Hin as [_ Hm]. rewrite Hva. exact Hm.
        -- eapply Forall_impl; [|exact Hall2].
           intros a [[s Hs] Hlook]. split.
           ++ exists s. apply in_assoc_get; [exact Hnd|].
              apply assoc_get_in in Hs. rewrite Hd1' in Hs.
              apply filter_In in Hs as [Hin _]. exact Hin.
           ++ rewrite <- app_assoc in Hlook. exact Hlook.
      * intros k Hk Hknown. rewrite map_app. apply in_or_app.
        cbn [known_name existsb] in Hknown.
        destruct (match_name re_match va k) eqn:Hva.
        -- left. rewrite Hkeys1. apply filter_In. split; assumption.
        -- right. apply Hbound2; [|exact Hknown].
           rewrite Hkd1. apply filter_In. rewrite Hva. split; auto.
      * rewrite map_app, Hkeys1, Horder2, Hkd1. reflexivity.
Qed.

(** *** The dictionary builder *)

(** [_consume_comma_arg] only pops from the front of [opttuples], and
    keeps the name of the option it completes. *)
Lemma consume_comma_arg_shrinks (regs : list _VirtCLIArgumentStatic)
    (l : list opttuple) :
  forall c c' l',
    _consume_comma_arg re_match regs c l = Ok (c', l') ->
    List.length l' <= List.length l /\ fst c' = fst c.
Proof.
  induction l as [|[name v] l IH]; intros c c' l' H.
  - simpl in H. injection H as <- <-. split; [simpl; lia | reflexivity].
  - cbn [_consume_comma_arg] in H.
    destruct (is_some (_lookup_virtarg re_match regs name)).
    + injection H as <- <-. split; [lia | reflexivity].
    + destruct (snd c) as [cur|]; [|discriminate].
      apply IH in H as [Hlen Hfst]. simpl in *. split; [lia | exact Hfst].
Qed.

Lemma consume_comma_arg_total (regs : list _VirtCLIArgumentStatic)
    (l : list opttuple) :
  forall c, _consume_comma_arg re_match regs c l <> Raise OutOfFuel.
Proof.
  induction l as [|[name v] l IH]; intros c; [discriminate|].
  cbn [_consume_comma_arg].
  destruct (is_some (_lookup_virtarg re_match regs name)); [discriminate|].
  destruct (snd c); [apply IH | discriminate].
Qed.

(** The fuel [_parse_optstr_to_dict] gives the main loop is enough. *)
Lemma build_optdict_fuel (regs : list _VirtCLIArgumentStatic) (fuel : nat) :
  forall opttuples d,
    List.length opttuples <= fuel ->
    build_optdict re_match fuel regs opttuples d <> Raise OutOfFuel.
Proof.
  induction fuel as [|fuel IH]; intros [|[name v] rest] d Hfuel;
    try discriminate; simpl in Hfuel; [lia|].
  cbn [build_optdict].
  destruct (_lookup_virtarg re_match regs name) as [va|];
    [|apply IH; lia].
  destruct (truthy_flag (can_comma va)); [|apply IH; lia].
  destruct (_consume_comma_arg re_match regs (name, v) rest)
    as [[c' rest']|e] eqn:Hc; cbn [bind].
  - apply consume_comma_arg_shrinks in Hc as [Hlen _]. apply IH. lia.
  - intros Heq. injection Heq as ->.
    exact (consume_comma_arg_total _ _ _ Hc).
Qed.

(** The dictionary the builder returns has distinct keys. *)
Lemma build_optdict_nodup (regs : list _VirtCLIArgumentStatic)
    (fuel : nat) :
  forall opttuples d d',
    NoDup (keys d) ->
    build_optdict re_match fuel regs opttuples d = Ok d' ->
    NoDup (keys d').
Proof.
  induction fuel as [|fuel IH]; intros [|[name v] rest] d d' Hnd H;
    cbn [build_optdict] in H; try discriminate;
    try (injection H as <-; exact Hnd).
  destruct (_lookup_virtarg re_match regs name) as [va|].
  - destruct (truthy_flag (can_comma va)).
    + destruct (_consume_comma_arg re_match regs (name, v) rest)
        as [[c' rest']|e]; cbn [bind] in H; [|discriminate].
      eapply IH; [|exact H]. apply nodup_keys_assoc_set. exact Hnd.
    + eapply IH; [|exact H]. apply nodup_keys_assoc_set. exact Hnd.
  - eapply IH; [|exact H]. apply nodup_keys_assoc_set. exact Hnd.
Qed.

Lemma parser_optdict_nodup (c : VirtCLIParser_class)
    (raw : option string) (self : VirtCLIParser) :
  VirtCLIParser__init__ re_match c raw = Ok self ->
  NoDup (keys (optdict self)) /\ cls self = c /\ optstr self = raw.
Proof.
  unfold VirtCLIParser__init__, _parse_optstr_to_dict.
  destruct (parse_optstr_tuples raw) as [tuples|e]; cbn [bind];
    [|discriminate].
  destruct (build_optdict re_match _ (_virtargs c) _ []) as [d|e] eqn:Hd;
    cbn [bind]; [|discriminate].
  intros H. injection H as <-. simpl. repeat split.
  eapply build_optdict_nodup; [|exact Hd]. constructor.
Qed.

(** Building the dictionary never runs out of fuel. *)
Lemma parse_optstr_to_dict_fuel (raw : option string)
    (regs : list _VirtCLIArgumentStatic) (first : list string) :
  _parse_optstr_to_dict re_match raw regs first <> Raise OutOfFuel.
Proof.
  unfold _parse_optstr_to_dict, parse_optstr_tuples.
  destruct (Shlex.split _) as [toks|e] eqn:Hsplit; cbn [bind].
  - apply build_optdict_fuel. lia.
  - intros H. injection H as ->. exact (ShlexFacts.split_fuel _ Hsplit).
Qed.

End BinderFacts.

(** ** Unknown options *)

Section LeftoverFacts.

Variable re_match : string -> string -> bool.

Lemma claim_keys_no_match (va : _VirtCLIArgumentStatic) (ks : list string)
    (d : optdict_t) (ret : list _VirtCLIArgument) :
  (forall k, In k ks -> match_name re_match va k = false) ->
  claim_keys re_match va ks d ret = Ok (ret, d).
Proof.
  induction ks as [|k ks IH]; intros H; [reflexivity|].
  cbn [claim_keys]. rewrite (H k (or_introl eq_refl)).
  apply IH. intros k' Hk'. apply H. right. exact Hk'.
Qed.

Lemma claim_all_unknown (regs : list _VirtCLIArgumentStatic)
    (d : optdict_t) (ret : list _VirtCLIArgument) :
  (forall k, In k (keys d) -> known_name re_match regs k = false) ->
  claim_all re_match regs d ret = Ok (ret, d).
Proof.
  induction regs as [|va regs IH]; intros H; [reflexivity|].
  cbn [claim_all]. rewrite claim_keys_no_match.
  - cbn [bind]. apply IH. intros k Hk.
    specialize (H k Hk). cbn [known_name existsb] in H.
    apply orb_false_iff in H as [_ H]. exact H.
  - intros k Hk. specialize (H k Hk). cbn [known_name existsb] in H.
    apply orb_false_iff in H as [H _]. exact H.
Qed.

(** What [_optdict_to_param_list] returns on a dictionary. *)
Lemma optdict_to_param_list_spec (self : VirtCLIParser) (d : optdict_t)
    (params : list _VirtCLIArgument) (leftover : optdict_t) :
  NoDup (keys d) ->
  _optdict_to_param_list re_match self d = Ok (params, leftover) ->
  keys leftover = unknown_keys re_match (_virtargs (cls self)) (keys d)
  /\ map key params
     = claimed_in_registry_order re_match (_virtargs (cls self)) (keys d)
  /\ NoDup (map key params)
  /\ Forall (fun a =>
               (exists s, assoc_get (key a) d = Some (Some s))
               /\ _lookup_virtarg re_match (_virtargs (cls self)) (key a)
                  = Some (_virtarg a)) params
  /\ (forall k, In k (keys d) ->
                known_name re_match (_virtargs (cls self)) k = true ->
                In k (map key params)).
Proof.
  intros Hnd H. unfold _optdict_to_param_list in H.
  apply (claim_all_spec re_match _ []) in H; [|exact Hnd|reflexivity].
  destruct H as [Hd [new [Hparams [Hnodup [Hall [Hbound Horder]]]]]].
  simpl in Hparams. subst params. repeat split; try assumption.
  rewrite Hd. unfold unknown_keys.
  apply (keys_filter
           (fun k => negb (known_name re_match (_virtargs (cls self)) k))).
Qed.

End LeftoverFacts.

(** C7: in construct mode, once the registry has claimed its entries
    (descriptor after descriptor, in registry order) and these have been
    applied, the keys left in the mapping are exactly the keys no
    descriptor matches, and if there are any the bind fails with the
    "Unknown options" error naming all of them, in mapping order; with
    none left it succeeds.  In particular ["foo=bar"], against a
    registry in which nothing matches [foo], fails naming [foo]. *)
Theorem unknown_options_reported (re_match : string -> string -> bool) :
  (forall (c : VirtCLIParser_class) (raw : option string)
          (self : VirtCLIParser) (heap heap' : obj) (inst : option ref)
          (params : list _VirtCLIArgument) (leftover : optdict_t),
      VirtCLIParser__init__ re_match c raw = Ok self ->
      _optdict_to_param_list re_match self (optdict self)
      = Ok (params, leftover) ->
      parse_params (view self) params heap inst = Ok heap' ->
      let unknown :=
        unknown_keys re_match (_virtargs c) (keys (optdict self)) in
      map key params
      = claimed_in_registry_order re_match (_virtargs c)
                                  (keys (optdict self))
      /\ keys leftover = unknown
      /\ (unknown <> [] ->
          _parse re_match self heap inst
          = Raise (SystemExit (UnknownOptions (cli_flag_name c) unknown)))
      /\ (unknown = [] -> _parse re_match self heap inst = Ok heap'))
  /\ (forall (c : VirtCLIParser_class) (heap : obj) (inst : option ref),
         known_name re_match (_virtargs c) "foo" = false ->
         exists self,
           VirtCLIParser__init__ re_match c (Some "foo=bar") = Ok self
           /\ _parse re_match self heap inst
              = Raise (SystemExit (UnknownOptions (cli_flag_name c)
                                                  ["foo"]))).
Proof.
  split.
  - intros c raw self heap heap' inst params leftover Hinit Hclaim Hparse.
    destruct (parser_optdict_nodup _ _ _ Hinit) as [Hnd [Hcls _]].
    destruct (optdict_to_param_list_spec _ _ _ Hnd Hclaim)
      as [Hleft [Horder _]].
    rewrite Hcls in Hleft, Horder. cbn zeta.
    repeat split; try assumption.
    + intros Hne. unfold _parse. rewrite Hclaim. cbn [bind].
      rewrite Hparse. cbn [bind]. unfold _check_leftover_opts.
      destruct leftover as [|kv leftover].
      * simpl in Hleft. congruence.
      * cbn [bind]. rewrite Hcls, Hleft. reflexivity.
    + intros Hnil. unfold _parse. rewrite Hclaim. cbn [bind].
      rewrite Hparse. cbn [bind]. rewrite Hnil in Hleft.
      destruct leftover; [reflexivity | discriminate Hleft].
  - intros c heap inst Hfoo.
    assert (Hlook : _lookup_virtarg re_match (_virtargs c) "foo" = None).
    { pose proof (lookup_virtarg_known re_match (_virtargs c) "foo") as H.
      rewrite Hfoo in H.
      destruct (_lookup_virtarg re_match (_virtargs c) "foo");
        [discriminate H | reflexivity]. }
    exists {| cls := c; optstr := Some "foo=bar";
              optdict := [("foo", Some "bar")] |}.
    split.
    + unfold VirtCLIParser__init__, _parse_optstr_to_dict.
      change (parse_optstr_tuples (Some "foo=bar"))
        with (Ok [("foo", Some "bar")] : res (list opttuple)).
      cbn [bind splice_remove_first List.length build_optdict].
      rewrite Hlook. reflexivity.
    + unfold _parse, _optdict_to_param_list. cbn [optdict cls].
      rewrite claim_all_unknown.
      * reflexivity.
      * intros k [<-|[]]. exact Hfoo.
Qed.

Lemma unknown_options_reported_witness :
  exists self,
    VirtCLIParser__init__ Re.match_ ParserSecurity
      (Some "type=dynamic,foo=bar,baz=1,model=selinux") = Ok self
    /\ _parse Re.match_ self empty_seclabel (Some [])
       = Raise (SystemExit (UnknownOptions "--security" ["foo"; "baz"])).
Proof.
  pose (raw := "type=dynamic,foo=bar,baz=1,model=selinux").
  pose (self := {| cls := ParserSecurity; optstr := Some raw;
                   optdict := [("type", Some "dynamic"); ("foo", Some "bar");
                               ("baz", Some "1");
                               ("model", Some "selinux")] |}).
  assert (Hinit : VirtCLIParser__init__ Re.match_ ParserSecurity (Some raw)
                  = Ok self) by (vm_compute; reflexivity).
  exists self. split; [exact Hinit|].
  let r := eval vm_compute in
             (_optdict_to_param_list Re.match_ self (optdict self)) in
  match r with
  | Ok (?p, ?l) =>
      assert (Hclaim : _optdict_to_param_list Re.match_ self (optdict self)
                       = Ok (p, l)) by (vm_compute; reflexivity);
      let h := eval vm_compute in
                 (parse_params (view self) p empty_seclabel (Some [])) in
      match h with
      | Ok ?heap' =>
          assert (Hparse : parse_params (view self) p empty_seclabel
                                        (Some []) = Ok heap')
            by (vm_compute; reflexivity);
          destruct (proj1 (unknown_options_reported Re.match_)
                          _ _ _ _ _ _ _ _ Hinit Hclaim Hparse)
            as [_ [_ [Hfail _]]]
      end
  end.
  rewrite Hfail; [reflexivity | discriminate].
Defined.

(** ** Registration *)

Lemma clearxml_init :
  _VirtCLIArgumentStatic__init__ clearxml_args = Ok clearxml_static.
Proof. reflexivity. Qed.

(** [add_arg] looks at the descriptor being added only: when its
    constructor accepts it, it is appended. *)
Lemma add_arg_accepts (regs : list _VirtCLIArgumentStatic) (a : argspec)
    (d : _VirtCLIArgumentStatic) :
  _VirtCLIArgumentStatic__init__ a = Ok d ->
  add_arg regs a
  = (match regs with [] => [clearxml_static] | _ :: _ => regs end ++ [d],
     Ok tt).
Proof.
  intros H. unfold add_arg. rewrite H.
  destruct regs; [rewrite clearxml_init|]; reflexivity.
Qed.

Lemma add_arg_rejects (regs : list _VirtCLIArgumentStatic) (a : argspec)
    (e : exn) :
  _VirtCLIArgumentStatic__init__ a = Raise e ->
  add_arg regs a
  = (match regs with [] => [clearxml_static] | _ :: _ => regs end, Raise e).
Proof.
  intros H. unfold add_arg. rewrite H.
  destruct regs; [rewrite clearxml_init|]; reflexivity.
Qed.

(** C8, counterexample: a second descriptor named [path] registers
    without error after a first one, and both match ["path"]. *)
Lemma duplicate_name_registers :
  ~ ambiguity_rejected_at_registration Re.match_.
Proof.
  intros H.
  destruct (H (fst (add_args [] [positional "path" (Some "path")]))
              (positional "path" (Some "source_path"))
              {| cliname := "path"; propname := Some "source_path";
                 cb := None; can_comma := None; ignore_default := false;
                 aliases := []; is_onoff := false; lookup_cb := None;
                 find_inst_cb := None |}
              "path" eq_refl eq_refl eq_refl) as [e He].
  discriminate He.
Qed.

(** C8, amended: registration performs no ambiguity check: [add_arg]
    appends every descriptor its own constructor accepts, whatever is
    registered already.  A name that several descriptors match is
    resolved at parse time by registry order: the lookup of the
    dictionary builder returns the first descriptor that matches, and
    the binder binds each key of the mapping at most once, to that
    first descriptor. *)
Theorem first_match_wins (re_match : string -> string -> bool) :
  (forall (regs : list _VirtCLIArgumentStatic) (a : argspec)
          (d : _VirtCLIArgumentStatic),
      _VirtCLIArgumentStatic__init__ a = Ok d ->
      add_arg regs a
      = (match regs with [] => [clearxml_static] | _ :: _ => regs end
         ++ [d], Ok tt))
  /\ (forall (done todo : list _VirtCLIArgumentStatic)
             (va : _VirtCLIArgumentStatic) (name : string),
         known_name re_match done name = false ->
         match_name re_match va name = true ->
         _lookup_virtarg re_match (done ++ va :: todo) name = Some va)
  /\ (forall (c : VirtCLIParser_class) (raw : option string)
             (self : VirtCLIParser) (params : list _VirtCLIArgument)
             (leftover : optdict_t),
         VirtCLIParser__init__ re_match c raw = Ok self ->
         _optdict_to_param_list re_match self (optdict self)
         = Ok (params, leftover) ->
         NoDup (map key params)
         /\ Forall (fun a =>
                      _lookup_virtarg re_match (_virtargs c) (key a)
                      = Some (_virtarg a)) params).
Proof.
  split; [|split].
  - intros regs a d. apply add_arg_accepts.
  - apply lookup_virtarg_first.
  - intros c raw self params leftover Hinit Hclaim.
    destruct (parser_optdict_nodup _ _ _ Hinit) as [Hnd [Hcls _]].
    destruct (optdict_to_param_list_spec _ _ _ Hnd Hclaim)
      as [_ [_ [Hnodup [Hall _]]]].
    split; [exact Hnodup|].
    eapply Forall_impl; [|exact Hall].
    intros a [_ Ha]. rewrite <- Hcls. exact Ha.
Qed.

Lemma first_match_wins_witness :
  add_arg [clearxml_static; path_static]
          (positional "path" (Some "source_path"))
  = ([clearxml_static; path_static; source_path_static], Ok tt)
  /\ _lookup_virtarg Re.match_
       [clearxml_static; path_static; source_path_static] "path"
     = Some path_static
  /\ exists self params leftover,
      VirtCLIParser__init__ Re.match_ TwoPaths (Some "path=/tmp/a.img")
      = Ok self
      /\ _optdict_to_param_list Re.match_ self (optdict self)
         = Ok (params, leftover)
      /\ NoDup (map key params)
      /\ Forall (fun a =>
                   _lookup_virtarg Re.match_ (_virtargs TwoPaths) (key a)
                   = Some (_virtarg a)) params.
Proof.
  destruct (first_match_wins Re.match_) as [Hadd [Hlookup Hbind]].
  split; [|split].
  - exact (Hadd [clearxml_static; path_static]
                (positional "path" (Some "source_path"))
                source_path_static eq_refl).
  - exact (Hlookup [clearxml_static] [source_path_static] path_static
                   "path" eq_refl eq_refl).
  - pose (self := {| cls := TwoPaths; optstr := Some "path=/tmp/a.img";
                     optdict := [("path", Some "/tmp/a.img")] |}).
    pose (params := [{| val := PStr "/tmp/a.img"; key := "path";
                        _virtarg := path_static |}]).
    assert (Hinit : VirtCLIParser__init__ Re.match_ TwoPaths
                      (Some "path=/tmp/a.img") = Ok self)
      by (vm_compute; reflexivity).
    assert (Hclaim : _optdict_to_param_list Re.match_ self (optdict self)
                     = Ok (params, []))
      by (vm_compute; reflexivity).
    exists self, params, []. split; [exact Hinit|]. split; [exact Hclaim|].
    exact (Hbind _ _ _ _ _ Hinit Hclaim).
Defined.

(** ** Match-mode equality capability *)

(** C9, counterexample: the [clearxml] descriptor, which [add_arg] puts
    in every registry, has neither an attribute path nor a lookup
    callback. *)
Lemma clearxml_has_no_equality_test : ~ equality_test_always_registered.
Proof.
  intros H.
  specialize (H [] [positional "path" (Some "path")] clearxml_static
                (or_introl eq_refl)
                (fun d' (Hin : In d' []) => match Hin with end)).
  discriminate H.
Qed.

(** C9, amended: a descriptor without an attribute path cannot be
    registered while its [lookup_cb] argument is left unspecified, with
    or without a [cb]; with [lookup_cb] explicitly [None] and a [cb] it
    is registered, as [clearxml] is in every family.  Match-mode
    processing of a bound argument whose descriptor has neither an
    attribute path nor a lookup callback then fails, at match time, with
    the "Don't know how to match" error, without [find_inst_cb] or the
    graph being consulted. *)
Theorem equality_capability (a : argspec) :
  has_propname (s_propname a) = false ->
  (s_lookup_cb a = LookupUnspecified ->
   exists msg, _VirtCLIArgumentStatic__init__ a = Raise (RuntimeError msg))
  /\ (s_lookup_cb a = LookupNone -> is_some (s_cb a) = true ->
      exists d,
        _VirtCLIArgumentStatic__init__ a = Ok d
        /\ propname d = s_propname a /\ lookup_cb d = None
        /\ forall regs, add_arg regs a
           = (match regs with [] => [clearxml_static] | _ :: _ => regs end
              ++ [d], Ok tt))
  /\ (forall (d : _VirtCLIArgumentStatic) (parser : parser_view)
             (k : string) (v : pyval) (heap : obj) (inst : option ref),
         has_propname (propname d) = false -> lookup_cb d = None ->
         lookup_param parser {| val := v; key := k; _virtarg := d |}
                      heap inst
         = Raise (RuntimeError
                    "Don't know how to match device type property")).
Proof.
  intros Hprop. split; [|split].
  - intros Hlookup. unfold _VirtCLIArgumentStatic__init__.
    rewrite Hprop, Hlookup. cbn [negb andb is_unspecified].
    destruct (is_some (s_cb a)); cbn [negb]; eauto.
  - intros Hlookup Hcb.
    assert (Hinit : _VirtCLIArgumentStatic__init__ a
                    = Ok {| cliname := s_cliname a;
                            propname := s_propname a;
                            cb := s_cb a;
                            can_comma := s_can_comma a;
                            ignore_default := s_ignore_default a;
                            aliases := s_aliases a;
                            is_onoff := s_is_onoff a;
                            lookup_cb := None;
                            find_inst_cb := s_find_inst_cb a |}).
    { unfold _VirtCLIArgumentStatic__init__.
      rewrite Hprop, Hlookup, Hcb. reflexivity. }
    eexists. split; [exact Hinit|]. repeat split.
    intros regs. apply add_arg_accepts. exact Hinit.
  - intros d parser k v heap inst Hp Hl. unfold lookup_param.
    cbn [_virtarg]. rewrite Hp, Hl. reflexivity.
Qed.

Lemma equality_capability_witness :
  has_propname (s_propname clearxml_args) = false
  /\ (exists d,
         _VirtCLIArgumentStatic__init__ clearxml_args = Ok d
         /\ propname d = None /\ lookup_cb d = None)
  /\ lookup_param
       {| pv_optstr := Some "clearxml=yes"; pv_guest_propname := Some "cpu";
          pv_cli_arg_name := "cpu"; pv_optdict := [("clearxml", Some "yes")] |}
       {| val := PBool true; key := "clearxml"; _virtarg := clearxml_static |}
       (Obj [] []) (Some [])
     = Raise (RuntimeError "Don't know how to match device type property").
Proof.
  destruct (equality_capability clearxml_args eq_refl) as [_ [Hreg Hmatch]].
  split; [reflexivity|]. split.
  - destruct (Hreg eq_refl eq_refl) as [d [Hd [Hp [Hl _]]]].
    exists d. repeat split; assumption.
  - apply Hmatch; reflexivity.
Defined.

(** ** The implicit [clearxml] descriptor *)

Lemma add_arg_keeps_head (regs : list _VirtCLIArgumentStatic) (a : argspec) :
  exists added,
    fst (add_arg regs a)
    = match regs with [] => [clearxml_static] | _ :: _ => regs end ++ added
    /\ (added = []
        \/ exists d, added = [d] /\ _VirtCLIArgumentStatic__init__ a = Ok d).
Proof.
  destruct (_VirtCLIArgumentStatic__init__ a) as [d|e] eqn:Hinit.
  - rewrite (add_arg_accepts _ _ Hinit). exists [d]. simpl. eauto.
  - rewrite (add_arg_rejects _ _ Hinit). exists []. rewrite app_nil_r. auto.
Qed.

(** A run of [add_arg] calls only appends descriptors built from the
    arguments of the calls. *)
Lemma add_args_appends (l : list argspec) :
  forall regs, regs <> [] ->
    exists added,
      fst (add_args regs l) = regs ++ added
      /\ Forall (fun d => exists a,
                     In a l /\ _VirtCLIArgumentStatic__init__ a = Ok d) added.
Proof.
  induction l as [|a l IH]; intros regs Hne.
  - exists []. rewrite app_nil_r. split; [reflexivity | constructor].
  - cbn [add_args].
    destruct (_VirtCLIArgumentStatic__init__ a) as [d|e] eqn:Hinit.
    + rewrite (add_arg_accepts _ _ Hinit).
      destruct regs as [|r regs]; [contradiction|].
      destruct (IH ((r :: regs) ++ [d])) as [added [Heq Hall]];
        [destruct regs; discriminate|].
      exists (d :: added). split.
      * rewrite Heq, <- app_assoc. reflexivity.
      * constructor.
        -- exists a. split; [left; reflexivity | exact Hinit].
        -- eapply Forall_impl; [|exact Hall].
           intros d' [a' [Hin Ha']]. exists a'. split; [right|]; assumption.
    + rewrite (add_arg_rejects _ _ Hinit).
      destruct regs as [|r regs]; [contradiction|].
      exists []. rewrite app_nil_r. split; [reflexivity | constructor].
Qed.

(** C10: the first call of [add_arg] on an empty registry puts the
    [clearxml] descriptor (boolean-normalized, no attribute path, lookup
    callback explicitly none, bound to [_clearxml_cb]) in front, whether
    or not the descriptor being added is accepted; after any run of
    [add_arg] calls it is still the first entry, followed only by
    descriptors built from the explicit registrations, and the lookup of
    ["clearxml"] in the registry returns it. *)
Theorem clearxml_registered_first :
  _VirtCLIArgumentStatic__init__ clearxml_args = Ok clearxml_static
  /\ (cliname clearxml_static = "clearxml"
      /\ is_onoff clearxml_static = true
      /\ propname clearxml_static = None
      /\ s_lookup_cb clearxml_args = LookupNone
      /\ lookup_cb clearxml_static = None
      /\ cb clearxml_static = Some _clearxml_cb)
  /\ (forall a, exists rest,
         fst (add_arg [] a) = clearxml_static :: rest)
  /\ (forall a l, exists rest,
         fst (add_args [] (a :: l)) = clearxml_static :: rest
         /\ Forall (fun d => exists a',
                        In a' (a :: l)
                        /\ _VirtCLIArgumentStatic__init__ a' = Ok d) rest
         /\ _lookup_virtarg Re.match_ (fst (add_args [] (a :: l)))
                            "clearxml"
            = Some clearxml_static).
Proof.
  split; [reflexivity|]. split; [repeat split|]. split.
  - intros a. destruct (add_arg_keeps_head [] a) as [added [Heq _]].
    exists added. exact Heq.
  - intros a l. cbn [add_args].
    assert (Hrest : exists rest,
               fst (add_args [] (a :: l)) = clearxml_static :: rest
               /\ Forall (fun d => exists a',
                              In a' (a :: l)
                              /\ _VirtCLIArgumentStatic__init__ a' = Ok d)
                         rest).
    { cbn [add_args].
      destruct (_VirtCLIArgumentStatic__init__ a) as [d|e] eqn:Hinit.
      - rewrite (add_arg_accepts _ _ Hinit).
        destruct (@add_args_appends l ([clearxml_static] ++ [d]))
          as [added [Heq Hall]]; [discriminate|].
        exists (d :: added). split; [rewrite Heq; reflexivity|].
        constructor.
        + exists a. split; [left; reflexivity | exact Hinit].
        + eapply Forall_impl; [|exact Hall].
          intros d' [a' [Hin Ha']]. exists a'. split; [right|]; assumption.
      - rewrite (add_arg_rejects _ _ Hinit).
        exists []. split; [reflexivity | constructor]. }
    destruct Hrest as [rest [Heq Hall]]. exists rest.
    cbn [add_args] in Heq. rewrite Heq.
    split; [reflexivity|]. split; [exact Hall | reflexivity].
Qed.

(** ** Introspection order *)

Module OrderFacts.

Lemma ltb_cons (x y : ascii) (a b : string) :
  PyStr.ltb (String x a) (String y b) =
    if Nat.ltb (nat_of_ascii x) (nat_of_ascii y) then true
    else if Nat.ltb (nat_of_ascii y) (nat_of_ascii x) then false
    else PyStr.ltb a b.
Proof. reflexivity. Qed.

Lemma ltb_asym (a : string) :
  forall b, PyStr.ltb a b = true -> PyStr.ltb b a = false.
Proof.
  induction a as [|x a IH]; intros [|y b]; try reflexivity; try discriminate.
  rewrite !ltb_cons.
  destruct (Nat.ltb_spec (nat_of_ascii x) (nat_of_ascii y));
    destruct (Nat.ltb_spec (nat_of_ascii y) (nat_of_ascii x));
    try lia; try discriminate; auto.
Qed.

(** [z < x] and [x <= y] give [z < y]. *)
Lemma ltb_le_trans (z : string) :
  forall x y,
    PyStr.ltb z x = true -> PyStr.ltb y x = false -> PyStr.ltb z y = true.
Proof.
  induction z as [|cz z IH]; intros [|cx x] [|cy y]; try reflexivity;
    try discriminate.
  rewrite !ltb_cons.
  destruct (Nat.ltb_spec (nat_of_ascii cz) (nat_of_ascii cx));
    destruct (Nat.ltb_spec (nat_of_ascii cx) (nat_of_ascii cz));
    destruct (Nat.ltb_spec (nat_of_ascii cy) (nat_of_ascii cx));
    destruct (Nat.ltb_spec (nat_of_ascii cx) (nat_of_ascii cy));
    destruct (Nat.ltb_spec (nat_of_ascii cz) (nat_of_ascii cy));
    destruct (Nat.ltb_spec (nat_of_ascii cy) (nat_of_ascii cz));
    try lia; try discriminate; try reflexivity.
  apply IH.
Qed.

Lemma str_le_trans (a b c : string) :
  str_le a b -> str_le b c -> str_le a c.
Proof.
  unfold str_le. intros Hab Hbc.
  destruct (PyStr.ltb c a) eqn:Hca; [|reflexivity].
  rewrite (@ltb_le_trans c a b Hca Hab) in Hbc. discriminate Hbc.
Qed.

Section Sorting.

Variable A : Type.
Variable key : A -> string.

Lemma insert_by_in (x y : A) (l : list A) :
  In y (insert_by key x l) <-> y = x \/ In y l.
Proof.
  induction l as [|z l IH]; simpl; [intuition|].
  destruct (PyStr.ltb (key z) (key x)); simpl; rewrite ?IH; intuition.
Qed.

Lemma insert_by_sorted (x : A) (l : list A) :
  StronglySorted (key_le key) l -> StronglySorted (key_le key) (insert_by key x l).
Proof.
  induction 1 as [|z l Hsorted IH Hall]; simpl.
  - constructor; constructor.
  - destruct (PyStr.ltb (key z) (key x)) eqn:Hzx.
    + constructor; [exact IH|].
      apply Forall_forall. intros y Hy.
      apply insert_by_in in Hy as [->|Hy].
      * unfold key_le, str_le. apply ltb_asym. exact Hzx.
      * rewrite Forall_forall in Hall. exact (Hall y Hy).
    + constructor; [constructor; assumption|].
      constructor; [exact Hzx|].
      eapply Forall_impl; [|exact Hall].
      intros y Hy. exact (@str_le_trans _ _ _ Hzx Hy).
Qed.

Lemma sorted_sorted (l : list A) : StronglySorted (key_le key) (sorted key l).
Proof.
  induction l as [|x l IH]; simpl; [constructor|].
  apply insert_by_sorted. exact IH.
Qed.

Lemma insert_by_perm (x : A) (l : list A) :
  Permutation (insert_by key x l) (x :: l).
Proof.
  induction l as [|z l IH]; simpl; [reflexivity|].
  destruct (PyStr.ltb (key z) (key x)); [|reflexivity].
  rewrite IH. apply perm_swap.
Qed.

Lemma sorted_perm (l : list A) : Permutation (sorted key l) l.
Proof.
  induction l as [|x l IH]; simpl; [reflexivity|].
  rewrite insert_by_perm. constructor. exact IH.
Qed.

Lemma filter_sorted (R : A -> A -> Prop) (f : A -> bool) (l : list A) :
  StronglySorted R l -> StronglySorted R (filter f l).
Proof.
  induction 1 as [|x l Hsorted IH Hall]; simpl; [constructor|].
  destruct (f x); [|exact IH].
  constructor; [exact IH|].
  apply Forall_forall. intros y Hy. apply filter_In in Hy as [Hy _].
  rewrite Forall_forall in Hall. exact (Hall y Hy).
Qed.

Lemma filter_class_none (class : A -> nat) (n : nat) (x : A) (l : list A) :
  Forall (fun y => class x <= class y) l -> n < class x ->
  filter (fun y => Nat.eqb (class y) n) l = [].
Proof.
  intros Hall Hn. induction Hall as [|y l Hy Hall IH]; [reflexivity|].
  simpl. destruct (Nat.eqb_spec (class y) n); [lia | exact IH].
Qed.

(** A list whose classes, among 0, 1 and 2, never decrease is its three
    classes one after the other. *)
Lemma three_classes (class : A -> nat) (l : list A) :
  StronglySorted (fun x y => class x <= class y) l ->
  Forall (fun x => class x <= 2) l ->
  l = filter (fun x => Nat.eqb (class x) 0) l
      ++ filter (fun x => Nat.eqb (class x) 1) l
      ++ filter (fun x => Nat.eqb (class x) 2) l.
Proof.
  induction 1 as [|x l Hsorted IH Hall]; intros Hle; [reflexivity|].
  inversion Hle as [|? ? Hx Hl]; subst. specialize (IH Hl).
  assert (Hnone : forall n, n < class x ->
                    filter (fun y => Nat.eqb (class y) n) l = []).
  { intros n Hn. exact (@filter_class_none class n x l Hall Hn). }
  cbn [filter].
  destruct (Nat.eqb_spec (class x) 0) as [H0|H0].
  - rewrite H0. cbn [Nat.eqb]. simpl. f_equal. exact IH.
  - destruct (Nat.eqb_spec (class x) 1) as [H1|H1].
    + rewrite H1. cbn [Nat.eqb]. rewrite (Hnone 0) by lia.
      simpl. f_equal. rewrite (Hnone 0) in IH by lia. exact IH.
    + destruct (Nat.eqb_spec (class x) 2) as [H2|H2]; [|lia].
      rewrite (Hnone 0), (Hnone 1) by lia. simpl. f_equal.
      rewrite (Hnone 0), (Hnone 1) in IH by lia. exact IH.
Qed.

End Sorting.

End OrderFacts.

Lemma sorted_map_impl {A B : Type} (R : A -> A -> Prop)
    (R' : B -> B -> Prop) (P : A -> Prop) (f : A -> B) (l : list A) :
  (forall x y, P x -> P y -> R x y -> R' (f x) (f y)) ->
  StronglySorted R l -> Forall P l -> StronglySorted R' (map f l).
Proof.
  intros Himpl. induction 1 as [|x l Hsorted IH Hall]; intros HP;
    [constructor|].
  inversion HP as [|? ? Hx Hl]; subst. simpl.
  constructor; [exact (IH Hl)|].
  apply Forall_forall. intros b Hb.
  apply in_map_iff in Hb as [y [<- Hy]].
  rewrite Forall_forall in Hall, Hl. apply Himpl; auto.
Qed.

Lemma sortkey_cases (va : _VirtCLIArgumentStatic) :
  (name_class (cliname va) = 0
   /\ cliname va = "clearxml" /\ _sortkey va = "0clearxml")
  \/ (name_class (cliname va) = 1
      /\ PyStr.startswith "address." (cliname va) = true
      /\ _sortkey va = String "1" (cliname va))
  \/ (name_class (cliname va) = 2
      /\ cliname va <> "clearxml"
      /\ PyStr.startswith "address." (cliname va) = false
      /\ _sortkey va = cliname va).
Proof.
  unfold name_class, _sortkey.
  destruct (PyStr.startswith "address." (cliname va)) eqn:Haddr.
  - right; left. repeat split.
  - destruct (String.eqb (cliname va) "clearxml") eqn:Hclear.
    + left. apply String.eqb_eq in Hclear. rewrite Hclear. auto.
    + right; right. apply String.eqb_neq in Hclear. auto.
Qed.

(** A lower class sorts first, for names that start after ["1"]. *)
Lemma sortkey_class_order (x y : _VirtCLIArgumentStatic) :
  starts_after_one (cliname x) = true ->
  starts_after_one (cliname y) = true ->
  name_class (cliname x) < name_class (cliname y) ->
  PyStr.ltb (_sortkey x) (_sortkey y) = true.
Proof.
  intros Hx Hy Hlt.
  destruct (sortkey_cases x) as [[Cx [_ Kx]]|[[Cx [_ Kx]]|[Cx _]]];
    destruct (sortkey_cases y) as [[Cy _]|[[Cy [_ Ky]]|[Cy [_ [_ Ky]]]]];
    rewrite Cx, Cy in Hlt; try lia; rewrite Kx, Ky.
  - reflexivity.
  - destruct (cliname y) as [|c r]; [discriminate Hy|].
    simpl in Hy. apply Nat.ltb_lt in Hy.
    change "0clearxml" with (String "0" "clearxml").
    rewrite OrderFacts.ltb_cons.
    change (nat_of_ascii "0") with 48.
    destruct (Nat.ltb_spec 48 (nat_of_ascii c)); [reflexivity | lia].
  - destruct (cliname y) as [|c r]; [discriminate Hy|].
    simpl in Hy. apply Nat.ltb_lt in Hy.
    rewrite OrderFacts.ltb_cons.
    change (nat_of_ascii "1") with 49.
    destruct (Nat.ltb_spec 49 (nat_of_ascii c)); [reflexivity | lia].
Qed.

Lemma name_class_le_2 (name : string) : name_class name <= 2.
Proof.
  unfold name_class.
  destruct (PyStr.startswith "address." name); [lia|].
  destruct (String.eqb name "clearxml"); lia.
Qed.

(** C4, counterexample: in the listing of the disk family, built with
    [add_arg], ["bus"] follows ["address.bus"] and ["address.type"]. *)
Lemma address_options_come_second : ~ clearxml_first_address_last.
Proof.
  intros H.
  destruct (H ParserDisk (positional "address.type" (Some "address.type"))
              (tl ParserDisk_args) eq_refl) as [_ Hlast].
  specialize (Hlast ["clearxml"] "address.bus"
                    ["address.type"; "bus"; "device"; "path"]
                    eq_refl eq_refl).
  inversion Hlast as [|? ? _ Hrest]; subst.
  inversion Hrest as [|? ? Hbus _]; subst.
  discriminate Hbus.
Qed.

(** C4, amended: the listing is the registry sorted by [_sortkey]; when
    every option name starts with a character that sorts after ["1"]
    (all names of the option tables start with a letter), it shows the
    [clearxml] option first, then the [address.]-prefixed options, in
    ascending order, then all other options, in ascending order: the
    address options come directly after [clearxml], before the rest. *)
Theorem introspection_order (c : VirtCLIParser_class) :
  Forall (fun va => starts_after_one (cliname va) = true) (_virtargs c) ->
  exists clear address others,
    introspection_names c = clear ++ address ++ others
    /\ Forall (fun name => name = "clearxml") clear
    /\ Forall (fun name => PyStr.startswith "address." name = true) address
    /\ Forall (fun name => name <> "clearxml"
                           /\ PyStr.startswith "address." name = false)
              others
    /\ StronglySorted str_le address
    /\ StronglySorted str_le others
    /\ Permutation (introspection_names c) (map cliname (_virtargs c))
    /\ (In "clearxml" (map cliname (_virtargs c)) ->
        exists rest, introspection_names c = "clearxml" :: rest).
Proof.
  intros Hnames. unfold introspection_names.
  set (out := sorted _sortkey (_virtargs c)).
  assert (Hperm : Permutation out (_virtargs c))
    by apply OrderFacts.sorted_perm.
  assert (Hout : Forall (fun va => starts_after_one (cliname va) = true) out).
  { apply Forall_forall. intros va Hva. rewrite Forall_forall in Hnames.
    apply Hnames. exact (Permutation_in _ Hperm Hva). }
  assert (Hsorted : StronglySorted (key_le _sortkey) out)
    by apply OrderFacts.sorted_sorted.
  pose (class := fun va => name_class (cliname va)).
  assert (Hclass : StronglySorted (fun x y => class x <= class y) out).
  { rewrite <- (map_id out).
    apply (@sorted_map_impl _ _ (key_le _sortkey) _
             (fun va => starts_after_one (cliname va) = true) (fun x => x));
      try assumption.
    intros x y Hx Hy Hle. unfold class.
    destruct (Nat.le_gt_cases (name_class (cliname x))
                              (name_class (cliname y))) as [?|Hgt];
      [assumption|].
    pose proof (sortkey_class_order _ _ Hy Hx Hgt) as Hlt.
    unfold key_le, str_le in Hle. congruence. }
  assert (Hsplit := @OrderFacts.three_classes _ class out Hclass).
  assert (Hle2 : Forall (fun x => class x <= 2) out).
  { apply Forall_forall. intros x _. apply name_class_le_2. }
  specialize (Hsplit Hle2).
  set (f0 := filter (fun x => Nat.eqb (class x) 0) out) in *.
  set (f1 := filter (fun x => Nat.eqb (class x) 1) out) in *.
  set (f2 := filter (fun x => Nat.eqb (class x) 2) out) in *.
  assert (H0 : Forall (fun name => name = "clearxml") (map cliname f0)).
  { apply Forall_forall. intros n Hn. apply in_map_iff in Hn as [x [<- Hx]].
    apply filter_In in Hx as [_ Hx]. apply Nat.eqb_eq in Hx.
    unfold class in Hx.
    destruct (sortkey_cases x) as [[_ [Hc _]]|[[Cx _]|[Cx _]]];
      [exact Hc | rewrite Cx in Hx; discriminate
       | rewrite Cx in Hx; discriminate]. }
  assert (H1 : Forall (fun name => PyStr.startswith "address." name = true)
                      (map cliname f1)).
  { apply Forall_forall. intros n Hn. apply in_map_iff in Hn as [x [<- Hx]].
    apply filter_In in Hx as [_ Hx]. apply Nat.eqb_eq in Hx.
    unfold class in Hx.
    destruct (sortkey_cases x) as [[Cx _]|[[_ [Ha _]]|[Cx _]]];
      [rewrite Cx in Hx; discriminate | exact Ha
       | rewrite Cx in Hx; discriminate]. }
  assert (H2 : Forall (fun name => name <> "clearxml"
                                   /\ PyStr.startswith "address." name = false)
                      (map cliname f2)).
  { apply Forall_forall. intros n Hn. apply in_map_iff in Hn as [x [<- Hx]].
    apply filter_In in Hx as [_ Hx]. apply Nat.eqb_eq in Hx.
    unfold class in Hx.
    destruct (sortkey_cases x) as [[Cx _]|[[Cx _]|[_ [Hc [Ha _]]]]];
      [rewrite Cx in Hx; discriminate | rewrite Cx in Hx; discriminate
       | split; assumption]. }
  exists (map cliname f0), (map cliname f1), (map cliname f2).
  split; [rewrite <- !map_app; f_equal; exact Hsplit|].
  split; [exact H0|]. split; [exact H1|]. split; [exact H2|].
  split; [|split; [|split]].
  - apply (@sorted_map_impl _ _ (key_le _sortkey) str_le
             (fun va => name_class (cliname va) = 1) cliname).
    + intros x y Cx Cy Hle. unfold key_le, str_le in *.
      destruct (sortkey_cases x) as [[C _]|[[_ [_ Kx]]|[C _]]];
        try (rewrite C in Cx; discriminate).
      destruct (sortkey_cases y) as [[C _]|[[_ [_ Ky]]|[C _]]];
        try (rewrite C in Cy; discriminate).
      rewrite Kx, Ky, OrderFacts.ltb_cons, Nat.ltb_irrefl in Hle.
      exact Hle.
    + apply OrderFacts.filter_sorted. exact Hsorted.
    + apply Forall_forall. intros x Hx. apply filter_In in Hx as [_ Hx].
      apply Nat.eqb_eq in Hx. exact Hx.
  - apply (@sorted_map_impl _ _ (key_le _sortkey) str_le
             (fun va => name_class (cliname va) = 2) cliname).
    + intros x y Cx Cy Hle. unfold key_le, str_le in *.
      destruct (sortkey_cases x) as [[C _]|[[C _]|[_ [_ [_ Kx]]]]];
        try (rewrite C in Cx; discriminate).
      destruct (sortkey_cases y) as [[C _]|[[C _]|[_ [_ [_ Ky]]]]];
        try (rewrite C in Cy; discriminate).
      rewrite Kx, Ky in Hle. exact Hle.
    + apply OrderFacts.filter_sorted. exact Hsorted.
    + apply Forall_forall. intros x Hx. apply filter_In in Hx as [_ Hx].
      apply Nat.eqb_eq in Hx. exact Hx.
  - apply Permutation_map. exact Hperm.
  - intros Hin.
    assert (Hin' : In "clearxml" (map cliname out)).
    { apply in_map_iff in Hin as [x [Hx Hin]].
      apply in_map_iff. exists x. split; [exact Hx|].
      exact (Permutation_in _ (Permutation_sym Hperm) Hin). }
    rewrite Hsplit, !map_app in Hin'.
    destruct (map cliname f0) as [|n0 rest0] eqn:Hf0.
    + exfalso. simpl in Hin'. apply in_app_or in Hin' as [Hin'|Hin'].
      * rewrite Forall_forall in H1. specialize (H1 _ Hin').
        discriminate H1.
      * rewrite Forall_forall in H2. destruct (H2 _ Hin') as [Hne _].
        apply Hne. reflexivity.
    + inversion H0 as [|? ? Hn0 _]; subst n0.
      exists (rest0 ++ map cliname f1 ++ map cliname f2).
      rewrite Hsplit, !map_app, Hf0. reflexivity.
Qed.

Lemma introspection_order_witness :
  Forall (fun va => starts_after_one (cliname va) = true)
         (_virtargs ParserDisk)
  /\ introspection_names ParserDisk
     = ["clearxml"; "address.bus"; "address.type"; "bus"; "device"; "path"]
  /\ exists clear address others,
      introspection_names ParserDisk = clear ++ address ++ others
      /\ Forall (fun name => name = "clearxml") clear
      /\ Forall (fun name => PyStr.startswith "address." name = true) address
      /\ Forall (fun name => name <> "clearxml"
                             /\ PyStr.startswith "address." name = false)
                others.
Proof.
  assert (H : Forall (fun va => starts_after_one (cliname va) = true)
                     (_virtargs ParserDisk))
    by (repeat constructor).
  split; [exact H|]. split; [reflexivity|].
  destruct (introspection_order ParserDisk H)
    as [clear [address [others [Heq [Hc [Ha [Ho _]]]]]]].
  exists clear, address, others. repeat split; assumption.
Defined.

(** ** Absent values fail, empty values unset *)

Module AbsentFacts.
Import TokenSpec.

Lemma list_ascii_app (a b : string) :
  list_ascii_of_string (a ++ b)
  = list_ascii_of_string a ++ list_ascii_of_string b.
Proof. induction a as [|c a IH]; simpl; [|rewrite IH]; reflexivity. Qed.

Lemma snoc_append (cur : string) (c : ascii) (rest : string) :
  (Shlex.snoc cur c ++ rest)%string = (cur ++ String c rest)%string.
Proof.
  unfold Shlex.snoc. induction cur as [|d cur IH]; simpl;
    [|rewrite IH]; reflexivity.
Qed.

(** Without a comma there is one field. *)
Lemma fields_one (l : list ascii) :
  forall cur,
    forallb (fun c => negb (Ascii.eqb c comma)) l = true ->
    fields cur l = [(cur ++ string_of_list_ascii l)%string].
Proof.
  induction l as [|c l IH]; intros cur H; simpl.
  - unfold fields. f_equal. induction cur as [|d cur IHc]; simpl;
      [|rewrite <- IHc]; reflexivity.
  - simpl in H. apply andb_true_iff in H as [Hc Hl].
    apply negb_true_iff in Hc. rewrite Hc, (IH _ Hl), snoc_append.
    reflexivity.
Qed.

Lemma bare_char_inv (c : ascii) :
  bare_char c = true ->
  plain_char c = true /\ Ascii.eqb c comma = false /\ Ascii.eqb c "=" = false.
Proof.
  unfold bare_char. rewrite !andb_true_iff, !negb_true_iff. tauto.
Qed.

Lemma bare_name_inv (name : string) :
  bare_name name = true ->
  PyStr.truthy name = true
  /\ plain name = true
  /\ forallb (fun c => negb (Ascii.eqb c comma)) (list_ascii_of_string name)
     = true
  /\ PyStr.mem "=" name = false.
Proof.
  unfold bare_name, plain. rewrite andb_true_iff. intros [Ht Hall].
  split; [exact Ht|]. clear Ht.
  induction name as [|c name IH]; [auto|].
  cbn [list_ascii_of_string forallb PyStr.mem] in *.
  apply andb_true_iff in Hall as [Hc Hall].
  destruct (IH Hall) as [Hp [Hcomma Heq]].
  destruct (bare_char_inv _ Hc) as [Hpc [Hcc Hec]].
  rewrite Hpc, Hp, Hcc, Hcomma, (Ascii.eqb_sym "=" c), Hec, Heq.
  repeat split.
Qed.

(** A bare name is one token with an absent value; followed by ["="] it
    is one token with the empty string as value. *)
Lemma tokenize_bare_name (name : string) :
  bare_name name = true ->
  parse_optstr_tuples (Some name) = Ok [(name, None)]
  /\ parse_optstr_tuples (Some (name ++ "=")%string) = Ok [(name, Some "")].
Proof.
  intros Hbare.
  destruct (bare_name_inv _ Hbare) as [Htruthy [Hplain [Hcomma Heq]]].
  unfold parse_optstr_tuples. split.
  - rewrite (ShlexFacts.split_plain _ Hplain). unfold fields_of.
    rewrite (fields_one _ _ Hcomma). cbn [String.append].
    rewrite string_of_list_ascii_of_string. cbn [filter].
    rewrite Htruthy. cbn [bind flat_map]. rewrite app_nil_r.
    f_equal. exact (proj1 split_opt_spec name Htruthy Heq).
  - assert (Hplain' : plain (name ++ "=") = true).
    { unfold plain in *. rewrite list_ascii_app, forallb_app, Hplain.
      reflexivity. }
    assert (Hcomma' : forallb (fun c => negb (Ascii.eqb c comma))
                        (list_ascii_of_string (name ++ "=")) = true).
    { rewrite list_ascii_app, forallb_app, Hcomma. reflexivity. }
    rewrite (ShlexFacts.split_plain _ Hplain'). unfold fields_of.
    rewrite (fields_one _ _ Hcomma'). cbn [String.append].
    rewrite string_of_list_ascii_of_string. cbn [filter].
    rewrite (truthy_append name "=" eq_refl). cbn [bind flat_map].
    rewrite app_nil_r.
    f_equal. exact (proj2 split_opt_spec name "" Heq).
Qed.

End AbsentFacts.

(** Assigning through a plain attribute descriptor. *)
Lemma parse_param_assigns (parser : parser_view) (d : _VirtCLIArgumentStatic)
    (k p : string) (v v0 : pyval) (heap o : obj) (r : ref) :
  cb d = None -> find_inst_cb d = None ->
  propname d = Some p -> PyStr.truthy p = true ->
  pyval_eqb v (PStr "default") && ignore_default d = false ->
  Graph.resolve heap r = Some o ->
  assoc_get p (props o) = Some v0 ->
  exists heap',
    parse_param parser {| val := v; key := k; _virtarg := d |} heap (Some r)
    = Ok heap'
    /\ Graph.resolve heap' r = Some (Obj (assoc_set p v (props o)) (lists o))
    /\ Graph.get_prop_path heap' (Some r) (Some p) = Ok v.
Proof.
  intros Hcb Hfind Hprop Hp Hdefault Hres Hget.
  destruct (@update_resolve r heap o (Obj (assoc_set p v (props o)) (lists o))
              (fun o => match assoc_get p (props o) with
                        | Some _ => Ok (Obj (assoc_set p v (props o))
                                            (lists o))
                        | None => Raise (AttributeError p)
                        end) Hres)
    as [heap' [Hupd Hres']]; [rewrite Hget; reflexivity|].
  exists heap'. unfold parse_param. cbn [val _virtarg].
  rewrite Hdefault, Hfind, Hprop, Hcb. cbn [bind has_propname].
  rewrite Hp. unfold Graph.get_prop_path, Graph.deref.
  rewrite Hres. cbn [bind]. rewrite Hget. cbn [bind].
  unfold Graph.set_prop_path. rewrite Hupd, Hres'. cbn [bind props].
  rewrite assoc_get_set. repeat split.
Qed.

(** A mapping that holds a key without a value cannot be bound. *)
Lemma absent_value_fails_parse (re_match : string -> string -> bool)
    (self : VirtCLIParser) (heap : obj) (inst : option ref) (k : string) :
  NoDup (keys (optdict self)) ->
  In (k, None) (optdict self) ->
  exists e, _parse re_match self heap inst = Raise e.
Proof.
  intros Hnd Hin. unfold _parse.
  destruct (_optdict_to_param_list re_match self (optdict self))
    as [[params leftover]|e] eqn:Hclaim; [|eexists; reflexivity].
  cbn [bind].
  destruct (optdict_to_param_list_spec _ _ _ Hnd Hclaim)
    as [Hleft [_ [_ [Hall Hbound]]]].
  assert (Hunknown : known_name re_match (_virtargs (cls self)) k = false).
  { destruct (known_name re_match (_virtargs (cls self)) k) eqn:Hk;
      [|reflexivity].
    specialize (Hbound k (in_keys _ _ _ Hin) Hk).
    apply in_map_iff in Hbound as [a [Hka Ha]].
    rewrite Forall_forall in Hall. destruct (Hall a Ha) as [[s Hs] _].
    rewrite Hka, (in_assoc_get _ _ _ Hnd Hin) in Hs. discriminate Hs. }
  assert (Hk : In k (keys leftover)).
  { rewrite Hleft. unfold unknown_keys. apply filter_In.
    split; [exact (in_keys _ _ _ Hin) | rewrite Hunknown; reflexivity]. }
  destruct (parse_params (view self) params heap inst);
    [|eexists; reflexivity].
  cbn [bind]. destruct leftover as [|kv leftover]; [contradiction|].
  eexists; reflexivity.
Qed.

(** C6: a token written without ["="] has an absent value, a token
    ["name="] the empty string.  Binding an absent value fails, for any
    descriptor, and a mapping holding a key without a value cannot be
    bound in construct mode; binding the empty string does not fail: it
    becomes the unset marker before conversion, and a plain attribute
    descriptor then assigns the unset marker. *)
Theorem absent_versus_empty (re_match : string -> string -> bool) :
  (forall name,
      TokenSpec.bare_name name = true ->
      parse_optstr_tuples (Some name) = Ok [(name, None)]
      /\ parse_optstr_tuples (Some (name ++ "=")%string)
         = Ok [(name, Some "")])
  /\ (forall (d : _VirtCLIArgumentStatic) (k : string),
         _VirtCLIArgument__init__ d k None
         = Raise (RuntimeError ("Option '" ++ k ++ "' had no value set.")))
  /\ (forall (c : VirtCLIParser_class) (raw : option string)
             (self : VirtCLIParser) (heap : obj) (inst : option ref)
             (k : string),
         VirtCLIParser__init__ re_match c raw = Ok self ->
         In (k, None) (optdict self) ->
         exists e, _parse re_match self heap inst = Raise e)
  /\ (forall (d : _VirtCLIArgumentStatic) (k : string),
         _VirtCLIArgument__init__ d k (Some "")
         = Ok {| val := PNone; key := k; _virtarg := d |})
  /\ (forall (parser : parser_view) (d : _VirtCLIArgumentStatic)
             (k p : string) (v0 : pyval) (heap o : obj) (r : ref),
         cb d = None -> find_inst_cb d = None ->
         propname d = Some p -> PyStr.truthy p = true ->
         Graph.resolve heap r = Some o ->
         assoc_get p (props o) = Some v0 ->
         exists arg heap',
           _VirtCLIArgument__init__ d k (Some "") = Ok arg
           /\ parse_param parser arg heap (Some r) = Ok heap'
           /\ Graph.get_prop_path heap' (Some r) (Some p) = Ok PNone).
Proof.
  split; [exact AbsentFacts.tokenize_bare_name|].
  split; [reflexivity|]. split; [|split].
  - intros c raw self heap inst k Hinit Hin.
    destruct (parser_optdict_nodup _ _ _ Hinit) as [Hnd _].
    exact (absent_value_fails_parse re_match self heap inst k Hnd Hin).
  - intros d k. unfold _VirtCLIArgument__init__. cbn [String.eqb].
    destruct (is_onoff d); reflexivity.
  - intros parser d k p v0 heap o r Hcb Hfind Hprop Hp Hres Hget.
    assert (Hinit : _VirtCLIArgument__init__ d k (Some "")
                    = Ok {| val := PNone; key := k; _virtarg := d |}).
    { unfold _VirtCLIArgument__init__. cbn [String.eqb].
      destruct (is_onoff d); reflexivity. }
    destruct (@parse_param_assigns parser d k p PNone v0 heap o r
                Hcb Hfind Hprop Hp eq_refl Hres Hget)
      as [heap' [Hparse [_ Hread]]].
    exists {| val := PNone; key := k; _virtarg := d |}, heap'.
    repeat split; assumption.
Qed.

Lemma absent_versus_empty_witness :
  (TokenSpec.bare_name "model" = true
   /\ parse_optstr_tuples (Some "model") = Ok [("model", None)]
   /\ parse_optstr_tuples (Some "model=") = Ok [("model", Some "")])
  /\ (exists self,
         VirtCLIParser__init__ Re.match_ ParserSecurity
           (Some "type=dynamic,model") = Ok self
         /\ In ("model", None) (optdict self)
         /\ exists e, _parse Re.match_ self empty_seclabel (Some [])
                      = Raise e)
  /\ (exists arg heap',
         _VirtCLIArgument__init__ path_static "path" (Some "") = Ok arg
         /\ parse_param
              {| pv_optstr := Some "path="; pv_guest_propname := None;
                 pv_cli_arg_name := "two_paths";
                 pv_optdict := [("path", Some "")] |}
              arg (Obj [("path", PStr "/tmp/a.img")] []) (Some [])
            = Ok heap'
         /\ Graph.get_prop_path heap' (Some []) (Some "path") = Ok PNone).
Proof.
  destruct (absent_versus_empty Re.match_)
    as [Htok [_ [Hparse [_ Hassign]]]].
  split; [|split].
  - split; [reflexivity|]. exact (Htok "model" eq_refl).
  - pose (self := {| cls := ParserSecurity;
                     optstr := Some "type=dynamic,model";
                     optdict := [("type", Some "dynamic");
                                 ("model", None)] |}).
    assert (Hinit : VirtCLIParser__init__ Re.match_ ParserSecurity
                      (Some "type=dynamic,model") = Ok self)
      by (vm_compute; reflexivity).
    assert (Hin : In ("model", None) (optdict self))
      by (right; left; reflexivity).
    exists self. split; [exact Hinit|]. split; [exact Hin|].
    exact (Hparse _ _ _ empty_seclabel (Some []) _ Hinit Hin).
  - exact (Hassign _ path_static "path" "path" (PStr "/tmp/a.img")
                   (Obj [("path", PStr "/tmp/a.img")] [])
                   (Obj [("path", PStr "/tmp/a.img")] []) []
                   eq_refl eq_refl eq_refl eq_refl eq_refl eq_refl).
Defined.

(** ** Indexed sub-objects *)

Unset Implicit Arguments.

Lemma assoc_set_same {A : Type} (k : string) (v : A) (l : list (string * A)) :
  assoc_get k l = Some v -> assoc_set k v l = l.
Proof.
  induction l as [|[k0 v0] l IH]; simpl; [discriminate|].
  destruct (String.eqb k k0) eqn:Hk.
  - apply String.eqb_eq in Hk. subst k0. intros H. injection H as ->.
    reflexivity.
  - intros H. rewrite (IH H). reflexivity.
Qed.

Lemma obj_eta (o : obj) : Obj (props o) (lists o) = o.
Proof. destruct o; reflexivity. Qed.

Lemma resolve_app (r s : ref) :
  forall heap,
    Graph.resolve heap (r ++ s)
    = match Graph.resolve heap r with
      | Some o => Graph.resolve o s
      | None => None
      end.
Proof.
  induction r as [|[l i] r IH]; intros heap; [reflexivity|].
  simpl. destruct (assoc_get l (lists heap)) as [[proto items]|];
    [|reflexivity].
  destruct (nth_error items i); [apply IH | reflexivity].
Qed.

Lemma update_app (r s : ref) (f : obj -> res obj) :
  forall heap,
    Graph.update heap (r ++ s) f
    = Graph.update heap r (fun o => Graph.update o s f).
Proof.
  induction r as [|[l i] r IH]; intros heap; [reflexivity|].
  simpl. destruct (assoc_get l (lists heap)) as [[proto items]|];
    [|reflexivity].
  destruct (nth_error items i); [rewrite IH|]; reflexivity.
Qed.

Lemma get_list_resolved (heap o proto : obj) (items : list obj) (r : ref)
    (lp : string) :
  Graph.resolve heap r = Some o ->
  assoc_get lp (lists o) = Some (proto, items) ->
  Graph.get_list heap (Some r) lp = Ok items.
Proof.
  intros Hres Hget. unfold Graph.get_list, Graph.deref.
  rewrite Hres. cbn [bind]. rewrite Hget. reflexivity.
Qed.

(** The [while] loop of the callback appends default entries until the
    collection has [num + 1] of them; [num + 1] rounds are enough. *)
Lemma grow_spec (lp : string) (num : nat) (proto : obj) (r : ref)
    (missing : nat) :
  forall fuel heap o items,
    Graph.resolve heap r = Some o ->
    assoc_get lp (lists o) = Some (proto, items) ->
    missing = num + 1 - List.length items ->
    missing <= fuel ->
    exists heap',
      grow fuel heap (Some r) lp num = Ok heap'
      /\ Graph.resolve heap' r
         = Some (Obj (props o)
                     (assoc_set lp (proto, items ++ repeat proto missing)
                                (lists o))).
Proof.
  induction missing as [|missing IH];
    intros fuel heap o items Hres Hget Hmissing Hfuel.
  - exists heap. split.
    + destruct fuel; cbn [grow];
        rewrite (get_list_resolved _ _ _ _ _ _ Hres Hget); cbn [bind];
        destruct (Nat.ltb_spec (List.length items) (num + 1));
        try lia; reflexivity.
    + cbn [repeat]. rewrite app_nil_r, (assoc_set_same _ _ _ Hget), obj_eta.
      exact Hres.
  - destruct fuel as [|fuel]; [lia|]. cbn [grow].
    rewrite (get_list_resolved _ _ _ _ _ _ Hres Hget). cbn [bind].
    destruct (Nat.ltb_spec (List.length items) (num + 1)); [|lia].
    unfold Graph.add_new.
    destruct (@update_resolve r heap o
                (Obj (props o)
                     (assoc_set lp (proto, items ++ [proto]) (lists o)))
                (fun o => match assoc_get lp (lists o) with
                          | Some (proto, items) =>
                              Ok (Obj (props o)
                                      (assoc_set lp (proto, items ++ [proto])
                                                 (lists o)))
                          | None => Raise (AttributeError lp)
                          end) Hres)
      as [heap1 [Hupd Hres1]]; [rewrite Hget; reflexivity|].
    rewrite Hupd. cbn [bind].
    destruct (IH fuel heap1 _ (items ++ [proto]) Hres1) as [heap' [Hgrow Hres']].
    + cbn [lists]. apply assoc_get_set.
    + rewrite length_app. simpl. lia.
    + lia.
    + exists heap'. split; [exact Hgrow|].
      rewrite Hres'. cbn [props lists].
      rewrite assoc_set_set, <- app_assoc. reflexivity.
Qed.

Section FindInst.

Variable re_search_index : string -> string -> option nat.

(** Construct mode: the callback grows the collection to [num + 1]
    entries and returns the entry at [num]. *)
Lemma find_inst_construct (cliarg lp : string) (parser : parser_view)
    (heap o proto : obj) (items : list obj) (r : ref) (v : pyval)
    (a : arginfo) (num : nat) :
  re_search_index cliarg (ai_key a) = Some num ->
  Graph.resolve heap r = Some o ->
  assoc_get lp (lists o) = Some (proto, items) ->
  exists heap',
    _make_find_inst_cb re_search_index cliarg lp parser heap (Some r) v a true
    = Ok (heap', Some (r ++ [(lp, num)]))
    /\ Graph.resolve heap' r
       = Some (Obj (props o)
                   (assoc_set lp
                      (proto,
                       items ++ repeat proto (num + 1 - List.length items))
                      (lists o))).
Proof.
  intros Hnum Hres Hget.
  destruct (grow_spec lp num proto r (num + 1 - List.length items)
              (num + 1) heap o items Hres Hget eq_refl)
    as [heap' [Hgrow Hres']]; [lia|].
  exists heap'. split; [|exact Hres'].
  unfold _make_find_inst_cb. rewrite Hnum, Hgrow. cbn [bind].
  rewrite (get_list_resolved heap' _ proto _ r lp Hres')
    by (cbn [lists]; apply assoc_get_set).
  cbn [bind].
  destruct (nth_error (items ++ repeat proto (num + 1 - List.length items))
                      num) eqn:Hnth; [reflexivity|].
  apply nth_error_None in Hnth. rewrite length_app, repeat_length in Hnth.
  lia.
Qed.

(** Match mode: nothing is created, and an index past the end of the
    collection yields no object. *)
Lemma find_inst_match_missing (cliarg lp : string) (parser : parser_view)
    (heap o proto : obj) (items : list obj) (r : ref) (v : pyval)
    (a : arginfo) (num : nat) :
  re_search_index cliarg (ai_key a) = Some num ->
  Graph.resolve heap r = Some o ->
  assoc_get lp (lists o) = Some (proto, items) ->
  List.length items <= num ->
  _make_find_inst_cb re_search_index cliarg lp parser heap (Some r) v a false
  = Ok (heap, None).
Proof.
  intros Hnum Hres Hget Hlen.
  unfold _make_find_inst_cb. rewrite Hnum. cbn [bind].
  rewrite (get_list_resolved heap o proto items r lp Hres Hget).
  cbn [bind].
  destruct (nth_error items num) eqn:Hnth; [|reflexivity].
  assert (nth_error items num <> None) by congruence.
  apply nth_error_Some in H. lia.
Qed.

End FindInst.

(** The steps of ["cell3.id=5"] on an object whose [cells] collection is
    empty; [proto] is the default entry of the collection. *)
Section Cell3.

Variables (parser : parser_view) (heap o proto : obj) (r : ref) (v0 : pyval).
Hypothesis Hres : Graph.resolve heap r = Some o.
Hypothesis Hcells : assoc_get "cells" (lists o) = Some (proto, []).
Hypothesis Hid : assoc_get "id" (props proto) = Some v0.

Lemma cell3_find_construct :
  exists heap1,
    cell_find_inst_cb parser heap (Some r) (PStr "5") (info cell3_id_5) true
    = Ok (heap1, Some (r ++ [("cells", 3)]))
    /\ Graph.resolve heap1 r
       = Some (Obj (props o)
                   (assoc_set "cells" (proto, [proto; proto; proto; proto])
                              (lists o))).
Proof.
  destruct (find_inst_construct Re.search_index "cell" "cells" parser
              heap o proto [] r (PStr "5") (info cell3_id_5) 3
              eq_refl Hres Hcells) as [heap1 [Hcb Hres1]].
  exists heap1. split; [exact Hcb | exact Hres1].
Qed.

Lemma cell3_parse_param :
  exists heap2,
    parse_param parser cell3_id_5 heap (Some r) = Ok heap2
    /\ Graph.resolve heap2 r
       = Some (Obj (props o)
                   (assoc_set "cells"
                      (proto,
                       [proto; proto; proto;
                        Obj (assoc_set "id" (PStr "5") (props proto))
                            (lists proto)])
                      (lists o))).
Proof.
  destruct cell3_find_construct as [heap1 [Hcb Hres1]].
  set (entry := Obj (assoc_set "id" (PStr "5") (props proto)) (lists proto)).
  set (grown := Obj (props o)
                    (assoc_set "cells" (proto, [proto; proto; proto; proto])
                               (lists o))) in *.
  assert (Hentry : Graph.resolve heap1 (r ++ [("cells", 3)]) = Some proto).
  { rewrite resolve_app, Hres1. unfold grown. cbn [Graph.resolve lists].
    rewrite assoc_get_set. reflexivity. }
  set (assign := fun o : obj =>
                   match assoc_get "id" (props o) with
                   | Some _ => Ok (Obj (assoc_set "id" (PStr "5") (props o))
                                       (lists o))
                   | None => Raise (AttributeError "id")
                   end).
  destruct (@update_resolve r heap1 grown
              (Obj (props o)
                   (assoc_set "cells" (proto, [proto; proto; proto; entry])
                              (lists o)))
              (fun o => Graph.update o [("cells", 3)] assign) Hres1)
    as [heap2 [Hupd Hres2]].
  { unfold grown. cbn [Graph.update lists props].
    rewrite assoc_get_set. cbn [nth_error]. unfold assign at 1.
    rewrite Hid. cbn [bind list_set]. rewrite assoc_set_set. reflexivity. }
  exists heap2. split; [|exact Hres2].
  unfold parse_param. cbn [val _virtarg cell3_id_5 cell_id_static
                           ignore_default find_inst_cb propname cb].
  cbn [pyval_eqb String.eqb Ascii.eqb Bool.eqb andb].
  change {| val := PStr "5"; key := "cell3.id"; _virtarg := cell_id_static |}
    with cell3_id_5.
  rewrite Hcb. cbn [bind has_propname PyStr.truthy].
  unfold Graph.get_prop_path, Graph.deref. rewrite Hentry. cbn [bind].
  rewrite Hid. cbn [bind]. unfold Graph.set_prop_path.
  rewrite update_app. exact Hupd.
Qed.

Lemma cell3_lookup_param :
  lookup_param parser cell3_id_5 heap (Some r) = Ok (heap, PBool false).
Proof.
  unfold lookup_param. cbn [_virtarg cell3_id_5 cell_id_static propname
                            lookup_cb find_inst_cb has_propname
                            PyStr.truthy negb andb val].
  change {| val := PStr "5"; key := "cell3.id"; _virtarg := cell_id_static |}
    with cell3_id_5.
  unfold cell_find_inst_cb.
  rewrite (find_inst_match_missing Re.search_index "cell" "cells" parser
             heap o proto [] r (PStr "5") (info cell3_id_5) 3
             eq_refl Hres Hcells) by (simpl; lia).
  reflexivity.
Qed.

End Cell3.

(** C2: the descriptor [cell[0-9]*.id], whose nested-resolve callback
    comes from [_make_find_inst_cb], is bound to ["cell3.id=5"] on an
    object whose [cells] collection is empty.  In construct mode the
    callback creates exactly four default entries, indices 0 to 3, and
    returns the entry at index 3, on which [id] is then assigned: the
    collection ends as three default entries and one with [id] set.  In
    match mode the lookup answers "no match" and leaves the graph as it
    was, so that the entity is not among the matches. *)
Theorem indexed_boundary (parser : parser_view) (heap o proto : obj)
    (r : ref) (v0 : pyval) :
  Graph.resolve heap r = Some o ->
  assoc_get "cells" (lists o) = Some (proto, []) ->
  assoc_get "id" (props proto) = Some v0 ->
  _VirtCLIArgumentStatic__init__
    (with_find_inst_cb cell_find_inst_cb
       (positional "cell[0-9]*.id" (Some "id"))) = Ok cell_id_static
  /\ match_name Re.match_ cell_id_static "cell3.id" = true
  /\ _VirtCLIArgument__init__ cell_id_static "cell3.id" (Some "5")
     = Ok cell3_id_5
  /\ (exists heap1,
         cell_find_inst_cb parser heap (Some r) (PStr "5")
                           (info cell3_id_5) true
         = Ok (heap1, Some (r ++ [("cells", 3)]))
         /\ Graph.get_list heap1 (Some r) "cells"
            = Ok [proto; proto; proto; proto])
  /\ (exists heap2,
         parse_param parser cell3_id_5 heap (Some r) = Ok heap2
         /\ Graph.get_list heap2 (Some r) "cells"
            = Ok [proto; proto; proto;
                  Obj (assoc_set "id" (PStr "5") (props proto))
                      (lists proto)])
  /\ lookup_param parser cell3_id_5 heap (Some r) = Ok (heap, PBool false)
  /\ Graph.get_list heap (Some r) "cells" = Ok []
  /\ (forall self,
         VirtCLIParser__init__ Re.match_ ParserCPU (Some "cell3.id=5")
         = Ok self ->
         lookup_child_from_option_string Re.match_ self heap [r]
         = Ok (heap, [])
         /\ exists heap2,
             _parse Re.match_ self heap (Some r) = Ok heap2
             /\ Graph.get_list heap2 (Some r) "cells"
                = Ok [proto; proto; proto;
                      Obj (assoc_set "id" (PStr "5") (props proto))
                          (lists proto)]).
Proof.
  intros Hres Hcells Hid.
  split; [reflexivity|]. split; [reflexivity|]. split; [reflexivity|].
  split; [|split; [|split; [|split]]].
  - destruct (cell3_find_construct parser heap o proto r Hres Hcells)
      as [heap1 [Hcb Hres1]].
    exists heap1. split; [exact Hcb|].
    apply (get_list_resolved heap1 _ proto _ r "cells" Hres1).
    cbn [lists]. apply assoc_get_set.
  - destruct (cell3_parse_param parser heap o proto r v0 Hres Hcells Hid)
      as [heap2 [Hparse Hres2]].
    exists heap2. split; [exact Hparse|].
    apply (get_list_resolved heap2 _ proto _ r "cells" Hres2).
    cbn [lists]. apply assoc_get_set.
  - exact (cell3_lookup_param parser heap o proto r Hres Hcells).
  - exact (get_list_resolved heap o proto [] r "cells" Hres Hcells).
  - intros self Hinit.
    assert (Hself : self = {| cls := ParserCPU;
                              optstr := Some "cell3.id=5";
                              optdict := [("cell3.id", Some "5")] |}).
    { assert (H : VirtCLIParser__init__ Re.match_ ParserCPU
                    (Some "cell3.id=5")
                  = Ok {| cls := ParserCPU; optstr := Some "cell3.id=5";
                          optdict := [("cell3.id", Some "5")] |})
        by (vm_compute; reflexivity).
      rewrite H in Hinit. injection Hinit as <-. reflexivity. }
    assert (Hclaim : _optdict_to_param_list Re.match_ self (optdict self)
                     = Ok ([cell3_id_5], []))
      by (rewrite Hself; vm_compute; reflexivity).
    split.
    + unfold lookup_child_from_option_string, lookup_children.
      rewrite Hclaim. cbn [bind lookup_params].
      rewrite (cell3_lookup_param (view self) heap o proto r Hres Hcells).
      reflexivity.
    + destruct (cell3_parse_param (view self) heap o proto r v0
                  Hres Hcells Hid) as [heap2 [Hparse Hres2]].
      exists heap2. split.
      * unfold _parse. rewrite Hclaim. cbn [bind parse_params].
        rewrite Hparse. reflexivity.
      * apply (get_list_resolved heap2 _ proto _ r "cells" Hres2).
        cbn [lists]. apply assoc_get_set.
Qed.

Lemma indexed_boundary_witness :
  (Graph.resolve cpu_without_cells [] = Some cpu_without_cells
   /\ assoc_get "cells" (lists cpu_without_cells) = Some (empty_cell, [])
   /\ assoc_get "id" (props empty_cell) = Some PNone)
  /\ (exists heap2,
         parse_param
           {| pv_optstr := Some "cell3.id=5"; pv_guest_propname := Some "cpu";
              pv_cli_arg_name := "cpu";
              pv_optdict := [("cell3.id", Some "5")] |}
           cell3_id_5 cpu_without_cells (Some []) = Ok heap2
         /\ Graph.get_list heap2 (Some []) "cells"
            = Ok [empty_cell; empty_cell; empty_cell;
                  Obj [("id", PStr "5"); ("cpus", PNone); ("memory", PNone)]
                      []])
  /\ lookup_param
       {| pv_optstr := Some "cell3.id=5"; pv_guest_propname := Some "cpu";
          pv_cli_arg_name := "cpu";
          pv_optdict := [("cell3.id", Some "5")] |}
       cell3_id_5 cpu_without_cells (Some [])
     = Ok (cpu_without_cells, PBool false).
Proof.
  split; [repeat split|].
  destruct (indexed_boundary
              {| pv_optstr := Some "cell3.id=5";
                 pv_guest_propname := Some "cpu";
                 pv_cli_arg_name := "cpu";
                 pv_optdict := [("cell3.id", Some "5")] |}
              cpu_without_cells cpu_without_cells empty_cell [] PNone
              eq_refl eq_refl eq_refl)
    as [_ [_ [_ [_ [Hparse [Hlookup _]]]]]].
  split; [exact Hparse | exact Hlookup].
Defined.

(** ** Comma continuation *)

Section CommaFacts.

Variable re_match : string -> string -> bool.
Variable regs : list _VirtCLIArgumentStatic.

Lemma lookup_unknown (name : string) :
  known_name re_match regs name = false ->
  is_some (_lookup_virtarg re_match regs name) = false.
Proof. intros H. rewrite lookup_virtarg_known. exact H. Qed.

Lemma append_assoc (a b c : string) :
  ((a ++ b) ++ c)%string = (a ++ b ++ c)%string.
Proof. induction a as [|x a IH]; simpl; [|rewrite IH]; reflexivity. Qed.

(** Tokens no descriptor matches, each with an absent or a non-empty
    value, are all absorbed into a current value that is present, up to
    the first token some descriptor matches. *)
Lemma consume_comma_arg_absorbs (absorbed : list opttuple) :
  forall (name cur : string) (rest : list opttuple),
    Forall (fun t => known_name re_match regs (fst t) = false) absorbed ->
    forallb value_not_empty absorbed = true ->
    stops_absorbing re_match regs rest = true ->
    _consume_comma_arg re_match regs (name, Some cur) (absorbed ++ rest)
    = Ok ((name, Some (cur ++ rejoin_all absorbed)%string),
          rest).
Proof.
  induction absorbed as [|[n v] absorbed IH];
    intros name cur rest Hunknown Hvalues Hstop.
  - cbn [app rejoin_all].
    assert (Hcur : (cur ++ "")%string = cur)
      by (induction cur as [|c cur IHc]; simpl; [|rewrite IHc]; reflexivity).
    rewrite Hcur.
    destruct rest as [|[n v] rest]; [reflexivity|].
    cbn [_consume_comma_arg]. cbn [stops_absorbing] in Hstop.
    rewrite lookup_virtarg_known, Hstop. reflexivity.
  - inversion Hunknown as [|? ? Hn Hrest]; subst.
    cbn [forallb] in Hvalues. apply andb_true_iff in Hvalues as [Hv Hvalues].
    cbn [app _consume_comma_arg fst snd].
    cbn [fst] in Hn. rewrite (lookup_unknown _ Hn).
    rewrite IH by assumption. f_equal. f_equal. f_equal. f_equal.
    cbn [rejoin_all]. unfold rejoined at 1. cbn [fst snd].
    unfold value_not_empty in Hv. cbn [snd] in Hv.
    destruct v as [v|].
    + rewrite Hv. rewrite !append_assoc. reflexivity.
    + rewrite !append_assoc. reflexivity.
Qed.

(** The main loop on an option with comma continuation: one entry for
    the option, none for the tokens absorbed. *)
Lemma build_optdict_absorbs (fuel : nat) (virtarg : _VirtCLIArgumentStatic)
    (name cur : string) (absorbed rest : list opttuple) (d : optdict_t) :
  _lookup_virtarg re_match regs name = Some virtarg ->
  can_comma virtarg = Some true ->
  Forall (fun t => known_name re_match regs (fst t) = false) absorbed ->
  forallb value_not_empty absorbed = true ->
  stops_absorbing re_match regs rest = true ->
  build_optdict re_match (S fuel) regs
                ((name, Some cur) :: absorbed ++ rest) d
  = build_optdict re_match fuel regs rest
      (assoc_set name
         (Some (cur ++ rejoin_all absorbed)%string) d).
Proof.
  intros Hlookup Hcomma Hunknown Hvalues Hstop.
  cbn [build_optdict]. rewrite Hlookup, Hcomma. cbn [truthy_flag].
  rewrite (consume_comma_arg_absorbs absorbed name cur rest
             Hunknown Hvalues Hstop).
  reflexivity.
Qed.

(** A continuation token whose value is the empty string is rejoined
    without its ["="]. *)
Lemma consume_comma_arg_empty_value (name cur x : string)
    (rest : list opttuple) :
  known_name re_match regs x = false ->
  _consume_comma_arg re_match regs (name, Some cur) ((x, Some "") :: rest)
  = _consume_comma_arg re_match regs
      (name, Some (cur ++ "," ++ x)%string) rest.
Proof.
  intros Hx. cbn [_consume_comma_arg fst snd PyStr.truthy].
  rewrite (lookup_unknown _ Hx). reflexivity.
Qed.

(** With an absent current value the first absorption raises. *)
Lemma consume_comma_arg_absent_value (name x : string) (v : option string)
    (rest : list opttuple) :
  known_name re_match regs x = false ->
  _consume_comma_arg re_match regs (name, None) ((x, v) :: rest)
  = Raise (TypeError "unsupported operand type(s) for +=").
Proof.
  intros Hx. cbn [_consume_comma_arg fst snd].
  rewrite (lookup_unknown _ Hx). reflexivity.
Qed.

End CommaFacts.

(** C1: on ["label=a,x=,model=selinux"], [label] being an option with
    comma continuation and [x] matching no descriptor, the tokenizer
    gives [x] the empty string as value, and the dictionary builder
    absorbs the token as [",x"]: the value of [label] is ["a,x"], where
    the rejoin [",name=value"] gives ["a,x="]. *)
Theorem comma_continuation_drops_equals :
  parse_optstr_tuples (Some "label=a,x=,model=selinux")
  = Ok [("label", Some "a"); ("x", Some ""); ("model", Some "selinux")]
  /\ known_name Re.match_ (_virtargs ParserSecurity) "x" = false
  /\ _parse_optstr_to_dict Re.match_ (Some "label=a,x=,model=selinux")
       (_virtargs ParserSecurity) []
     = Ok [("label", Some "a,x"); ("model", Some "selinux")]
  /\ ("a" ++ rejoined ("x", Some ""))%string = "a,x="
  /\ _parse_optstr_to_dict Re.match_ (Some "label,x=1,model=selinux")
       (_virtargs ParserSecurity) []
     = Raise (TypeError "unsupported operand type(s) for +=").
Proof. repeat split. Qed.

(** * Further properties *)

(** ** The tokenizer on quoting *)

Module QuoteFacts.
Import Shlex TokenSpec.

Lemma split1_sound (sep : ascii) (opt : string) :
  match PyStr.split1 sep opt with
  | Some (a, b) => PyStr.mem sep a = false /\ opt = (a ++ String sep b)%string
  | None => PyStr.mem sep opt = false
  end.
Proof.
  induction opt as [|c opt IH]; [reflexivity|].
  cbn [PyStr.split1 PyStr.mem]. rewrite (Ascii.eqb_sym sep c).
  destruct (Ascii.eqb c sep) eqn:Hc.
  - apply Ascii.eqb_eq in Hc. subst c. split; reflexivity.
  - cbn [orb]. destruct (PyStr.split1 sep opt) as [[a b]|].
    + destruct IH as [Ha ->]. cbn [PyStr.mem].
      rewrite (Ascii.eqb_sym sep c), Hc. split; [exact Ha | reflexivity].
    + exact IH.
Qed.

Lemma split_opt_sound (opt : string) :
  Forall (fun t => PyStr.mem "=" (fst t) = false
                   /\ token_text t = opt
                   /\ PyStr.truthy opt = true) (split_opt opt).
Proof.
  unfold split_opt. destruct (PyStr.truthy opt) eqn:Ht; [|constructor].
  cbn [negb]. pose proof (split1_sound "=" opt) as H.
  destruct (PyStr.split1 "=" opt) as [[a b]|].
  - destruct H as [Ha Hopt]. constructor; [|constructor].
    unfold token_text. cbn [fst snd]. repeat split; auto.
  - constructor; [|constructor]. unfold token_text. cbn [fst snd]. auto.
Qed.

(** Inside single quotes nothing but the closing quote is special. *)
Lemma read_loop_single_quoted (lv : list ascii) :
  forall esc quoted tok rest,
    forallb (fun c => negb (Ascii.eqb c "'")) lv = true ->
    read_loop (SQuote "'") esc quoted tok (lv ++ "'"%char :: rest)
    = read_loop SWord esc true (tok ++ string_of_list_ascii lv)%string rest.
Proof.
  induction lv as [|c lv IH]; intros esc quoted tok rest Hlv.
  - cbn [app string_of_list_ascii].
    replace (tok ++ "")%string with tok
      by (induction tok as [|d tok IHt]; simpl; [|rewrite <- IHt]; reflexivity).
    reflexivity.
  - cbn [forallb] in Hlv. apply andb_true_iff in Hlv as [Hc Hlv].
    apply negb_true_iff in Hc.
    cbn [app]. rewrite ShlexFacts.read_loop_quote, Hc.
    replace (PyStr.mem c escape && PyStr.mem "'" escapedquotes) with false
      by (rewrite andb_comm; reflexivity).
    rewrite (IH _ _ _ _ Hlv). cbn [string_of_list_ascii].
    rewrite AbsentFacts.snoc_append. reflexivity.
Qed.

Lemma read_loop_unclosed (lb : list ascii) :
  forall esc quoted tok,
    forallb (fun c => negb (Ascii.eqb c "'")) lb = true ->
    read_loop (SQuote "'") esc quoted tok lb
    = Raise (ValueError "No closing quotation").
Proof.
  induction lb as [|c lb IH]; intros esc quoted tok Hlb; [reflexivity|].
  cbn [forallb] in Hlb. apply andb_true_iff in Hlb as [Hc Hlb].
  apply negb_true_iff in Hc.
  rewrite ShlexFacts.read_loop_quote, Hc.
  replace (PyStr.mem c escape && PyStr.mem "'" escapedquotes) with false
    by (rewrite andb_comm; reflexivity).
  apply IH. exact Hlb.
Qed.

Lemma word_char_inv (c : ascii) :
  word_char c = true ->
  PyStr.mem c whitespace = false
  /\ PyStr.mem c quotes = false /\ PyStr.mem c escape = false.
Proof.
  unfold word_char. rewrite andb_true_iff, negb_true_iff.
  intros [Hp Hc]. destruct (ShlexFacts.plain_char_inv _ Hp) as [Hq He].
  rewrite ShlexFacts.mem_whitespace. auto.
Qed.

(** Word characters accumulate in the token. *)
Lemma read_loop_word_chars (lw : list ascii) :
  forall esc quoted tok rest,
    forallb word_char lw = true ->
    read_loop SWord esc quoted tok (lw ++ rest)
    = read_loop SWord esc quoted (tok ++ string_of_list_ascii lw)%string rest.
Proof.
  induction lw as [|c lw IH]; intros esc quoted tok rest Hlw.
  - cbn [app string_of_list_ascii].
    replace (tok ++ "")%string with tok
      by (induction tok as [|d tok IHt]; simpl; [|rewrite <- IHt]; reflexivity).
    reflexivity.
  - cbn [forallb] in Hlw. apply andb_true_iff in Hlw as [Hc Hlw].
    destruct (word_char_inv c Hc) as [Hw [Hq He]].
    cbn [app]. rewrite ShlexFacts.read_loop_word, Hw, Hq, He.
    rewrite (IH _ _ _ _ Hlw). cbn [string_of_list_ascii].
    rewrite AbsentFacts.snoc_append. reflexivity.
Qed.

End QuoteFacts.

Module TokenizerFacts.
Import Shlex TokenSpec.

Lemma no_single_quote_list (s : string) :
  no_single_quote s = true ->
  forallb (fun c => negb (Ascii.eqb c "'")) (list_ascii_of_string s) = true.
Proof.
  unfold no_single_quote. induction s as [|c s IH]; [reflexivity|].
  cbn [PyStr.mem list_ascii_of_string forallb].
  rewrite (Ascii.eqb_sym "'" c), negb_orb, andb_true_iff.
  intros [Hc Hs]. rewrite Hc. exact (IH Hs).
Qed.

Lemma emit_raise (k : state -> list ascii -> res (list string)) (e : exn) :
  emit k (Raise e) = Raise e.
Proof. reflexivity. Qed.

Lemma emit_finish_token (fuel : nat) (quoted : bool) (tok : string)
    (rest : list ascii) :
  PyStr.truthy tok || quoted = true ->
  emit (tokens (S fuel)) (finish SSpace quoted tok rest)
  = (more <- emit (tokens fuel) (read_loop SSpace SSpace false EmptyString rest) ;;
     Ok (tok :: more)).
Proof.
  intros H. unfold emit at 1, finish. cbn [bind result next_state unread].
  replace (negb quoted && negb (PyStr.truthy tok)) with false
    by (destruct quoted, (PyStr.truthy tok); simpl in *; congruence).
  reflexivity.
Qed.

(** A quotation that is opened and not closed makes the whole
    tokenization fail, wherever it starts. *)
Lemma tokens_unclosed (lb : list ascii) (la : list ascii) :
  forallb (fun c => negb (Ascii.eqb c "'")) lb = true ->
  forallb plain_char la = true ->
  (forall esc quoted tok fuel,
      List.length la + 1 <= fuel ->
      emit (tokens fuel) (read_loop SWord esc quoted tok (la ++ "'"%char :: lb))
      = Raise (ValueError "No closing quotation"))
  /\ (forall esc fuel,
         List.length la <= fuel ->
         emit (tokens fuel)
              (read_loop SSpace esc false EmptyString (la ++ "'"%char :: lb))
         = Raise (ValueError "No closing quotation")).
Proof.
  intros Hlb. induction la as [|c la IH]; intros Hla.
  - split.
    + intros esc quoted tok fuel _. cbn [app].
      rewrite ShlexFacts.read_loop_word.
      change (PyStr.mem "'" whitespace) with false.
      change (PyStr.mem "'" quotes) with true. cbn iota.
      rewrite (QuoteFacts.read_loop_unclosed lb _ _ _ Hlb). reflexivity.
    + intros esc fuel _. cbn [app].
      rewrite ShlexFacts.read_loop_space.
      change (PyStr.mem "'" whitespace) with false.
      change (PyStr.mem "'" escape) with false.
      change (PyStr.mem "'" quotes) with true. cbn iota.
      rewrite (QuoteFacts.read_loop_unclosed lb _ _ _ Hlb). reflexivity.
  - cbn [forallb] in Hla. apply andb_true_iff in Hla as [Hc Hla].
    destruct (IH Hla) as [IHword IHspace].
    destruct (ShlexFacts.plain_char_inv _ Hc) as [Hq He].
    split.
    + intros esc quoted tok fuel Hfuel. cbn [List.length] in Hfuel.
      cbn [app]. rewrite ShlexFacts.read_loop_word, ShlexFacts.mem_whitespace.
      rewrite Hq, He.
      destruct (Ascii.eqb c comma).
      * destruct (PyStr.truthy tok || quoted) eqn:Htok.
        -- destruct fuel as [|fuel]; [lia|].
           rewrite (emit_finish_token fuel quoted tok _ Htok).
           rewrite IHspace by lia. reflexivity.
        -- apply orb_false_iff in Htok as [Htok ->].
           destruct tok; [|discriminate Htok]. apply IHspace. lia.
      * apply IHword. lia.
    + intros esc fuel Hfuel. cbn [List.length] in Hfuel.
      cbn [app]. rewrite ShlexFacts.read_loop_space, ShlexFacts.mem_whitespace.
      rewrite Hq, He.
      destruct (Ascii.eqb c comma).
      * cbn [PyStr.truthy orb]. apply IHspace. lia.
      * apply IHword. lia.
Qed.

Lemma fields_app (lb : list ascii) (la : list ascii) :
  forall cur,
    fields cur (la ++ comma :: lb) = fields cur la ++ fields EmptyString lb.
Proof.
  induction la as [|c la IH]; intros cur.
  - cbn [app]. rewrite ShlexFacts.fields_cons, Ascii.eqb_refl. reflexivity.
  - cbn [app]. rewrite !ShlexFacts.fields_cons.
    destruct (Ascii.eqb c comma); [cbn [app]; f_equal|]; apply IH.
Qed.

Lemma map_token_text_split_opt (opt : string) :
  map token_text (split_opt opt) = if PyStr.truthy opt then [opt] else [].
Proof.
  pose proof (QuoteFacts.split_opt_sound opt) as H.
  pose proof (ShlexFacts.split_opt_length opt) as Hlen.
  destruct (PyStr.truthy opt).
  - destruct (split_opt opt) as [|t [|t' l]]; try discriminate Hlen.
    inversion H as [|? ? Hhead _]; subst. destruct Hhead as [_ [Ht _]].
    cbn [map]. rewrite Ht. reflexivity.
  - destruct (split_opt opt); [reflexivity | discriminate Hlen].
Qed.

End TokenizerFacts.

(** X1: the tuples spell the tokens: joining each name and value with
    ["="] (or taking the name alone when the value is absent) gives back
    the non-empty tokens of the lexer, in order, and no name contains
    ["="]. *)
Theorem tuples_spell_tokens (optstr : option string) (toks : list opttuple) :
  parse_optstr_tuples optstr = Ok toks ->
  exists raw,
    Shlex.split (match optstr with Some s => s | None => "" end) = Ok raw
    /\ map token_text toks = filter PyStr.truthy raw
    /\ Forall (fun t => PyStr.mem "=" (fst t) = false) toks.
Proof.
  unfold parse_optstr_tuples.
  destruct (Shlex.split _) as [raw|e]; cbn [bind]; [|discriminate].
  intros H. injection H as <-. exists raw. split; [reflexivity|].
  induction raw as [|opt raw [IHmap IHall]]; [split; [reflexivity|constructor]|].
  cbn [flat_map filter]. rewrite map_app, IHmap.
  rewrite TokenizerFacts.map_token_text_split_opt. split.
  - destruct (PyStr.truthy opt); reflexivity.
  - apply Forall_app. split; [|exact IHall].
    eapply Forall_impl; [|exact (QuoteFacts.split_opt_sound opt)].
    intros t [Ht _]. exact Ht.
Qed.

Lemma tuples_spell_tokens_witness :
  parse_optstr_tuples (Some "path='/tmp/a,b.img',,size=5,ro")
  = Ok [("path", Some "/tmp/a,b.img"); ("size", Some "5"); ("ro", None)]
  /\ exists raw,
      Shlex.split "path='/tmp/a,b.img',,size=5,ro" = Ok raw
      /\ map token_text
             [("path", Some "/tmp/a,b.img"); ("size", Some "5"); ("ro", None)]
         = filter PyStr.truthy raw.
Proof.
  split; [reflexivity|].
  destruct (tuples_spell_tokens (Some "path='/tmp/a,b.img',,size=5,ro")
              [("path", Some "/tmp/a,b.img"); ("size", Some "5");
               ("ro", None)] eq_refl) as [raw [Hraw [Hmap _]]].
  exists raw. split; assumption.
Defined.

(** X2: a single quote that is opened after a quote-free text and never
    closed makes the tokenizer fail with "No closing quotation": no
    tuple is returned, not even for the options before the quote. *)
Theorem unterminated_quote_fails (a b : string) :
  TokenSpec.plain a = true -> no_single_quote b = true ->
  parse_optstr_tuples (Some (a ++ "'" ++ b)%string)
  = Raise (ValueError "No closing quotation").
Proof.
  intros Ha Hb. unfold parse_optstr_tuples, Shlex.split.
  rewrite AbsentFacts.list_ascii_app. cbn [String.append list_ascii_of_string].
  cbn [Shlex.tokens]. unfold Shlex.read_token.
  rewrite (proj2 (TokenizerFacts.tokens_unclosed _ _
                    (TokenizerFacts.no_single_quote_list b Hb) Ha));
    [reflexivity|].
  rewrite length_app. lia.
Qed.

Lemma unterminated_quote_fails_witness :
  TokenSpec.plain "path=/a,size=5,label=" = true
  /\ no_single_quote "x,y" = true
  /\ parse_optstr_tuples (Some "path=/a,size=5,label='x,y")
     = Raise (ValueError "No closing quotation").
Proof.
  split; [reflexivity|]. split; [reflexivity|].
  exact (unterminated_quote_fails "path=/a,size=5,label=" "x,y"
                                  eq_refl eq_refl).
Defined.

Lemma bare_char_is_word_char (c : ascii) :
  TokenSpec.bare_char c = true -> word_char c = true.
Proof.
  unfold TokenSpec.bare_char, word_char.
  rewrite !andb_true_iff. tauto.
Qed.

Lemma forallb_impl {A : Type} (f g : A -> bool) (l : list A) :
  (forall x, f x = true -> g x = true) ->
  forallb f l = true -> forallb g l = true.
Proof.
  intros Himpl. induction l as [|x l IH]; [reflexivity|].
  cbn [forallb]. rewrite !andb_true_iff. intros [Hx Hl]. auto.
Qed.

Lemma string_of_list_ascii_append (la lb : list ascii) :
  string_of_list_ascii (la ++ lb)
  = (string_of_list_ascii la ++ string_of_list_ascii lb)%string.
Proof. induction la as [|c la IH]; simpl; [|rewrite IH]; reflexivity. Qed.

(** X3: a value written in single quotes is one token, commas, equal
    signs, double quotes and backslashes included: [name='v'] gives the
    single tuple [(name, v)]. *)
Theorem quoted_value_is_one_token (name v : string) :
  TokenSpec.bare_name name = true -> no_single_quote v = true ->
  parse_optstr_tuples (Some (name ++ "='" ++ v ++ "'")%string)
  = Ok [(name, Some v)].
Proof.
  intros Hname Hv.
  destruct (AbsentFacts.bare_name_inv _ Hname) as [Htruthy [_ [_ Heq]]].
  assert (Hbare : forallb TokenSpec.bare_char (list_ascii_of_string name)
                  = true).
  { unfold TokenSpec.bare_name in Hname.
    apply andb_true_iff in Hname as [_ H]. exact H. }
  assert (Hsplit : Shlex.split (name ++ "='" ++ v ++ "'")
                   = Ok [(name ++ "=" ++ v)%string]).
  { unfold Shlex.split.
    rewrite !AbsentFacts.list_ascii_app.
    cbn [String.append list_ascii_of_string app].
    destruct name as [|c name]; [discriminate Htruthy|].
    cbn [list_ascii_of_string forallb] in Hbare.
    apply andb_true_iff in Hbare as [Hc Hrest].
    destruct (QuoteFacts.word_char_inv c (bare_char_is_word_char c Hc))
      as [Hw [Hq He]].
    cbn [list_ascii_of_string app Shlex.tokens]. unfold Shlex.read_token.
    rewrite ShlexFacts.read_loop_space, Hw, He, Hq.
    change (list_ascii_of_string name
            ++ "="%char :: "'"%char :: list_ascii_of_string v ++ ["'"%char])
      with (list_ascii_of_string name
            ++ ["="%char]
            ++ "'"%char :: list_ascii_of_string v ++ ["'"%char]).
    rewrite app_assoc.
    rewrite QuoteFacts.read_loop_word_chars.
    2:{ rewrite forallb_app. apply andb_true_iff. split; [|reflexivity].
        exact (forallb_impl _ _ _ bare_char_is_word_char Hrest). }
    rewrite ShlexFacts.read_loop_word.
    change (PyStr.mem "'" Shlex.whitespace) with false.
    change (PyStr.mem "'" Shlex.quotes) with true. cbn iota.
    rewrite (QuoteFacts.read_loop_single_quoted _ _ _ _ []
               (TokenizerFacts.no_single_quote_list v Hv)).
    rewrite ShlexFacts.read_loop_nil.
    unfold Shlex.finish, Shlex.emit. cbn [bind Shlex.result negb andb].
    cbn [Shlex.next_state Shlex.unread].
    cbn [List.length]. rewrite ShlexFacts.tokens_eof. cbn [bind].
    rewrite string_of_list_ascii_append, !string_of_list_ascii_of_string.
    cbn [string_of_list_ascii String.append].
    rewrite append_assoc. reflexivity. }
  unfold parse_optstr_tuples. rewrite Hsplit. cbn [bind flat_map].
  rewrite app_nil_r. f_equal.
  exact (proj2 split_opt_spec name v Heq).
Qed.

Lemma quoted_value_is_one_token_witness :
  TokenSpec.bare_name "label" = true
  /\ no_single_quote "system_u:object_r:svirt_image_t:s0:c100,c200" = true
  /\ parse_optstr_tuples
       (Some "label='system_u:object_r:svirt_image_t:s0:c100,c200'")
     = Ok [("label", Some "system_u:object_r:svirt_image_t:s0:c100,c200")].
Proof.
  split; [reflexivity|]. split; [reflexivity|].
  exact (quoted_value_is_one_token
           "label" "system_u:object_r:svirt_image_t:s0:c100,c200"
           eq_refl eq_refl).
Defined.

(** X4: on option strings without quote or escape characters the
    tokenizer composes over commas: the tuples of [a,b] are the tuples
    of [a] followed by the tuples of [b]. *)
Theorem tokenizer_composes (a b : string) :
  TokenSpec.plain a = true -> TokenSpec.plain b = true ->
  exists ta tb,
    parse_optstr_tuples (Some a) = Ok ta
    /\ parse_optstr_tuples (Some b) = Ok tb
    /\ parse_optstr_tuples (Some (a ++ "," ++ b)%string) = Ok (ta ++ tb).
Proof.
  intros Ha Hb.
  assert (Hab : TokenSpec.plain (a ++ "," ++ b) = true).
  { unfold TokenSpec.plain in *. rewrite !AbsentFacts.list_ascii_app.
    rewrite !forallb_app, Ha, Hb. reflexivity. }
  exists (flat_map split_opt (filter PyStr.truthy (TokenSpec.fields_of a))),
         (flat_map split_opt (filter PyStr.truthy (TokenSpec.fields_of b))).
  unfold parse_optstr_tuples.
  rewrite (ShlexFacts.split_plain _ Ha), (ShlexFacts.split_plain _ Hb),
          (ShlexFacts.split_plain _ Hab).
  cbn [bind]. repeat split.
  unfold TokenSpec.fields_of. rewrite AbsentFacts.list_ascii_app.
  cbn [String.append list_ascii_of_string].
  change (","%char :: list_ascii_of_string b)
    with (TokenSpec.comma :: list_ascii_of_string b).
  rewrite (TokenizerFacts.fields_app (list_ascii_of_string b)
             (list_ascii_of_string a) EmptyString).
  rewrite filter_app, flat_map_app. reflexivity.
Qed.

Lemma tokenizer_composes_witness :
  TokenSpec.plain "path=/a,,ro" = true /\ TokenSpec.plain "size=5" = true
  /\ parse_optstr_tuples (Some "path=/a,,ro,size=5")
     = Ok ([("path", Some "/a"); ("ro", None)] ++ [("size", Some "5")]).
Proof.
  split; [reflexivity|]. split; [reflexivity|].
  destruct (tokenizer_composes "path=/a,,ro" "size=5" eq_refl eq_refl)
    as [ta [tb [Hta [Htb Hab]]]].
  injection Hta as <-. injection Htb as <-. exact Hab.
Defined.

(** ** The dictionary builder, further *)

Lemma assoc_get_set_other {A : Type} (k k' : string) (v : A)
    (l : list (string * A)) :
  String.eqb k k' = false ->
  assoc_get k (assoc_set k' v l) = assoc_get k l.
Proof.
  intros Hk. induction l as [|[k0 v0] l IH]; cbn [assoc_set assoc_get].
  - rewrite Hk. reflexivity.
  - destruct (String.eqb k' k0) eqn:Hk0; cbn [assoc_get].
    + apply String.eqb_eq in Hk0. subst k0. rewrite Hk. reflexivity.
    + rewrite IH. reflexivity.
Qed.

Lemma store_all_last (k : string) (toks : list opttuple) :
  forall d,
    assoc_get k (store_all toks d)
    = match last_value k toks with
      | Some v => Some v
      | None => assoc_get k d
      end.
Proof.
  induction toks as [|[name v] toks IH]; intros d; [reflexivity|].
  cbn [store_all fold_left last_value fst snd].
  change (fold_left (fun d t => assoc_set (fst t) (snd t) d) toks
                    (assoc_set name v d))
    with (store_all toks (assoc_set name v d)).
  rewrite IH. destruct (last_value k toks); [reflexivity|].
  destruct (String.eqb k name) eqn:Hk.
  - apply String.eqb_eq in Hk. subst name. apply assoc_get_set.
  - apply assoc_get_set_other. exact Hk.
Qed.

Section PlainRegistry.

Variable re_match : string -> string -> bool.
Variable regs : list _VirtCLIArgumentStatic.
Hypothesis no_comma :
  Forall (fun va => truthy_flag (can_comma va) = false) regs.

Lemma lookup_no_comma (name : string) (va : _VirtCLIArgumentStatic) :
  _lookup_virtarg re_match regs name = Some va ->
  truthy_flag (can_comma va) = false.
Proof.
  unfold _lookup_virtarg. intros H. apply find_some in H as [Hin _].
  rewrite Forall_forall in no_comma. exact (no_comma va Hin).
Qed.

(** Without comma continuation the main loop stores the tokens one by
    one. *)
Lemma build_optdict_plain (fuel : nat) :
  forall toks d,
    List.length toks <= fuel ->
    build_optdict re_match fuel regs toks d = Ok (store_all toks d).
Proof.
  induction fuel as [|fuel IH]; intros [|[name v] toks] d Hfuel;
    try reflexivity; cbn [List.length] in Hfuel; [lia|].
  cbn [build_optdict store_all fold_left fst snd].
  destruct (_lookup_virtarg re_match regs name) as [va|] eqn:Hlook.
  - rewrite (lookup_no_comma _ _ Hlook). apply IH. lia.
  - apply IH. lia.
Qed.

End PlainRegistry.

(** X5: for a registry in which no descriptor has comma continuation,
    the dictionary builder succeeds whenever the tokenizer does, its
    keys are distinct, and the last write wins: the value stored under a
    key is the value of the last token of that name, after the
    positional names have been spliced in. *)
Theorem last_write_wins (re_match : string -> string -> bool)
    (regs : list _VirtCLIArgumentStatic) (optstr : option string)
    (first : list string) (toks : list opttuple) :
  Forall (fun va => truthy_flag (can_comma va) = false) regs ->
  parse_optstr_tuples optstr = Ok toks ->
  exists d,
    _parse_optstr_to_dict re_match optstr regs first = Ok d
    /\ NoDup (keys d)
    /\ forall k, assoc_get k d
                 = last_value k (splice_remove_first toks first).
Proof.
  intros Hregs Htoks. unfold _parse_optstr_to_dict. rewrite Htoks.
  cbn [bind].
  rewrite (build_optdict_plain re_match regs Hregs) by lia.
  eexists. split; [reflexivity|]. split.
  - apply (@build_optdict_nodup re_match regs
             (List.length (splice_remove_first toks first))
             (splice_remove_first toks first) []
             (store_all (splice_remove_first toks first) [])).
    + constructor.
    + apply (build_optdict_plain re_match regs Hregs). lia.
  - intros k. rewrite store_all_last.
    destruct (last_value k (splice_remove_first toks first)); reflexivity.
Qed.

Lemma last_write_wins_witness :
  Forall (fun va => truthy_flag (can_comma va) = false) (_virtargs ParserDisk)
  /\ parse_optstr_tuples (Some "/tmp/a.img,bus=ide,foo=1,bus=virtio")
     = Ok [("/tmp/a.img", None); ("bus", Some "ide"); ("foo", Some "1");
           ("bus", Some "virtio")]
  /\ exists d,
      _parse_optstr_to_dict Re.match_
        (Some "/tmp/a.img,bus=ide,foo=1,bus=virtio")
        (_virtargs ParserDisk) ["path"] = Ok d
      /\ assoc_get "bus" d = Some (Some "virtio")
      /\ assoc_get "path" d = Some (Some "/tmp/a.img").
Proof.
  assert (Hregs : Forall (fun va => truthy_flag (can_comma va) = false)
                         (_virtargs ParserDisk))
    by (repeat constructor).
  split; [exact Hregs|]. split; [reflexivity|].
  destruct (last_write_wins Re.match_ (_virtargs ParserDisk)
              (Some "/tmp/a.img,bus=ide,foo=1,bus=virtio") ["path"]
              _ Hregs eq_refl) as [d [Hd [_ Hlast]]].
  exists d. split; [exact Hd|]. split; rewrite Hlast; reflexivity.
Defined.

(** X6: the positional names are spliced in up front: the leading
    tokens without a value become the values of the names of
    [remove_first], one name per token and in order, until the names
    run out; the tokens from the first one with a value on are left as
    they are. *)
Theorem positional_names_spliced (bare names : list string)
    (rest : list opttuple) :
  starts_with_value rest = true ->
  splice_remove_first (map bare_token bare ++ rest) names
  = map (fun nb => (fst nb, Some (snd nb))) (combine names bare)
    ++ map bare_token (skipn (List.length names) bare)
    ++ rest.
Proof.
  intros Hrest. revert names.
  induction bare as [|b bare IH]; intros names.
  - cbn [map app]. rewrite combine_nil, skipn_nil. cbn [map app].
    destruct rest as [|[name [v|]] rest]; try reflexivity.
    discriminate Hrest.
  - destruct names as [|name names]; [reflexivity|].
    cbn [map app splice_remove_first bare_token combine skipn List.length
         fst snd].
    f_equal. apply IH.
Qed.

Lemma positional_names_spliced_witness :
  starts_with_value [("foo", Some "bar")] = true
  /\ splice_remove_first (map bare_token ["pty"] ++ [("foo", Some "bar")])
                         ["char_type"]
     = [("char_type", Some "pty"); ("foo", Some "bar")]
  /\ _parse_optstr_to_dict Re.match_ (Some "pty,foo=bar") [] ["char_type"]
     = Ok [("char_type", Some "pty"); ("foo", Some "bar")].
Proof.
  split; [reflexivity|]. split; [|reflexivity].
  exact (positional_names_spliced ["pty"] ["char_type"]
                                  [("foo", Some "bar")] eq_refl).
Defined.

(** X7: when the main loop meets an option with comma continuation
    whose value is present, the tokens that follow and that no
    descriptor matches, with an absent or a non-empty value, are all
    appended to the value, as [",name"] or [",name=value"], up to the
    first token some descriptor matches or the end: the option gets one
    entry of the dictionary and the absorbed tokens none. *)
Theorem comma_value_absorbs_unknown_tokens
    (re_match : string -> string -> bool)
    (regs : list _VirtCLIArgumentStatic) (fuel : nat)
    (virtarg : _VirtCLIArgumentStatic) (name cur : string)
    (absorbed rest : list opttuple) (d : optdict_t) :
  _lookup_virtarg re_match regs name = Some virtarg ->
  can_comma virtarg = Some true ->
  Forall (fun t => known_name re_match regs (fst t) = false) absorbed ->
  forallb value_not_empty absorbed = true ->
  stops_absorbing re_match regs rest = true ->
  build_optdict re_match (S fuel) regs
                ((name, Some cur) :: absorbed ++ rest) d
  = build_optdict re_match fuel regs rest
      (assoc_set name (Some (cur ++ rejoin_all absorbed)%string) d).
Proof.
  exact (build_optdict_absorbs re_match regs fuel virtarg name cur
           absorbed rest d).
Qed.

Lemma comma_value_absorbs_unknown_tokens_witness :
  _lookup_virtarg Re.match_ (_virtargs ParserSecurity) "label"
  = nth_error (_virtargs ParserSecurity) 4
  /\ build_optdict Re.match_ 4 (_virtargs ParserSecurity)
       ([("label", Some "system_u:object_r")]
        ++ [("s0:c100", None); ("c200=x", Some "y")]
        ++ [("model", Some "selinux")]) []
     = build_optdict Re.match_ 3 (_virtargs ParserSecurity)
         [("model", Some "selinux")]
         [("label", Some "system_u:object_r,s0:c100,c200=x=y")].
Proof.
  split; [reflexivity|].
  destruct (nth_error (_virtargs ParserSecurity) 4) as [va|] eqn:Hva;
    [|discriminate Hva].
  assert (Hcomma : can_comma va = Some true)
    by (injection Hva as <-; reflexivity).
  assert (Hlook : _lookup_virtarg Re.match_ (_virtargs ParserSecurity) "label"
                  = Some va)
    by (rewrite <- Hva; reflexivity).
  apply (comma_value_absorbs_unknown_tokens
           Re.match_ (_virtargs ParserSecurity) 3 va
           "label" "system_u:object_r"
           [("s0:c100", None); ("c200=x", Some "y")]
           [("model", Some "selinux")] []).
  - exact Hlook.
  - exact Hcomma.
  - repeat constructor.
  - reflexivity.
  - reflexivity.
Defined.

(** ** The registry, further *)

Lemma init_requires_propname_or_cb (a : argspec)
    (d : _VirtCLIArgumentStatic) :
  _VirtCLIArgumentStatic__init__ a = Ok d ->
  has_propname (propname d) || is_some (cb d) = true.
Proof.
  unfold _VirtCLIArgumentStatic__init__.
  destruct (has_propname (s_propname a)) eqn:Hp;
    destruct (is_some (s_cb a)) eqn:Hcb; cbn [negb andb];
    try discriminate.
  - intros H. injection H as <-. cbn [propname cb]. rewrite Hp. reflexivity.
  - intros H. injection H as <-. cbn [propname cb]. rewrite Hp. reflexivity.
  - destruct (is_unspecified (s_lookup_cb a)); [discriminate|].
    intros H. injection H as <-. cbn [propname cb]. rewrite Hp, Hcb.
    reflexivity.
Qed.

(** X8: every descriptor of a registry filled by [add_arg] can be
    applied in construct mode: it has an attribute path or a callback.
    A descriptor with neither is not registered, and the calls that
    follow the rejected one in the same run are not made. *)
Theorem registry_descriptors_bindable (l : list argspec)
    (d : _VirtCLIArgumentStatic) :
  In d (fst (add_args [] l)) ->
  has_propname (propname d) || is_some (cb d) = true.
Proof.
  destruct l as [|a l]; [intros []|].
  cbn [add_args].
  destruct (_VirtCLIArgumentStatic__init__ a) as [d0|e] eqn:Hinit.
  - rewrite (add_arg_accepts _ _ Hinit).
    destruct (@add_args_appends l ([clearxml_static] ++ [d0]))
      as [added [Heq Hall]]; [discriminate|].
    rewrite Heq. intros Hin.
    apply in_app_or in Hin as [Hin|Hin].
    + destruct Hin as [<-|[<-|[]]]; [reflexivity|].
      exact (init_requires_propname_or_cb a d0 Hinit).
    + rewrite Forall_forall in Hall. destruct (Hall d Hin) as [a' [_ Ha']].
      exact (init_requires_propname_or_cb a' d Ha').
  - rewrite (add_arg_rejects _ _ Hinit). cbn [fst].
    intros [<-|[]]. reflexivity.
Qed.

Lemma registry_descriptors_bindable_witness :
  In cell_id_static (fst (add_args [] ParserCPU_args))
  /\ has_propname (propname cell_id_static)
     || is_some (cb cell_id_static) = true
  /\ fst (add_args [] [positional "path" (Some "path");
                       positional "broken" None;
                       positional "bus" (Some "bus")])
     = [clearxml_static; path_static].
Proof.
  assert (Hin : In cell_id_static (fst (add_args [] ParserCPU_args)))
    by (right; right; right; left; reflexivity).
  split; [exact Hin|]. split; [|reflexivity].
  exact (registry_descriptors_bindable ParserCPU_args cell_id_static Hin).
Defined.

(** ** Construct mode on plain descriptors *)

Lemma last_assigned_fold (p : string) (params : list _VirtCLIArgument) :
  forall ps,
    assoc_get p
      (fold_left (fun ps a => if skipped a then ps
                              else assoc_set (prop_of a) (val a) ps)
                 params ps)
    = match last_assigned p params with
      | Some v => Some v
      | None => assoc_get p ps
      end.
Proof.
  induction params as [|a params IH]; intros ps; [reflexivity|].
  cbn [fold_left last_assigned]. rewrite IH.
  destruct (last_assigned p params); [reflexivity|].
  destruct (skipped a); cbn [negb andb]; [reflexivity|].
  destruct (String.eqb p (prop_of a)) eqn:Hp.
  - apply String.eqb_eq in Hp. subst p. apply assoc_get_set.
  - apply assoc_get_set_other. exact Hp.
Qed.

Lemma keys_assoc_set_present {A : Type} (k : string) (v : A)
    (l : list (string * A)) :
  is_some (assoc_get k l) = true -> keys (assoc_set k v l) = keys l.
Proof.
  induction l as [|[k0 v0] l IH]; cbn [assoc_get assoc_set keys map fst];
    [discriminate|].
  destruct (String.eqb k k0) eqn:Hk; cbn [keys map fst].
  - apply String.eqb_eq in Hk. subst k0. reflexivity.
  - intros H. unfold keys in IH. rewrite (IH H). reflexivity.
Qed.

Lemma is_some_assoc_set {A : Type} (k k' : string) (v : A)
    (l : list (string * A)) :
  is_some (assoc_get k l) = true ->
  is_some (assoc_get k (assoc_set k' v l)) = true.
Proof.
  intros H. destruct (String.eqb k k') eqn:Hk.
  - apply String.eqb_eq in Hk. subst k'. rewrite assoc_get_set. reflexivity.
  - rewrite (assoc_get_set_other _ _ _ _ Hk). exact H.
Qed.

Lemma plain_descriptor_inv (d : _VirtCLIArgumentStatic) :
  plain_descriptor d = true ->
  exists p, propname d = Some p /\ PyStr.truthy p = true
            /\ cb d = None /\ find_inst_cb d = None.
Proof.
  unfold plain_descriptor, has_propname. intros H.
  apply andb_true_iff in H as [H Hfind].
  apply andb_true_iff in H as [Hp Hcb].
  destruct (propname d) as [p|]; [|discriminate].
  exists p. repeat split; [exact Hp| |].
  - destruct (cb d); [discriminate|reflexivity].
  - destruct (find_inst_cb d); [discriminate|reflexivity].
Qed.

Lemma parse_params_plain (parser : parser_view)
    (params : list _VirtCLIArgument) (r : ref) :
  forall heap o,
    Graph.resolve heap r = Some o ->
    forallb (assignable o) params = true ->
    exists heap',
      parse_params parser params heap (Some r) = Ok heap'
      /\ Graph.resolve heap' r
         = Some (Obj (fold_left
                        (fun ps a => if skipped a then ps
                                     else assoc_set (prop_of a) (val a) ps)
                        params (props o))
                     (lists o))
      /\ keys (fold_left
                 (fun ps a => if skipped a then ps
                              else assoc_set (prop_of a) (val a) ps)
                 params (props o))
         = keys (props o).
Proof.
  induction params as [|a params IH]; intros heap o Hres Hall.
  - exists heap. cbn [parse_params fold_left]. rewrite obj_eta.
    repeat split. exact Hres.
  - cbn [forallb] in Hall. apply andb_true_iff in Hall as [Ha Hall].
    cbn [parse_params fold_left].
    destruct (skipped a) eqn:Hskip.
    + unfold parse_param. unfold skipped in Hskip. rewrite Hskip.
      cbn [bind]. exact (IH heap o Hres Hall).
    + unfold assignable in Ha. rewrite Hskip in Ha. cbn [orb] in Ha.
      apply andb_true_iff in Ha as [Hplain Hattr].
      destruct (plain_descriptor_inv _ Hplain)
        as [p [Hprop [Hp [Hcb Hfind]]]].
      unfold has_attribute, prop_of in Hattr. rewrite Hprop in Hattr.
      destruct (assoc_get p (props o)) as [v0|] eqn:Hget; [|discriminate].
      destruct a as [v k d]. cbn [_virtarg val] in *.
      destruct (@parse_param_assigns parser d k p v v0 heap o r
                  Hcb Hfind Hprop Hp Hskip Hres Hget)
        as [heap1 [Hparse [Hres1 _]]].
      rewrite Hparse. cbn [bind].
      assert (Hall1 : forallb (assignable (Obj (assoc_set p v (props o))
                                               (lists o))) params = true).
      { apply forallb_forall. intros b Hb.
        rewrite forallb_forall in Hall. specialize (Hall b Hb).
        unfold assignable in *. destruct (skipped b); [reflexivity|].
        cbn [orb] in *. apply andb_true_iff in Hall as [Hpb Hab].
        rewrite Hpb. cbn [andb]. unfold has_attribute in *. cbn [props].
        apply is_some_assoc_set. exact Hab. }
      destruct (IH heap1 _ Hres1 Hall1) as [heap' [Hps [Hres' Hkeys]]].
      cbn [props lists] in Hres', Hkeys.
      exists heap'.
      replace (prop_of {| val := v; key := k; _virtarg := d |}) with p
        by (unfold prop_of; cbn [_virtarg]; rewrite Hprop; reflexivity).
      repeat split; [exact Hps|exact Hres'|].
      rewrite Hkeys. apply keys_assoc_set_present. rewrite Hget. reflexivity.
Qed.

(** X9: construct mode through plain descriptors.  When every bound
    argument is skipped (value ["default"] on a descriptor that ignores
    it) or assigns an attribute the object has, without callback or
    object finder, applying them succeeds; the object keeps its
    attribute names and its collections, and every attribute holds the
    value of the last bound argument that assigns it, or its previous
    value when no argument does. *)
Theorem construct_assigns_last_values (parser : parser_view)
    (params : list _VirtCLIArgument) (heap o : obj) (r : ref) :
  Graph.resolve heap r = Some o ->
  forallb (assignable o) params = true ->
  exists heap' o',
    parse_params parser params heap (Some r) = Ok heap'
    /\ Graph.resolve heap' r = Some o'
    /\ lists o' = lists o
    /\ keys (props o') = keys (props o)
    /\ forall p, assoc_get p (props o')
                 = match last_assigned p params with
                   | Some v => Some v
                   | None => assoc_get p (props o)
                   end.
Proof.
  intros Hres Hall.
  destruct (parse_params_plain parser params r heap o Hres Hall)
    as [heap' [Hparse [Hres' Hkeys]]].
  exists heap'. eexists. split; [exact Hparse|]. split; [exact Hres'|].
  cbn [props lists]. split; [reflexivity|]. split; [exact Hkeys|].
  intros p. apply last_assigned_fold.
Qed.

Lemma construct_assigns_last_values_witness :
  forallb (assignable (Obj [("path", PNone); ("source_path", PStr "/old")] []))
          [ {| val := PStr "/a"; key := "path"; _virtarg := path_static |};
            {| val := PStr "/b"; key := "path"; _virtarg := path_static |} ]
  = true
  /\ exists heap' o',
      parse_params
        {| pv_optstr := Some "path=/a,path=/b"; pv_guest_propname := None;
           pv_cli_arg_name := "two_paths"; pv_optdict := [] |}
        [ {| val := PStr "/a"; key := "path"; _virtarg := path_static |};
          {| val := PStr "/b"; key := "path"; _virtarg := path_static |} ]
        (Obj [("path", PNone); ("source_path", PStr "/old")] []) (Some [])
      = Ok heap'
      /\ Graph.resolve heap' [] = Some o'
      /\ assoc_get "path" (props o') = Some (PStr "/b")
      /\ assoc_get "source_path" (props o') = Some (PStr "/old").
Proof.
  split; [reflexivity|].
  destruct (construct_assigns_last_values
              {| pv_optstr := Some "path=/a,path=/b";
                 pv_guest_propname := None;
                 pv_cli_arg_name := "two_paths"; pv_optdict := [] |}
              [ {| val := PStr "/a"; key := "path"; _virtarg := path_static |};
                {| val := PStr "/b"; key := "path"; _virtarg := path_static |} ]
              (Obj [("path", PNone); ("source_path", PStr "/old")] [])
              (Obj [("path", PNone); ("source_path", PStr "/old")] [])
              [] eq_refl eq_refl)
    as [heap' [o' [Hparse [Hres [_ [_ Hget]]]]]].
  exists heap', o'. split; [exact Hparse|]. split; [exact Hres|].
  split; [exact (Hget "path") | exact (Hget "source_path")].
Defined.

(** ** Match mode on plain descriptors *)

Lemma comparable_inv (d : _VirtCLIArgumentStatic) :
  comparable d = true ->
  has_propname (propname d) = true
  /\ lookup_cb d = None /\ find_inst_cb d = None.
Proof.
  unfold comparable. intros H.
  apply andb_true_iff in H as [H Hfind].
  apply andb_true_iff in H as [Hp Hcb].
  repeat split; [exact Hp| |].
  - destruct (lookup_cb d); [discriminate|reflexivity].
  - destruct (find_inst_cb d); [discriminate|reflexivity].
Qed.

Lemma lookup_params_plain (parser : parser_view) (heap o : obj) (inst : ref)
    (params : list _VirtCLIArgument) :
  Graph.resolve heap inst = Some o ->
  forallb (fun a => comparable (_virtarg a)) params = true ->
  forallb (has_attribute o) params = true ->
  lookup_params parser params heap (Some inst)
  = Ok (heap, forallb (attr_equal o) params).
Proof.
  intros Hres. induction params as [|a params IH]; intros Hcmp Hattr;
    [reflexivity|].
  cbn [forallb] in Hcmp, Hattr.
  apply andb_true_iff in Hcmp as [Ha Hcmp].
  apply andb_true_iff in Hattr as [Hha Hattr].
  destruct (comparable_inv _ Ha) as [Hp [Hcb Hfind]].
  cbn [lookup_params forallb]. unfold lookup_param, lookup_compare.
  rewrite Hp, Hcb, Hfind. cbn [negb andb is_some].
  unfold Graph.get_prop_path, Graph.deref. rewrite Hres. cbn [bind].
  unfold has_attribute, prop_of in Hha. unfold attr_equal at 1, prop_of.
  unfold has_propname in Hp.
  destruct (propname (_virtarg a)) as [p|]; [|discriminate].
  destruct (assoc_get p (props o)) as [v|]; [|discriminate].
  cbn [bind pyval_eqb].
  destruct (pyval_eqb v (val a)); cbn [Bool.eqb andb]; [|reflexivity].
  exact (IH Hcmp Hattr).
Qed.

Section MatchFacts.

Variable re_match : string -> string -> bool.

Lemma lookup_children_plain (self : VirtCLIParser) (heap : obj)
    (params : list _VirtCLIArgument) (objlist : list ref) :
  _optdict_to_param_list re_match self (optdict self) = Ok (params, []) ->
  forallb (fun a => comparable (_virtarg a)) params = true ->
  forallb (candidate_ok heap params) objlist = true ->
  forall ret,
    lookup_children re_match self objlist heap ret
    = Ok (heap, ret ++ filter (matches_all heap params) objlist).
Proof.
  intros Hclaim Hcmp. induction objlist as [|inst objlist IH];
    intros Hok ret.
  - cbn [lookup_children filter]. rewrite app_nil_r. reflexivity.
  - cbn [forallb] in Hok. apply andb_true_iff in Hok as [Hinst Hok].
    cbn [lookup_children filter]. rewrite Hclaim. cbn [bind].
    unfold candidate_ok in Hinst. unfold matches_all at 1.
    destruct (Graph.resolve heap inst) as [o|] eqn:Hres; [|discriminate].
    rewrite (lookup_params_plain (view self) heap o inst params
               Hres Hcmp Hinst).
    cbn [bind _check_leftover_opts]. rewrite (IH Hok).
    destruct (forallb (attr_equal o) params); [|reflexivity].
    rewrite <- app_assoc. reflexivity.
Qed.

Lemma claim_all_empty (regs : list _VirtCLIArgumentStatic)
    (ret : list _VirtCLIArgument) :
  claim_all re_match regs [] ret = Ok (ret, []).
Proof.
  apply claim_all_unknown. intros k [].
Qed.

Lemma lookup_children_empty (self : VirtCLIParser) (heap : obj)
    (objlist : list ref) :
  optdict self = [] ->
  forall ret,
    lookup_children re_match self objlist heap ret
    = Ok (heap, ret ++ objlist).
Proof.
  intros Hempty. induction objlist as [|inst objlist IH]; intros ret.
  - cbn [lookup_children]. rewrite app_nil_r. reflexivity.
  - cbn [lookup_children]. unfold _optdict_to_param_list.
    rewrite Hempty, claim_all_empty.
    cbn [bind lookup_params _check_leftover_opts].
    rewrite IH, <- app_assoc. reflexivity.
Qed.

End MatchFacts.

(** X10: match mode through plain descriptors.  When the bound
    arguments leave no unknown key and are all compared by attribute
    equality (an attribute path, no match callback, no object finder),
    and every candidate has the attributes they name, the lookup returns
    exactly the candidates whose attributes hold all the values, in the
    order of the candidates, and the graph is left as it was. *)
Theorem match_filters_candidates (re_match : string -> string -> bool)
    (self : VirtCLIParser) (heap : obj) (params : list _VirtCLIArgument)
    (objlist : list ref) :
  _optdict_to_param_list re_match self (optdict self) = Ok (params, []) ->
  forallb (fun a => comparable (_virtarg a)) params = true ->
  forallb (candidate_ok heap params) objlist = true ->
  lookup_child_from_option_string re_match self heap objlist
  = Ok (heap, filter (matches_all heap params) objlist).
Proof.
  intros Hclaim Hcmp Hok. unfold lookup_child_from_option_string.
  rewrite (lookup_children_plain re_match self heap params objlist
             Hclaim Hcmp Hok []).
  reflexivity.
Qed.

(** X11: an option string without any token (absent, empty, or made of
    separators only) gives an empty dictionary, and with it the lookup
    returns every candidate, whatever the registry and whatever the
    candidates are; the graph is left as it was. *)
Theorem empty_criteria_match_all (re_match : string -> string -> bool)
    (c : VirtCLIParser_class) (raw : option string) (heap : obj)
    (objlist : list ref) :
  parse_optstr_tuples raw = Ok [] ->
  exists self,
    VirtCLIParser__init__ re_match c raw = Ok self
    /\ optdict self = []
    /\ lookup_child_from_option_string re_match self heap objlist
       = Ok (heap, objlist).
Proof.
  intros Htoks. unfold VirtCLIParser__init__, _parse_optstr_to_dict.
  rewrite Htoks. cbn [bind splice_remove_first List.length build_optdict].
  exists {| cls := c; optstr := raw; optdict := [] |}.
  split; [reflexivity|]. split; [reflexivity|].
  unfold lookup_child_from_option_string.
  rewrite (lookup_children_empty
             re_match {| cls := c; optstr := raw; optdict := [] |}
             heap objlist eq_refl []).
  reflexivity.
Qed.

(** X12: in match mode the check for unknown options sits inside the
    loop over the candidates.  For a dictionary that holds only keys no
    descriptor matches, the lookup fails with the unknown-options error,
    naming all the keys, as soon as there is one candidate; without any
    candidate it returns the empty list and reports nothing. *)
Theorem unknown_options_need_a_candidate
    (re_match : string -> string -> bool) (self : VirtCLIParser)
    (heap : obj) (inst : ref) (rest : list ref) :
  optdict self <> [] ->
  (forall k, In k (keys (optdict self)) ->
             known_name re_match (_virtargs (cls self)) k = false) ->
  lookup_child_from_option_string re_match self heap [] = Ok (heap, [])
  /\ lookup_child_from_option_string re_match self heap (inst :: rest)
     = Raise (SystemExit (UnknownOptions (cli_flag_name (cls self))
                                         (keys (optdict self)))).
Proof.
  intros Hne Hunknown. split; [reflexivity|].
  unfold lookup_child_from_option_string. cbn [lookup_children].
  unfold _optdict_to_param_list.
  rewrite (claim_all_unknown re_match _ _ [] Hunknown).
  cbn [bind lookup_params]. unfold _check_leftover_opts.
  destruct (optdict self) as [|kv d]; [contradiction|].
  reflexivity.
Qed.

Lemma match_filters_candidates_witness :
  VirtCLIParser__init__ Re.match_ ParserDisk (Some "bus=ide")
  = Ok disk_bus_ide
  /\ lookup_child_from_option_string Re.match_ disk_bus_ide
       guest_three_disks three_disks
     = Ok (guest_three_disks, [[("devices.disk", 0)]; [("devices.disk", 2)]]).
Proof.
  split; [vm_compute; reflexivity|].
  pose (params := [ {| val := PStr "ide"; key := "bus";
                       _virtarg := bus_static |} ]).
  assert (Hclaim : _optdict_to_param_list Re.match_ disk_bus_ide
                     (optdict disk_bus_ide) = Ok (params, []))
    by (vm_compute; reflexivity).
  assert (Hcmp : forallb (fun a => comparable (_virtarg a)) params = true)
    by (vm_compute; reflexivity).
  assert (Hok : forallb (candidate_ok guest_three_disks params) three_disks
                = true)
    by (vm_compute; reflexivity).
  exact (match_filters_candidates Re.match_ disk_bus_ide guest_three_disks
           params three_disks Hclaim Hcmp Hok).
Defined.

Lemma empty_criteria_match_all_witness :
  parse_optstr_tuples (Some ",,") = Ok []
  /\ exists self,
      VirtCLIParser__init__ Re.match_ ParserDisk (Some ",,") = Ok self
      /\ optdict self = []
      /\ lookup_child_from_option_string Re.match_ self
           guest_three_disks three_disks
         = Ok (guest_three_disks, three_disks).
Proof.
  split; [reflexivity|].
  exact (empty_criteria_match_all Re.match_ ParserDisk (Some ",,")
           guest_three_disks three_disks eq_refl).
Defined.

Lemma unknown_options_need_a_candidate_witness :
  VirtCLIParser__init__ Re.match_ ParserDisk (Some "colour=red")
  = Ok disk_colour_red
  /\ lookup_child_from_option_string Re.match_ disk_colour_red
       guest_three_disks []
     = Ok (guest_three_disks, [])
  /\ lookup_child_from_option_string Re.match_ disk_colour_red
       guest_three_disks three_disks
     = Raise (SystemExit (UnknownOptions "--disk" ["colour"])).
Proof.
  split; [vm_compute; reflexivity|].
  assert (Hne : optdict disk_colour_red <> []) by discriminate.
  assert (Hunknown : forall k, In k (keys (optdict disk_colour_red)) ->
                     known_name Re.match_ (_virtargs (cls disk_colour_red)) k
                     = false).
  { intros k [<-|[]]. vm_compute. reflexivity. }
  exact (unknown_options_need_a_candidate Re.match_ disk_colour_red
           guest_three_disks [("devices.disk", 0)]
           [[("devices.disk", 1)]; [("devices.disk", 2)]] Hne Hunknown).
Defined.

(** ** Indexed sub-objects, further *)

(** X13: when the collection already has an entry at the index the
    option name carries (index 0 when the name carries none), the object
    finder returns that entry in construct mode as in match mode, and
    the graph is returned as it was: nothing is created, nothing is
    removed. *)
Theorem find_inst_existing_entry
    (re_search_index : string -> string -> option nat)
    (cliarg lp : string) (parser : parser_view) (heap o proto c : obj)
    (items : list obj) (r : ref) (v : pyval) (a : arginfo)
    (can_edit : bool) :
  Graph.resolve heap r = Some o ->
  assoc_get lp (lists o) = Some (proto, items) ->
  nth_error items (index_in_key re_search_index cliarg (ai_key a)) = Some c ->
  _make_find_inst_cb re_search_index cliarg lp parser heap (Some r) v a
                     can_edit
  = Ok (heap,
        Some (r ++ [(lp, index_in_key re_search_index cliarg (ai_key a))]))
  /\ Graph.resolve heap
       (r ++ [(lp, index_in_key re_search_index cliarg (ai_key a))])
     = Some c.
Proof.
  intros Hres Hget Hnth. unfold _make_find_inst_cb.
  change (match re_search_index cliarg (ai_key a) with
          | Some n => n
          | None => 0
          end)
    with (index_in_key re_search_index cliarg (ai_key a)).
  set (num := index_in_key re_search_index cliarg (ai_key a)) in *.
  assert (Hlt : num < List.length items)
    by (apply nth_error_Some; congruence).
  assert (Hgrow : grow (num + 1) heap (Some r) lp num = Ok heap).
  { rewrite Nat.add_1_r. cbn [grow].
    rewrite (get_list_resolved heap o proto items r lp Hres Hget).
    cbn [bind].
    destruct (Nat.ltb_spec (List.length items) (num + 1)); [lia|].
    reflexivity. }
  split.
  - destruct can_edit; [rewrite Hgrow|]; cbn [bind];
      rewrite (get_list_resolved heap o proto items r lp Hres Hget);
      cbn [bind]; rewrite Hnth; reflexivity.
  - rewrite resolve_app, Hres. cbn [Graph.resolve].
    rewrite Hget, Hnth. reflexivity.
Qed.

Lemma find_inst_existing_entry_witness :
  index_in_key Re.search_index "cell" "cell1.id" = 1
  /\ index_in_key Re.search_index "cell" "cell.id" = 0
  /\ cell_find_inst_cb
       {| pv_optstr := Some "cell1.id=7"; pv_guest_propname := Some "cpu";
          pv_cli_arg_name := "cpu"; pv_optdict := [("cell1.id", Some "7")] |}
       cpu_two_cells (Some []) (PStr "7")
       {| ai_key := "cell1.id"; ai_cliname := "cell[0-9]*.id";
          ai_propname := Some "id" |} true
     = Ok (cpu_two_cells, Some [("cells", 1)]).
Proof.
  split; [vm_compute; reflexivity|]. split; [vm_compute; reflexivity|].
  exact (proj1
    (find_inst_existing_entry Re.search_index "cell" "cells"
       {| pv_optstr := Some "cell1.id=7"; pv_guest_propname := Some "cpu";
          pv_cli_arg_name := "cpu"; pv_optdict := [("cell1.id", Some "7")] |}
       cpu_two_cells cpu_two_cells empty_cell
       (Obj [("id", PStr "1"); ("cpus", PNone); ("memory", PNone)] [])
       [Obj [("id", PStr "0"); ("cpus", PNone); ("memory", PNone)] [];
        Obj [("id", PStr "1"); ("cpus", PNone); ("memory", PNone)] []]
       [] (PStr "7")
       {| ai_key := "cell1.id"; ai_cliname := "cell[0-9]*.id";
          ai_propname := Some "id" |} true
       eq_refl eq_refl eq_refl)).
Defined.

(** ** [--location] *)

Lemma tuples_texts_truthy (optstr : option string) (toks : list opttuple) :
  parse_optstr_tuples optstr = Ok toks ->
  Forall (fun t => PyStr.truthy (token_text t) = true) toks.
Proof.
  unfold parse_optstr_tuples.
  destruct (Shlex.split _) as [raw|e]; cbn [bind]; [|discriminate].
  intros H. injection H as <-.
  induction raw as [|opt raw IH]; [constructor|].
  cbn [flat_map]. apply Forall_app. split; [|exact IH].
  eapply Forall_impl; [|exact (QuoteFacts.split_opt_sound opt)].
  intros t [_ [Ht Hopt]]. rewrite Ht. exact Hopt.
Qed.

Lemma splice_nil (toks : list opttuple) : splice_remove_first toks [] = toks.
Proof. destruct toks as [|[name [v|]] toks]; reflexivity. Qed.

Lemma location_lookup :
  _lookup_virtarg Re.match_ (_virtargs ParserLocation) "location"
  = Some location_static.
Proof. vm_compute. reflexivity. Qed.

Lemma location_claim (x : string) :
  claim_all Re.match_ (_virtargs ParserLocation) [("location", Some x)] []
  = (a <- _VirtCLIArgument__init__ location_static "location" (Some x) ;;
     Ok ([a], [])).
Proof. vm_compute. reflexivity. Qed.

(** X14: a location that holds commas comes back in one piece.  When the
    option string starts with a token without ["="] and goes on with
    tokens that are not options of [--location], with absent or
    non-empty values, [parse_location] returns these tokens rejoined as
    the location, and no kernel and no initrd.  The string ["none"] is
    the no-op sentinel of the family and is left aside. *)
Theorem location_keeps_commas (s u : string) (absorbed : list opttuple) :
  parse_optstr_tuples (Some s) = Ok ((u, None) :: absorbed) ->
  String.eqb s "none" = false ->
  Forall (fun t => known_name Re.match_ (_virtargs ParserLocation) (fst t)
                   = false) absorbed ->
  forallb value_not_empty absorbed = true ->
  parse_location (Some s)
  = Ok (PStr (u ++ rejoin_all absorbed), PNone, PNone).
Proof.
  intros Htoks Hnone Hunknown Hvalues.
  assert (Hs : PyStr.truthy s = true).
  { destruct s; [discriminate Htoks|reflexivity]. }
  assert (Hu : PyStr.truthy u = true).
  { pose proof (tuples_texts_truthy _ _ Htoks) as H.
    inversion H as [|? ? Hhead _]; subst. exact Hhead. }
  destruct u as [|c u]; [discriminate Hu|].
  assert (Hdict : _parse_optstr_to_dict Re.match_ (Some s)
                    (_virtargs ParserLocation) ["location"]
                  = Ok [("location",
                         Some (String c u ++ rejoin_all absorbed)%string)]).
  { unfold _parse_optstr_to_dict. rewrite Htoks.
    cbn [bind splice_remove_first]. rewrite splice_nil.
    cbn [List.length].
    pose proof (build_optdict_absorbs Re.match_ (_virtargs ParserLocation)
                  (List.length absorbed) location_static "location"
                  (String c u) absorbed [] [] location_lookup eq_refl
                  Hunknown Hvalues eq_refl) as H.
    rewrite app_nil_r in H. rewrite H.
    destruct (List.length absorbed); reflexivity. }
  unfold parse_location, or_none. rewrite Hs.
  unfold VirtCLIParser__init__.
  change (remove_first ParserLocation) with ["location"].
  rewrite Hdict. cbn [bind]. unfold parse. cbn [optstr cls].
  rewrite Hs, Hnone.
  change (stub_none ParserLocation) with true. cbn [negb andb].
  unfold _parse, _optdict_to_param_list. cbn [optdict cls].
  rewrite location_claim.
  cbn [append _VirtCLIArgument__init__ String.eqb is_onoff location_static
       bind].
  destruct (@parse_param_assigns
              (view {| cls := ParserLocation; optstr := Some s;
                       optdict := [("location",
                                    Some (String c (u ++ rejoin_all absorbed))
                                   )] |})
              location_static "location" "location"
              (PStr (String c (u ++ rejoin_all absorbed))) PNone
              LocationData LocationData []
              eq_refl eq_refl eq_refl eq_refl (andb_false_r _)
              eq_refl eq_refl)
    as [heap' [Hparse [Hres _]]].
  cbn [parse_params]. rewrite Hparse. cbn [bind _check_leftover_opts].
  cbn [Graph.resolve] in Hres. injection Hres as ->.
  reflexivity.
Qed.

Lemma location_keeps_commas_witness :
  parse_location (Some "http://h/a,b,c=d")
  = Ok (PStr "http://h/a,b,c=d", PNone, PNone)
  /\ parse_location (Some "none") = Ok (PNone, PNone, PNone)
  /\ parse_location (Some "") = Ok (PNone, PNone, PNone).
Proof.
  split; [|split; vm_compute; reflexivity].
  apply (location_keeps_commas "http://h/a,b,c=d" "http://h/a"
           [("b", None); ("c", Some "d")]).
  - vm_compute. reflexivity.
  - reflexivity.
  - constructor; [vm_compute; reflexivity|].
    constructor; [vm_compute; reflexivity|]. constructor.
  - reflexivity.
Defined.

(** ** Global option handling *)

Lemma set_validation_checks_fields (l : list (string * pyval)) :
  forall st,
    all_checks (set_validation_checks st l) = all_checks st
    /\ forall k,
         assoc_get k (_validation_checks (set_validation_checks st l))
         = match last_set k l with
           | Some v => Some v
           | None => assoc_get k (_validation_checks st)
           end.
Proof.
  induction l as [|[name v] l IH]; intros st; [split; reflexivity|].
  cbn [set_validation_checks fold_left fst snd].
  change (fold_left
            (fun st kv => set_validation_check st (fst kv) (snd kv)) l
            (set_validation_check st name v))
    with (set_validation_checks (set_validation_check st name v) l).
  destruct (IH (set_validation_check st name v)) as [Hall Hget].
  split; [rewrite Hall; reflexivity|].
  intros k. rewrite Hget. cbn [last_set].
  destruct (last_set k l); [reflexivity|].
  cbn [set_validation_check _validation_checks].
  destruct (String.eqb k name) eqn:Hk.
  - apply String.eqb_eq in Hk. subst name. apply assoc_get_set.
  - apply assoc_get_set_other. exact Hk.
Qed.

(** X15: validation checks read back what was set last.  After any run
    of [set_validation_check] calls, [get_validation_check] answers
    [all_checks] whenever that is set, whatever the individual checks
    say; otherwise the value of the last call for the name, and for a
    name no call was made for, what the state answered before: [True]
    on a fresh state. *)
Theorem validation_checks_last_set_wins (st : _GlobalState)
    (l : list (string * pyval)) (k : string) :
  get_validation_check (set_validation_checks st l) k
  = match all_checks st with
    | PNone =>
        match last_set k l with
        | Some v => v
        | None => get_validation_check st k
        end
    | v => v
    end
  /\ get_validation_check _GlobalState__init__ k = PBool true.
Proof.
  split; [|reflexivity].
  destruct (set_validation_checks_fields l st) as [Hall Hget].
  unfold get_validation_check. rewrite Hall, Hget.
  destruct (all_checks st); try reflexivity.
  destruct (last_set k l); reflexivity.
Qed.

(** ** bash completion helpers *)

Lemma comma_free_list (w : string) :
  comma_free w = true ->
  forallb (fun c => negb (Ascii.eqb c TokenSpec.comma))
          (list_ascii_of_string w) = true.
Proof.
  unfold comma_free. induction w as [|c w IH]; [reflexivity|].
  cbn [PyStr.mem list_ascii_of_string forallb].
  rewrite (Ascii.eqb_sym TokenSpec.comma c).
  destruct (Ascii.eqb c TokenSpec.comma); cbn [orb negb andb];
    [discriminate|exact IH].
Qed.

Lemma split_comma_one (w : string) :
  comma_free w = true -> split_comma w = [w].
Proof.
  intros Hw. unfold split_comma, TokenSpec.fields_of.
  rewrite (AbsentFacts.fields_one _ EmptyString (comma_free_list w Hw)).
  cbn [append]. rewrite string_of_list_ascii_of_string. reflexivity.
Qed.

Lemma split_comma_app (pre w : string) :
  split_comma (pre ++ "," ++ w) = split_comma pre ++ split_comma w.
Proof.
  unfold split_comma, TokenSpec.fields_of.
  rewrite AbsentFacts.list_ascii_app. cbn [append list_ascii_of_string].
  change (","%char :: list_ascii_of_string w)
    with (TokenSpec.comma :: list_ascii_of_string w).
  apply TokenizerFacts.fields_app.
Qed.

Lemma append_not_empty (pre w : string) :
  String.eqb (pre ++ "," ++ w) "" = false.
Proof. destruct pre; reflexivity. Qed.

(** X16: the completion validator only looks at the field being typed.
    For a text [w] without comma, what precedes the last comma does not
    matter; and on [w] alone the answer is [True] for the empty text,
    no answer ([None], which is false) when [w] holds an ["="], that is
    when a value is being typed, and otherwise whether the candidate
    starts with [w]. *)
Theorem completer_validator_last_field (current_input pre w : string) :
  comma_free w = true ->
  _completer_validator current_input (pre ++ "," ++ w)
  = _completer_validator current_input w
  /\ _completer_validator current_input w
     = if PyStr.mem "=" w then None
       else if String.eqb w "" then Some true
       else Some (PyStr.startswith w current_input).
Proof.
  intros Hw.
  assert (Hone : _completer_validator current_input w
                 = if PyStr.mem "=" w then None
                   else if String.eqb w "" then Some true
                   else Some (PyStr.startswith w current_input)).
  { unfold _completer_validator. rewrite (split_comma_one w Hw).
    cbn [List.length Nat.leb last andb].
    destruct w as [|c w]; [reflexivity|].
    cbn [String.eqb]. destruct (PyStr.mem "=" (String c w)); reflexivity. }
  split; [|exact Hone]. rewrite Hone.
  unfold _completer_validator.
  rewrite append_not_empty, split_comma_app, (split_comma_one w Hw).
  rewrite last_last, length_app. cbn [List.length].
  rewrite Nat.add_1_r. cbn [Nat.leb andb].
  destruct (PyStr.mem "=" w); reflexivity.
Qed.

Lemma completer_validator_last_field_witness :
  comma_free "pa" = true
  /\ _completer_validator "path=" ("bus=ide" ++ "," ++ "pa") = Some true
  /\ _completer_validator "bus=" ("bus=ide" ++ "," ++ "pa") = Some false.
Proof.
  split; [reflexivity|].
  destruct (completer_validator_last_field "path=" "bus=ide" "pa" eq_refl)
    as [H1 H1'].
  destruct (completer_validator_last_field "bus=" "bus=ide" "pa" eq_refl)
    as [H2 H2'].
  split; [rewrite H1; exact H1' | rewrite H2; exact H2'].
Defined.

Lemma list_remove_nodup (x : string) (l : list string) :
  NoDup l ->
  list_remove x l = filter (fun y => negb (String.eqb y x)) l.
Proof.
  induction 1 as [|y l Hnotin Hnd IH]; [reflexivity|].
  cbn [list_remove filter]. rewrite (String.eqb_sym y x).
  destruct (String.eqb x y) eqn:Hxy; cbn [negb].
  - apply String.eqb_eq in Hxy. subst y. symmetry.
    apply (@filter_none string). intros z Hz.
    destruct (String.eqb z x) eqn:Hzx; [|reflexivity].
    apply String.eqb_eq in Hzx. subst z. contradiction.
  - rewrite IH. reflexivity.
Qed.

Lemma remove_entered (name : string) (sub : list string) :
  NoDup sub ->
  (if PyStr.in_list name sub then list_remove name sub else sub)
  = filter (fun y => negb (String.eqb y name)) sub.
Proof.
  intros Hnd. destruct (PyStr.in_list name sub) eqn:Hin.
  - apply list_remove_nodup. exact Hnd.
  - symmetry. apply (@filter_none string). intros z Hz.
    destruct (String.eqb z name) eqn:Hzx; [|reflexivity].
    apply String.eqb_eq in Hzx. subst z.
    apply in_list_iff in Hz. congruence.
Qed.

Lemma completer_fold (opts : list string) :
  forall sub,
    NoDup sub ->
    fold_left (fun sub_options opt =>
                 match entered_name opt with
                 | Some name =>
                     if PyStr.in_list name sub_options then
                       list_remove name sub_options
                     else sub_options
                 | None => sub_options
                 end) opts sub
    = filter (fun x =>
                negb (PyStr.in_list x
                        (flat_map (fun opt => match entered_name opt with
                                              | Some name => [name]
                                              | None => []
                                              end) opts)))
             sub.
Proof.
  induction opts as [|opt opts IH]; intros sub Hnd.
  - cbn [fold_left flat_map]. symmetry. apply (@filter_none string).
    intros; reflexivity.
  - cbn [fold_left flat_map].
    destruct (entered_name opt) as [name|]; cbn [app].
    + rewrite (remove_entered name sub Hnd).
      rewrite IH by (apply (@nodup_filter string); exact Hnd).
      rewrite (@filter_filter string). apply (@filter_ext_on string).
      intros x _. unfold PyStr.in_list. cbn [existsb].
      rewrite negb_orb. reflexivity.
    + apply IH. exact Hnd.
Qed.

(** X17: what the completer offers.  When the options of the
    destination carry distinct names, the completer offers exactly the
    options none of the comma-separated fields of the prefix has entered
    with a non-empty name and an ["="], in the order of the option
    list: it never offers an option that is not of the destination, and
    never one that was entered. *)
Theorem completer_offers_what_is_left (parsers : list VirtCLIParser_class)
    (dest prefix : string) :
  NoDup (sub_options_of parsers dest) ->
  _virtparser_completer parsers dest prefix
  = filter (fun x => negb (PyStr.in_list x (entered_names prefix)))
           (sub_options_of parsers dest).
Proof.
  intros Hnd. unfold _virtparser_completer, entered_names.
  apply completer_fold. exact Hnd.
Qed.

Lemma completer_offers_what_is_left_witness :
  NoDup (sub_options_of [ParserDisk; ParserCPU] "disk")
  /\ entered_names "bus=ide,=x,device,path=" = ["bus="; "path="]
  /\ _virtparser_completer [ParserDisk; ParserCPU] "disk"
                           "bus=ide,=x,device,path="
     = ["address.bus="; "address.type="; "clearxml="; "device="].
Proof.
  assert (Hnd : NoDup (sub_options_of [ParserDisk; ParserCPU] "disk")).
  { vm_compute. repeat (constructor; [simpl; intuition discriminate|]).
    constructor. }
  split; [exact Hnd|]. split; [reflexivity|].
  exact (completer_offers_what_is_left [ParserDisk; ParserCPU] "disk"
           "bus=ide,=x,device,path=" Hnd).
Defined.

(** ** Boolean normalization, further *)

Lemma lower_empty (v : string) :
  String.eqb v "" = String.eqb (PyStr.lower v) "".
Proof. destruct v; reflexivity. Qed.

(** X18: boolean values are read without regard to case.  Two values
    that differ only by the case of their letters bind alike on a
    boolean-normalized descriptor: the same truth value, the same unset
    marker for the empty string, or the same error. *)
Theorem onoff_ignores_case (d : _VirtCLIArgumentStatic) (k v v' : string) :
  is_onoff d = true ->
  PyStr.lower v = PyStr.lower v' ->
  _VirtCLIArgument__init__ d k (Some v) = _VirtCLIArgument__init__ d k (Some v').
Proof.
  intros Hd Hlower. unfold _VirtCLIArgument__init__. rewrite Hd.
  rewrite (lower_empty v), (lower_empty v'), Hlower.
  destruct (String.eqb (PyStr.lower v') ""); [reflexivity|].
  unfold _on_off_convert, _raw_on_off_convert. rewrite Hlower. reflexivity.
Qed.

Lemma onoff_ignores_case_witness :
  PyStr.lower "YES" = PyStr.lower "yes"
  /\ _VirtCLIArgument__init__ relabel_static "relabel" (Some "YES")
     = _VirtCLIArgument__init__ relabel_static "relabel" (Some "yes")
  /\ _VirtCLIArgument__init__ relabel_static "relabel" (Some "YES")
     = Ok {| val := PBool true; key := "relabel";
             _virtarg := relabel_static |}.
Proof.
  split; [reflexivity|]. split; [|reflexivity].
  exact (onoff_ignores_case relabel_static "relabel" "YES" "yes"
           eq_refl eq_refl).
Defined.

(** ** Comma continuation without a value *)

(** X19: an option with comma continuation that is written without
    ["="] cannot absorb anything: when the token after it is not an
    option of the family, the dictionary builder stops with a
    [TypeError] (the [+=] on an absent value), whatever that token and
    the rest are.  The error comes from the constructor of the parser
    and is not turned into a command-line failure. *)
Theorem comma_option_without_value_raises
    (re_match : string -> string -> bool)
    (regs : list _VirtCLIArgumentStatic) (fuel : nat)
    (va : _VirtCLIArgumentStatic) (name x : string) (v : option string)
    (rest : list opttuple) (d : optdict_t) :
  _lookup_virtarg re_match regs name = Some va ->
  can_comma va = Some true ->
  known_name re_match regs x = false ->
  build_optdict re_match (S fuel) regs ((name, None) :: (x, v) :: rest) d
  = Raise (TypeError "unsupported operand type(s) for +=").
Proof.
  intros Hlook Hcomma Hx. cbn [build_optdict].
  rewrite Hlook, Hcomma. cbn [truthy_flag].
  rewrite (consume_comma_arg_absent_value re_match regs name x v rest Hx).
  reflexivity.
Qed.

Lemma comma_option_without_value_raises_witness :
  VirtCLIParser__init__ Re.match_ ParserSecurity
    (Some "model=selinux,label,s0:c1=x")
  = Raise (TypeError "unsupported operand type(s) for +=")
  /\ build_optdict Re.match_ 2 (_virtargs ParserSecurity)
       [("label", None); ("s0:c1", Some "x")] [("model", Some "selinux")]
     = Raise (TypeError "unsupported operand type(s) for +=").
Proof.
  split; [vm_compute; reflexivity|].
  destruct (nth_error (_virtargs ParserSecurity) 4) as [va|] eqn:Hva;
    [|discriminate Hva].
  assert (Hcomma : can_comma va = Some true)
    by (injection Hva as <-; reflexivity).
  assert (Hlook : _lookup_virtarg Re.match_ (_virtargs ParserSecurity) "label"
                  = Some va)
    by (rewrite <- Hva; reflexivity).
  apply (comma_option_without_value_raises
           Re.match_ (_virtargs ParserSecurity) 1 va "label" "s0:c1"
           (Some "x") [] [("model", Some "selinux")]).
  - exact Hlook.
  - exact Hcomma.
  - vm_compute. reflexivity.
Defined.

(** ** Growing a collection *)

(** X20: in construct mode the object finder only appends.  For an
    option name that carries the index [num], the collection is
    extended by default entries until it has [num + 1] of them (by none
    when it already has), the entries it had keep their place and their
    content, the other attributes and collections of the object are
    left alone, and the entry at [num] is returned. *)
Theorem find_inst_only_appends
    (re_search_index : string -> string -> option nat)
    (cliarg lp : string) (parser : parser_view) (heap o proto : obj)
    (items : list obj) (r : ref) (v : pyval) (a : arginfo) (num : nat) :
  re_search_index cliarg (ai_key a) = Some num ->
  Graph.resolve heap r = Some o ->
  assoc_get lp (lists o) = Some (proto, items) ->
  exists heap' o',
    _make_find_inst_cb re_search_index cliarg lp parser heap (Some r) v a true
    = Ok (heap', Some (r ++ [(lp, num)]))
    /\ Graph.resolve heap' r = Some o'
    /\ props o' = props o
    /\ keys (lists o') = keys (lists o)
    /\ assoc_get lp (lists o')
       = Some (proto, items ++ repeat proto (num + 1 - List.length items))
    /\ (forall l, String.eqb l lp = false ->
                  assoc_get l (lists o') = assoc_get l (lists o)).
Proof.
  intros Hnum Hres Hget.
  destruct (find_inst_construct re_search_index cliarg lp parser heap o
              proto items r v a num Hnum Hres Hget)
    as [heap' [Hcb Hres']].
  exists heap'. eexists. split; [exact Hcb|]. split; [exact Hres'|].
  cbn [props lists]. split; [reflexivity|]. split.
  - apply keys_assoc_set_present. rewrite Hget. reflexivity.
  - split; [apply assoc_get_set|].
    intros l Hl. apply assoc_get_set_other. exact Hl.
Qed.

Lemma find_inst_only_appends_witness :
  Re.search_index "cell" "cell3.id" = Some 3
  /\ exists heap' o',
      cell_find_inst_cb
        {| pv_optstr := Some "cell3.id=7"; pv_guest_propname := Some "cpu";
           pv_cli_arg_name := "cpu";
           pv_optdict := [("cell3.id", Some "7")] |}
        cpu_two_cells (Some []) (PStr "7")
        {| ai_key := "cell3.id"; ai_cliname := "cell[0-9]*.id";
           ai_propname := Some "id" |} true
      = Ok (heap', Some [("cells", 3)])
      /\ Graph.resolve heap' [] = Some o'
      /\ assoc_get "cells" (lists o')
         = Some (empty_cell,
                 [Obj [("id", PStr "0"); ("cpus", PNone); ("memory", PNone)] [];
                  Obj [("id", PStr "1"); ("cpus", PNone); ("memory", PNone)] [];
                  empty_cell; empty_cell]).
Proof.
  split; [vm_compute; reflexivity|].
  destruct (find_inst_only_appends Re.search_index "cell" "cells"
              {| pv_optstr := Some "cell3.id=7";
                 pv_guest_propname := Some "cpu";
                 pv_cli_arg_name := "cpu";
                 pv_optdict := [("cell3.id", Some "7")] |}
              cpu_two_cells cpu_two_cells empty_cell
              [Obj [("id", PStr "0"); ("cpus", PNone); ("memory", PNone)] [];
               Obj [("id", PStr "1"); ("cpus", PNone); ("memory", PNone)] []]
              [] (PStr "7")
              {| ai_key := "cell3.id"; ai_cliname := "cell[0-9]*.id";
                 ai_propname := Some "id" |} 3
              eq_refl eq_refl eq_refl)
    as [heap' [o' [Hcb [Hres [_ [_ [Hcells _]]]]]]].
  exists heap', o'. split; [exact Hcb|]. split; [exact Hres|exact Hcells].
Defined.
